(** * BorgDash backend: ingest-and-aggregate storage layer

    A shallow embedding of [backend/storage.py], [backend/validation.py],
    [backend/config.py] and the routes of [backend/main.py] that call
    them, together with the properties of the summary record, the run
    list, the configuration batch and the schedule parser.

    Conventions of the embedding:
    - a JSON document is a value of [json]; objects that the code merges
      key by key (the job summary) are [gmap string json];
    - Python exceptions are [None] in [option]; a function that catches
      every exception and logs it leaves the files as they were;
    - binary64 arithmetic is [spec_float] at precision 53;
    - a [str] is a [string] of characters with code points below 256;
    - [datetime.now()], the random suffix of an event id and the keys
      drawn by [generate_api_key] are arguments of the operations that
      read them; [float(str)] and [datetime.fromisoformat] of the Python
      runtime are variables of the sections that call them;
    - the response models are those of pydantic 2: a [str] field takes a
      [str] and nothing else, an [int] field takes an [int] as it is, and
      what it makes of another value is a variable of the query layer. *)

From Stdlib Require Import ZArith String Ascii List Bool Lia.
From Stdlib Require Import SpecFloat DecimalString Sorted Permutation.
From stdpp Require Import gmap strings list sorting.

Set Warnings "-register-all".

Local Open Scope string_scope.
Local Open Scope Z_scope.

(** ** JSON values *)

Inductive json : Type :=
| JNull : json
| JBool : bool -> json
| JInt : Z -> json
| JFloat : spec_float -> json
| JStr : string -> json
| JList : list json -> json
| JObj : list (string * json) -> json.

(** [d.get(k)] on a JSON object held as an association list with one
    binding per key (the first one found is the binding). *)
Fixpoint assoc_get (k : string) (kvs : list (string * json)) : option json :=
  match kvs with
  | [] => None
  | (k', v) :: rest => if String.eqb k k' then Some v else assoc_get k rest
  end.

(** Python truthiness, [bool(v)]. *)
Definition truthy (v : json) : bool :=
  match v with
  | JNull => false
  | JBool b => b
  | JInt z => negb (z =? 0)
  | JFloat f =>
      match f with
      | S754_zero _ => false
      | _ => true
      end
  | JStr s => negb (String.eqb s "")
  | JList l => match l with [] => false | _ => true end
  | JObj kvs => match kvs with [] => false | _ => true end
  end.

(** [v.get(k, {})]: an [AttributeError] ([None]) unless [v] is an object. *)
Definition get_or_empty (v : json) (k : string) : option json :=
  match v with
  | JObj kvs => Some (default (JObj []) (assoc_get k kvs))
  | _ => None
  end.

(** ** Binary64 arithmetic and [%.1f] formatting *)

Module Float.

Definition prec : Z := 53.
Definition emax : Z := 1024.

Definition of_Z (z : Z) : spec_float := binary_normalize prec emax z 0 false.
Definition div : spec_float -> spec_float -> spec_float := SFdiv prec emax.
Definition mul : spec_float -> spec_float -> spec_float := SFmul prec emax.
Definition sub : spec_float -> spec_float -> spec_float := SFsub prec emax.

Definition is_finite (f : spec_float) : bool :=
  match f with
  | S754_zero _ | S754_finite _ _ _ => true
  | _ => false
  end.

(** [float(n)] for a Python [int]: [OverflowError] when out of range. *)
Definition of_int (z : Z) : option spec_float :=
  let f := of_Z z in if is_finite f then Some f else None.

(** [a / b] for Python [int]s: the correctly rounded quotient;
    [ZeroDivisionError] for [b = 0], [OverflowError] out of range. *)
Definition int_truediv (a b : Z) : option spec_float :=
  if b =? 0 then None
  else
    let q :=
      match a with
      | Z0 => S754_zero (b <? 0)
      | _ =>
          SFdiv prec emax
            (S754_finite (a <? 0) (Z.to_pos (Z.abs a)) 0)
            (S754_finite (b <? 0) (Z.to_pos (Z.abs b)) 0)
      end in
    if is_finite q then Some q else None.

Definition string_of_nat_Z (z : Z) : string :=
  NilZero.string_of_uint (N.to_uint (Z.to_N z)).

(** Round the rational [n / 2^k] to the nearest integer, ties to even. *)
Definition round_half_even_shift (n : Z) (k : Z) : Z :=
  let den := 2 ^ k in
  let q := n / den in
  let r := n mod den in
  match 2 * r ?= den with
  | Lt => q
  | Gt => q + 1
  | Eq => if Z.even q then q else q + 1
  end.

(** The number of tenths nearest to [m * 2^e]. *)
Definition tenths (m : positive) (e : Z) : Z :=
  if 0 <=? e then Zpos m * 10 * 2 ^ e
  else round_half_even_shift (Zpos m * 10) (- e).

(** [f"{x:.1f}"]. *)
Definition format_1f (x : spec_float) : string :=
  match x with
  | S754_nan => "nan"
  | S754_infinity s => if s then "-inf" else "inf"
  | S754_zero s => if s then "-0.0" else "0.0"
  | S754_finite s m e =>
      let t := tenths m e in
      ((if s then "-" else "")
         ++ string_of_nat_Z (t / 10) ++ "." ++ string_of_nat_Z (t mod 10))%string
  end.

End Float.

(** ** Python numbers as they occur in a JSON payload *)

Inductive pynum : Type :=
| PInt : Z -> pynum
| PFloat : spec_float -> pynum.

(** The numeric reading of a JSON value in a comparison or a division;
    [bool] is a subclass of [int].  [None] stands for the [TypeError] of
    the other types. *)
Definition as_num (v : json) : option pynum :=
  match v with
  | JBool b => Some (PInt (if b then 1 else 0))
  | JInt z => Some (PInt z)
  | JFloat f => Some (PFloat f)
  | _ => None
  end.

(** [x > 0]. *)
Definition num_gt0 (x : pynum) : bool :=
  match x with
  | PInt z => 0 <? z
  | PFloat f => SFltb (S754_zero false) f
  end.

(** [x == 0]. *)
Definition num_eq0 (x : pynum) : bool :=
  match x with
  | PInt z => z =? 0
  | PFloat f => SFeqb f (S754_zero false)
  end.

(** [float(x)]. *)
Definition num_to_float (x : pynum) : option spec_float :=
  match x with
  | PInt z => Float.of_int z
  | PFloat f => Some f
  end.

(** [a / b]. *)
Definition num_truediv (a b : pynum) : option spec_float :=
  match a, b with
  | PInt x, PInt y => Float.int_truediv x y
  | _, _ =>
      match num_to_float a, num_to_float b with
      | Some fa, Some fb =>
          if num_eq0 b then None else Some (Float.div fa fb)
      | _, _ => None
      end
  end.

(** [int(x)] for a finite float: truncation towards zero. *)
Definition float_trunc (f : spec_float) : option Z :=
  match f with
  | S754_zero _ => Some 0
  | S754_finite s m e =>
      let a := if 0 <=? e then Zpos m * 2 ^ e else Zpos m / 2 ^ (- e) in
      Some (if s then - a else a)
  | _ => None
  end.

(** [str(n)] for a Python [int]. *)
Definition string_of_Z (z : Z) : string :=
  if z <? 0 then ("-" ++ Float.string_of_nat_Z (- z))%string
  else Float.string_of_nat_Z z.

(** ** [DataStorage._format_size] *)

Section FormatSize.

(** [float(s)] for a [str]: the parser of the Python runtime. *)
Variable float_of_str : string -> option spec_float.

(** [size_bytes == 0]. *)
Definition json_eq0 (v : json) : bool :=
  match as_num v with
  | Some n => num_eq0 n
  | None => false
  end.

(** [float(size_bytes)]. *)
Definition json_to_float (v : json) : option spec_float :=
  match v with
  | JStr s => float_of_str s
  | _ =>
      match as_num v with
      | Some n => num_to_float n
      | None => None
      end
  end.

Definition size_units : list string := ["B"; "KB"; "MB"; "GB"; "TB"].

(** The [for unit in ...] loop of [_format_size] and its final [return]. *)
Fixpoint format_size_loop (size : spec_float) (units : list string) : string :=
  match units with
  | [] => (Float.format_1f size ++ " PB")%string
  | unit :: rest =>
      if SFltb size (Float.of_Z 1024)
      then (Float.format_1f size ++ " " ++ unit)%string
      else format_size_loop (Float.div size (Float.of_Z 1024)) rest
  end.

Definition _format_size (size_bytes : json) : option string :=
  if json_eq0 size_bytes then Some "0 B"
  else
    match json_to_float size_bytes with
    | Some size => Some (format_size_loop size size_units)
    | None => None
    end.

End FormatSize.

(** ** Strings *)

(** [needle in haystack] for two [str]. *)
Fixpoint contains (needle haystack : string) : bool :=
  String.prefix needle haystack
  || match haystack with
     | EmptyString => false
     | String _ rest => contains needle rest
     end.

(** ** Time *)

(** A [datetime] as the code uses it: a point on the time line in
    microseconds, whether it carries a UTC offset, and its [isoformat()]. *)
Record datetime : Type := {
  dt_us : Z;
  dt_aware : bool;
  isoformat : string
}.

(** [int((end_time - start_time).total_seconds())]; the subtraction of an
    aware and a naive datetime is a [TypeError]. *)
Definition duration_seconds (start_time end_time : datetime) : option Z :=
  if Bool.eqb (dt_aware start_time) (dt_aware end_time) then
    match Float.int_truediv (dt_us end_time - dt_us start_time) 1000000 with
    | Some secs => float_trunc secs
    | None => None
    end
  else None.

(** ** Push payloads *)

(** [PushStatusRequest.status]. *)
Inductive run_status : Type := Success | Failed | Running | Warning.

Definition status_str (s : run_status) : string :=
  match s with
  | Success => "success"
  | Failed => "failed"
  | Running => "running"
  | Warning => "warning"
  end.

(** The [run_data] dictionary that [push_status] builds from a
    [PushStatusRequest]. *)
Record run_data : Type := {
  run_id : string;
  status : run_status;
  start_time : datetime;
  end_time : option datetime;
  exit_code : option Z;
  log_lines : list string;
  error_message : option string
}.

(** ** The job summary, [job_summary.json] *)

(** [d.setdefault(k, v)]. *)
Definition setdefault (k : string) (v : json) (d : gmap string json)
  : gmap string json :=
  match d !! k with
  | Some _ => d
  | None => <[k := v]> d
  end.

(** The block of [setdefault] calls shared by the run and event updates. *)
Definition preserve_archive_stats (d : gmap string json) : gmap string json :=
  setdefault "backup_type" (JStr "borgmatic")
    (setdefault "repository_path" (JStr "")
       (setdefault "compression_ratio" (JStr "0%")
          (setdefault "deduplicated_size" (JStr "0 B")
             (setdefault "compressed_size" (JStr "0 B")
                (setdefault "full_size" (JStr "0 B")
                   (setdefault "archive_count" (JInt 0) d)))))).

(** The dictionary that [_update_summary_from_run] dumps, from the one it
    loaded ([cache_data]) and the clock reading [now]. *)
Definition summary_from_run (job_id now : string) (rd : run_data)
    (cache_data : gmap string json) : gmap string json :=
  let c := <["last_updated" := JStr now]> (<["job_id" := JStr job_id]> cache_data) in
  let c := <["last_backup" := JStr (isoformat (start_time rd))]> c in
  let c :=
    match status rd with
    | Success => <["last_successful_backup" := JStr (isoformat (start_time rd))]> c
    | _ => c
    end in
  let c := <["status" := JStr (status_str (status rd))]> c in
  preserve_archive_stats c.

(** [extra.get('action') if extra else None]. *)
Definition event_action (extra : option (list (string * json))) : option json :=
  match extra with
  | Some kvs => if truthy (JObj kvs) then assoc_get "action" kvs else None
  | None => None
  end.

(** The dictionary that [_update_summary_from_event] dumps; [timestamp]
    is the event's [isoformat()] and [now] the later clock reading. *)
Definition summary_from_event (job_id event_type timestamp now : string)
    (extra : option (list (string * json)))
    (cache_data : gmap string json) : gmap string json :=
  let action := event_action extra in
  let is_everything :=
    match action with
    | Some (JStr a) => String.eqb a "everything"
    | _ => false
    end in
  let c :=
    if (String.eqb event_type "success" || String.eqb event_type "failed")
       && is_everything
    then
      let c := <["status" := JStr event_type]> cache_data in
      let c := <["last_backup" := JStr timestamp]> c in
      if String.eqb event_type "success"
      then <["last_successful_backup" := JStr timestamp]> c
      else c
    else cache_data in
  let c := <["job_id" := JStr job_id]> (<["last_updated" := JStr now]> c) in
  preserve_archive_stats c.

(** [len(v)]: a [TypeError] for values without a length. *)
Definition py_len (v : json) : option Z :=
  match v with
  | JList l => Some (Z.of_nat (List.length l))
  | JObj kvs => Some (Z.of_nat (List.length kvs))
  | JStr s => Some (Z.of_nat (String.length s))
  | _ => None
  end.

(** [v > 0]. *)
Definition json_gt0 (v : json) : option bool :=
  match as_num v with
  | Some n => Some (num_gt0 n)
  | None => None
  end.

(** [f"{(1 - compressed_size / total_size) * 100:.1f}%"]. *)
Definition ratio_string (compressed_size total_size : json) : option string :=
  match as_num compressed_size, as_num total_size with
  | Some c, Some t =>
      match num_truediv c t with
      | Some q =>
          let ratio := Float.mul (Float.sub (Float.of_Z 1) q) (Float.of_Z 100) in
          Some (Float.format_1f ratio ++ "%")%string
      | None => None
      end
  | _, _ => None
  end.

(** The guard ['repository' in repository_info and 'location' in
    repository_info['repository']] followed by the subscript: [Some None]
    when the guard is false, [Some (Some v)] with the location, [None] for
    the [TypeError] of a repository entry that is not an object. *)
Definition repository_location (repository_info : list (string * json))
  : option (option json) :=
  match assoc_get "repository" repository_info with
  | None => Some None
  | Some (JObj r) => Some (assoc_get "location" r)
  | Some (JStr s) => if contains "location" s then None else Some None
  | Some (JList l) =>
      if existsb (fun x => match x with
                           | JStr t => String.eqb t "location"
                           | _ => false
                           end) l
      then None else Some None
  | Some _ => None
  end.

(** [repository_info.get('cache', {}).get('stats', {})]. *)
Definition cache_stats (repository_info : list (string * json)) : option json :=
  match get_or_empty (JObj repository_info) "cache" with
  | Some cache => get_or_empty cache "stats"
  | None => None
  end.

Section BorgInfoSummary.

Variable float_of_str : string -> option spec_float.

(** The [if repo_stats:] block of [_update_summary_from_borg_info]. *)
Definition size_statistics (repo_stats : json) (cache_data : gmap string json)
  : option (gmap string json) :=
  if truthy repo_stats then
    match repo_stats with
    | JObj st =>
        let total_size := default (JInt 0) (assoc_get "total_size" st) in
        let compressed_size := default (JInt 0) (assoc_get "total_csize" st) in
        let deduplicated_size := default (JInt 0) (assoc_get "unique_size" st) in
        full ← _format_size float_of_str total_size;
        comp ← _format_size float_of_str compressed_size;
        dedup ← _format_size float_of_str deduplicated_size;
        let c : gmap string json :=
          <["deduplicated_size" := JStr dedup]>
            (<["compressed_size" := JStr comp]>
               (<["full_size" := JStr full]> cache_data)) in
        match json_gt0 total_size with
        | None => None
        | Some false => Some (<["compression_ratio" := JStr "0%"]> c)
        | Some true =>
            match json_gt0 compressed_size with
            | None => None
            | Some false => Some (<["compression_ratio" := JStr "0%"]> c)
            | Some true =>
                r ← ratio_string compressed_size total_size;
                Some (<["compression_ratio" := JStr r]> c)
            end
        end
    | _ => None
    end
  else Some cache_data.

(** The dictionary that [_update_summary_from_borg_info] dumps, or [None]
    when an exception reaches its [except] clause before the dump. *)
Definition summary_from_borg_info (job_id now : string)
    (repository_info : list (string * json)) (archive_list : json)
    (cache_data : gmap string json) : option (gmap string json) :=
  n ← py_len archive_list;
  let c : gmap string json := <["archive_count" := JInt n]> cache_data in
  repo_stats ← cache_stats repository_info;
  c ← size_statistics repo_stats c;
  loc ← repository_location repository_info;
  let c : gmap string json :=
    match loc with
    | Some l => <["repository_path" := l]> c
    | None => c
    end in
  let c : gmap string json :=
    <["job_id" := JStr job_id]> (<["last_updated" := JStr now]> c) in
  Some (setdefault "schedule_status" (JStr "unknown")
          (setdefault "status" (JStr "unknown")
             (setdefault "backup_type" (JStr "borgmatic") c))).

End BorgInfoSummary.

(** ** The data directory *)

(** An entry of [runs.json]; [re_duration] is the optional key. *)
Record run_entry : Type := {
  re_id : string;
  re_status : string;
  re_timestamp : string;
  re_end_timestamp : option string;
  re_exit_code : option Z;
  re_error_message : option string;
  re_duration : option string
}.

(** An [event_<id>.json] file. *)
Record event_data : Type := {
  ev_id : string;
  ev_type : string;
  ev_timestamp : string;
  ev_message : string;
  ev_has_info : bool;
  ev_extra : list (string * json)
}.

(** The files of one job directory, [data_dir / job_id]; [None] is a file
    that does not exist. *)
Record job_dir : Type := {
  job_summary : option (gmap string json);  (* job_summary.json *)
  summary : option (gmap string json);      (* summary.json *)
  runs : option (list run_entry);           (* runs.json, its "runs" list *)
  run_files : gmap string run_entry;        (* run_<id>.json *)
  run_logs : gmap string (list string);     (* run_<id>.log *)
  repository_info : option json;            (* repository_info.json *)
  archives : option json;                   (* archives.json *)
  events : gmap string event_data;          (* event_<id>.json *)
  event_infos : gmap string string          (* event_<id>.info *)
}.

Definition empty_dir : job_dir :=
  {| job_summary := None; summary := None; runs := None; run_files := ∅;
     run_logs := ∅; repository_info := None; archives := None;
     events := ∅; event_infos := ∅ |}.

Definition set_job_summary (v : gmap string json) (d : job_dir) : job_dir :=
  {| job_summary := Some v; summary := summary d; runs := runs d;
     run_files := run_files d; run_logs := run_logs d;
     repository_info := repository_info d; archives := archives d;
     events := events d; event_infos := event_infos d |}.

Definition set_summary (v : gmap string json) (d : job_dir) : job_dir :=
  {| job_summary := job_summary d; summary := Some v; runs := runs d;
     run_files := run_files d; run_logs := run_logs d;
     repository_info := repository_info d; archives := archives d;
     events := events d; event_infos := event_infos d |}.

Definition set_runs (v : list run_entry) (d : job_dir) : job_dir :=
  {| job_summary := job_summary d; summary := summary d; runs := Some v;
     run_files := run_files d; run_logs := run_logs d;
     repository_info := repository_info d; archives := archives d;
     events := events d; event_infos := event_infos d |}.

Definition set_run_file (id : string) (v : run_entry) (d : job_dir) : job_dir :=
  {| job_summary := job_summary d; summary := summary d; runs := runs d;
     run_files := <[id := v]> (run_files d); run_logs := run_logs d;
     repository_info := repository_info d; archives := archives d;
     events := events d; event_infos := event_infos d |}.

Definition set_run_log (id : string) (v : list string) (d : job_dir) : job_dir :=
  {| job_summary := job_summary d; summary := summary d; runs := runs d;
     run_files := run_files d; run_logs := <[id := v]> (run_logs d);
     repository_info := repository_info d; archives := archives d;
     events := events d; event_infos := event_infos d |}.

Definition set_repository_info (v : json) (d : job_dir) : job_dir :=
  {| job_summary := job_summary d; summary := summary d; runs := runs d;
     run_files := run_files d; run_logs := run_logs d;
     repository_info := Some v; archives := archives d;
     events := events d; event_infos := event_infos d |}.

Definition set_archives (v : json) (d : job_dir) : job_dir :=
  {| job_summary := job_summary d; summary := summary d; runs := runs d;
     run_files := run_files d; run_logs := run_logs d;
     repository_info := repository_info d; archives := Some v;
     events := events d; event_infos := event_infos d |}.

Definition set_event (id : string) (v : event_data) (d : job_dir) : job_dir :=
  {| job_summary := job_summary d; summary := summary d; runs := runs d;
     run_files := run_files d; run_logs := run_logs d;
     repository_info := repository_info d; archives := archives d;
     events := <[id := v]> (events d); event_infos := event_infos d |}.

Definition set_event_info (id : string) (v : string) (d : job_dir) : job_dir :=
  {| job_summary := job_summary d; summary := summary d; runs := runs d;
     run_files := run_files d; run_logs := run_logs d;
     repository_info := repository_info d; archives := archives d;
     events := events d; event_infos := <[id := v]> (event_infos d) |}.

(** [job_dir.mkdir(parents=True, exist_ok=True)] followed by the use of
    the directory. *)
Definition the_dir (job_id : string) (st : gmap string job_dir) : job_dir :=
  default empty_dir (st !! job_id).

(** Whether an ingest call returned or re-raised its exception. *)
Inductive outcome : Type := Returned | Raised.

(** The [job_summary.json] of a job, if the file exists. *)
Definition summary_of (job_id : string) (st : gmap string job_dir)
  : option (gmap string json) :=
  match st !! job_id with
  | Some d => job_summary d
  | None => None
  end.

(** One field of it. *)
Definition summary_field (job_id field : string) (st : gmap string job_dir)
  : option json :=
  match summary_of job_id st with
  | Some s => s !! field
  | None => None
  end.

(** ** [store_backup_run] and the run list *)

(** The duration of a run: [Some None] without an end time, [None] for
    the [TypeError] of the subtraction. *)
Definition run_duration (rd : run_data) : option (option Z) :=
  match end_time rd with
  | Some e =>
      match duration_seconds (start_time rd) e with
      | Some s => Some (Some s)
      | None => None
      end
  | None => Some None
  end.

(** [run_entry] (and [run_info]) built from the request. *)
Definition make_run_entry (rd : run_data) (duration : option Z) : run_entry :=
  {| re_id := run_id rd;
     re_status := status_str (status rd);
     re_timestamp := isoformat (start_time rd);
     re_end_timestamp := option_map isoformat (end_time rd);
     re_exit_code := exit_code rd;
     re_error_message := error_message rd;
     re_duration := option_map (fun s => (string_of_Z s ++ "s")%string) duration |}.

(** The [for i, existing_run in enumerate(runs_list)] loop: the first
    entry with the id is replaced; [None] when the loop ends without
    [updated]. *)
Fixpoint replace_first (e : run_entry) (l : list run_entry)
  : option (list run_entry) :=
  match l with
  | [] => None
  | x :: rest =>
      if String.eqb (re_id x) (re_id e) then Some (e :: rest)
      else option_map (cons x) (replace_first e rest)
  end.

Definition upsert_run (e : run_entry) (l : list run_entry) : list run_entry :=
  match replace_first e l with
  | Some l' => l'
  | None => l ++ [e]
  end.

(** [runs_list.sort(key=lambda x: x.get('timestamp', ''), reverse=True)]:
    a stable sort on the timestamp strings, greatest first. *)
Fixpoint insert_desc (x : run_entry) (l : list run_entry) : list run_entry :=
  match l with
  | [] => [x]
  | y :: rest =>
      if String.ltb (re_timestamp x) (re_timestamp y)
      then y :: insert_desc x rest
      else x :: l
  end.

Fixpoint sort_desc (l : list run_entry) : list run_entry :=
  match l with
  | [] => []
  | x :: rest => insert_desc x (sort_desc rest)
  end.

Definition max_runs : nat := 100.

(** The list that [_update_runs_from_run] dumps, given the one it loaded. *)
Definition runs_after (e : run_entry) (runs_list : list run_entry)
  : list run_entry :=
  firstn max_runs (sort_desc (upsert_run e runs_list)).

(** [_update_runs_from_run]; an exception leaves the file as it was. *)
Definition _update_runs_from_run (rd : run_data) (d : job_dir) : job_dir :=
  match run_duration rd with
  | Some duration =>
      set_runs (runs_after (make_run_entry rd duration) (default [] (runs d))) d
  | None => d
  end.

(** [_update_summary_from_run]. *)
Definition _update_summary_from_run (job_id now : string) (rd : run_data)
    (d : job_dir) : job_dir :=
  set_job_summary
    (summary_from_run job_id now rd (default ∅ (job_summary d))) d.

(** [_update_job_summary]: the legacy [summary.json], then the two
    updates above. *)
Definition _update_job_summary (job_id now1 now2 : string) (rd : run_data)
    (d : job_dir) : job_dir :=
  let s : gmap string json :=
    <["last_updated" := JStr now1]>
      (<["last_status" := JStr (status_str (status rd))]>
         (<["last_run" := JStr (isoformat (start_time rd))]>
            (<["job_id" := JStr job_id]> (default ∅ (summary d))))) in
  _update_runs_from_run rd
    (_update_summary_from_run job_id now2 rd (set_summary s d)).

(** [store_backup_run]; [now1] and [now2] are the two clock readings. *)
Definition store_backup_run (job_id : string) (rd : run_data)
    (now1 now2 : string) (st : gmap string job_dir)
  : gmap string job_dir * outcome :=
  let d := the_dir job_id st in
  match run_duration rd with
  | None => (<[job_id := d]> st, Raised)
  | Some duration =>
      let d := set_run_file (run_id rd) (make_run_entry rd duration) d in
      let d := match log_lines rd with
               | [] => d
               | _ => set_run_log (run_id rd) (log_lines rd) d
               end in
      (<[job_id := _update_job_summary job_id now1 now2 rd d]> st, Returned)
  end.

(** The run list of a job, if [runs.json] exists. *)
Definition runs_of (job_id : string) (st : gmap string job_dir)
  : option (list run_entry) :=
  match st !! job_id with
  | Some d => runs d
  | None => None
  end.

(** ** Repository snapshots: [store_borg_info] and the borgmatic variants *)

(** A borgmatic payload: [Union[List[Dict[str, Any]], Dict[str, Any]]]. *)
Inductive borgmatic_data : Type :=
| BDict : list (string * json) -> borgmatic_data
| BList : list (list (string * json)) -> borgmatic_data.

(** [_extract_repository_info]. *)
Definition _extract_repository_info (data : list (string * json))
  : list (string * json) :=
  let copy k := match assoc_get k data with
                | Some v => [(k, v)]
                | None => []
                end in
  (copy "repository" ++ copy "cache" ++ copy "encryption" ++ copy "security_dir")%list.

(** [data.get('repository', {}).get(key, dflt)]; [None] is the
    [AttributeError] of a repository entry that is not an object. *)
Definition repository_get (key : string) (data : list (string * json))
  : option (option json) :=
  match default (JObj []) (assoc_get "repository" data) with
  | JObj r => Some (assoc_get key r)
  | _ => None
  end.

(** [archives.extend(v)]. *)
Definition py_extend (archives : list json) (v : json) : option (list json) :=
  match v with
  | JList l => Some (archives ++ l)%list
  | JObj kvs => Some (archives ++ map (fun kv => JStr (fst kv)) kvs)%list
  | JStr s =>
      Some (archives ++ map (fun c => JStr (String c EmptyString))
                            (list_ascii_of_string s))%list
  | _ => None
  end.

Section Snapshots.

Variable float_of_str : string -> option spec_float.

(** [_update_summary_from_borg_info]: an exception is logged and the
    summary file stays as it was. *)
Definition _update_summary_from_borg_info (job_id now : string)
    (repository_info : list (string * json)) (archive_list : json)
    (d : job_dir) : job_dir :=
  match summary_from_borg_info float_of_str job_id now repository_info
          archive_list (default ∅ (job_summary d)) with
  | Some s => set_job_summary s d
  | None => d
  end.

(** [store_borg_info]. *)
Definition store_borg_info (job_id now : string)
    (repository_info : list (string * json)) (archive_list : list json)
    (st : gmap string job_dir) : gmap string job_dir * outcome :=
  let d := the_dir job_id st in
  let d := set_repository_info (JObj repository_info) d in
  let d := set_archives (JList archive_list) d in
  (<[job_id := _update_summary_from_borg_info job_id now repository_info
                 (JList archive_list) d]> st, Returned).

(** The part of both borgmatic stores after the payload was taken apart:
    the two unified files and the summary.  The log line written after
    [archives.json] takes [len(archives)], and so does the last log line of
    [store_borgmatic_rinfo] ([final_count]); for a value without a length
    that is a [TypeError], which leaves the call with the files written so
    far. *)
Definition store_unified (job_id now : string) (with_fallback final_count : bool)
    (repository_info : list (string * json)) (archives repository_path : json)
    (d : job_dir) : job_dir * outcome :=
  let has_info := truthy (JObj repository_info) in
  let d := if has_info then set_repository_info (JObj repository_info) d else d in
  if truthy archives then
    let d := set_archives archives d in
    match py_len archives with
    | None => (d, Raised)
    | Some _ =>
        (if has_info then
           _update_summary_from_borg_info job_id now repository_info archives d
         else if with_fallback then
           _update_summary_from_borg_info job_id now
             [("repository", JObj [("location", repository_path)])] archives d
         else d,
         Returned)
    end
  else
    (d, if final_count
        then match py_len archives with
             | Some _ => Returned
             | None => Raised
             end
        else Returned).

(** The answer of a store whose body ended as [r]. *)
Definition finish_store (job_id : string) (st : gmap string job_dir)
    (r : job_dir * outcome) : gmap string job_dir * outcome :=
  (<[job_id := fst r]> st, snd r).

(** [store_borgmatic_info]. *)
Definition store_borgmatic_info (job_id now : string) (info_data : borgmatic_data)
    (st : gmap string job_dir) : gmap string job_dir * outcome :=
  let d := the_dir job_id st in
  let chosen :=
    match info_data with
    | BList (first_repo :: _) => Some first_repo
    | BList [] => None
    | BDict data => Some data
    end in
  match chosen with
  | None =>
      finish_store job_id st
        (store_unified job_id now true false [] (JList []) (JStr "") d)
  | Some repo =>
      match repository_get "location" repo with
      | None => (<[job_id := d]> st, Raised)
      | Some loc =>
          let archives := default (JList []) (assoc_get "archives" repo) in
          finish_store job_id st
            (store_unified job_id now true false
               (_extract_repository_info repo) archives
               (default (JStr "") loc) d)
      end
  end.

(** The [for repo_info in rinfo_data] loop of [store_borgmatic_rinfo]. *)
Fixpoint rinfo_loop (rinfo_data : list (list (string * json)))
    (repository_info : list (string * json)) (archives : list json)
    (repository_path : json)
  : option (list (string * json) * list json * json) :=
  match rinfo_data with
  | [] => Some (repository_info, archives, repository_path)
  | repo_info :: rest =>
      archives' ← match assoc_get "archives" repo_info with
                  | Some a => py_extend archives a
                  | None => Some archives
                  end;
      if negb (truthy (JObj repository_info)) && truthy (JObj repo_info) then
        loc ← repository_get "location" repo_info;
        rinfo_loop rest (_extract_repository_info repo_info) archives'
          (default (JStr "") loc)
      else rinfo_loop rest repository_info archives' repository_path
  end.

(** [store_borgmatic_rinfo]. *)
Definition store_borgmatic_rinfo (job_id now : string) (rinfo_data : borgmatic_data)
    (st : gmap string job_dir) : gmap string job_dir * outcome :=
  let d := the_dir job_id st in
  let parts :=
    match rinfo_data with
    | BList l =>
        match rinfo_loop l [] [] (JStr "") with
        | Some (ri, ar, p) => Some (ri, JList ar, p)
        | None => None
        end
    | BDict data =>
        match repository_get "location" data with
        | Some loc =>
            Some (_extract_repository_info data,
                  default (JList []) (assoc_get "archives" data),
                  default (JStr "") loc)
        | None => None
        end
    end in
  match parts with
  | Some (ri, ar, p) =>
      finish_store job_id st (store_unified job_id now false true ri ar p d)
  | None => (<[job_id := d]> st, Raised)
  end.

End Snapshots.

(** ** [filter_borgmatic_data] *)

(** [repo_data.get('repository', {}).get('label') == repository_label];
    [None] is the [AttributeError]. *)
Definition label_matches (repository_label : string)
    (repo_data : list (string * json)) : option bool :=
  match repository_get "label" repo_data with
  | Some (Some (JStr l)) => Some (String.eqb l repository_label)
  | Some _ => Some false
  | None => None
  end.

(** The [for repo_data in data] loop over a list of repositories:
    [Some (Some r)] is [return repo_data], [Some None] the end of the
    loop, [None] an exception. *)
Fixpoint find_label (repository_label : string)
    (data : list (list (string * json)))
  : option (option (list (string * json))) :=
  match data with
  | [] => Some None
  | repo_data :: rest =>
      match label_matches repository_label repo_data with
      | None => None
      | Some true => Some (Some repo_data)
      | Some false => find_label repository_label rest
      end
  end.

(** The same loop over [data['repositories']], whose elements need not be
    objects. *)
Fixpoint find_label_nested (repository_label : string) (l : list json)
  : option (option (list (string * json))) :=
  match l with
  | [] => Some None
  | JObj repo_data :: rest =>
      match label_matches repository_label repo_data with
      | None => None
      | Some true => Some (Some repo_data)
      | Some false => find_label_nested repository_label rest
      end
  | _ :: rest => find_label_nested repository_label rest
  end.

Definition first_or_empty (data : list (list (string * json)))
  : list (string * json) :=
  match data with
  | first :: _ => first
  | [] => []
  end.

Definition filter_borgmatic_data (data : borgmatic_data)
    (repository_label : string) : list (string * json) :=
  if String.eqb repository_label "" then
    match data with
    | BList l => first_or_empty l
    | BDict d => d
    end
  else
    match data with
    | BList l =>
        match find_label repository_label l with
        | Some (Some repo_data) => repo_data
        | Some None => first_or_empty l
        | None => []
        end
    | BDict d =>
        match repository_get "label" d with
        | None => d
        | Some repo_label =>
            let same := match repo_label with
                        | Some (JStr l) => String.eqb l repository_label
                        | _ => false
                        end in
            if same || negb (truthy (default JNull repo_label)) then d
            else
              match assoc_get "repositories" d with
              | Some (JList l) =>
                  match find_label_nested repository_label l with
                  | Some (Some repo_data) => repo_data
                  | _ => d
                  end
              | _ => d
              end
        end
    end.

(** ** The borgmatic push routes *)

(** What a route answers: the success body or an [HTTPException]. *)
Inductive response : Type :=
| Success200 : string -> response
| HttpError : Z -> string -> response.

Section BorgmaticRoutes.

Variable float_of_str : string -> option spec_float.

(** The body of the [try] of [push_borgmatic_info] and
    [push_borgmatic_rinfo] up to the call of the store: the payload handed
    to the store, or the [HTTPException] raised before it. *)
Definition select_repository (data : borgmatic_data)
    (repository_label : option string) : borgmatic_data + response :=
  let has_label := negb (String.eqb (default "" repository_label) "") in
  match data with
  | BDict _ => inl data
  | BList l =>
      if (1 <? Z.of_nat (List.length l)) && negb has_label then
        inr (HttpError 400
          "Multiple repositories found in borgmatic data. Please specify repository_label to select which one to use.")
      else if has_label then
        let filtered_data :=
          filter_borgmatic_data data (default "" repository_label) in
        if truthy (JObj filtered_data) then inl (BDict filtered_data)
        else inr (HttpError 400
               ("Repository with label '" ++ default "" repository_label
                  ++ "' not found in borgmatic data")%string)
      else inl (BDict (first_or_empty l))
  end.

(** [push_borgmatic_info] for a caller whose token was accepted.  The
    [except Exception] clause of the route also catches the
    [HTTPException]s raised inside its [try]. *)
Definition push_borgmatic_info (job_id now : string) (info_data : borgmatic_data)
    (repository_label : option string) (st : gmap string job_dir)
  : gmap string job_dir * response :=
  let failed := HttpError 500 "Failed to store Borgmatic info" in
  match select_repository info_data repository_label with
  | inr _ => (st, failed)
  | inl filtered_data =>
      match store_borgmatic_info float_of_str job_id now filtered_data st with
      | (st', Returned) =>
          (st', Success200 "Borgmatic repository info stored successfully")
      | (st', Raised) => (st', failed)
      end
  end.

(** [push_borgmatic_rinfo], likewise. *)
Definition push_borgmatic_rinfo (job_id now : string) (rinfo_data : borgmatic_data)
    (repository_label : option string) (st : gmap string job_dir)
  : gmap string job_dir * response :=
  let failed := HttpError 500 "Failed to store Borgmatic rinfo" in
  match select_repository rinfo_data repository_label with
  | inr _ => (st, failed)
  | inl filtered_data =>
      match store_borgmatic_rinfo float_of_str job_id now filtered_data st with
      | (st', Returned) =>
          (st', Success200 "Borgmatic repository and archive info stored successfully")
      | (st', Raised) => (st', failed)
      end
  end.

End BorgmaticRoutes.

(** ** [store_event] *)

(** [_update_summary_from_event]. *)
Definition _update_summary_from_event (job_id event_type timestamp now : string)
    (extra : option (list (string * json))) (d : job_dir) : job_dir :=
  set_job_summary
    (summary_from_event job_id event_type timestamp now extra
       (default ∅ (job_summary d))) d.

(** [store_event]: [timestamp] is [now.isoformat()] of the event, [suffix]
    the eight hexadecimal digits of the fresh UUID and [now'] the clock
    reading of the summary update.  Returns the event id. *)
Definition store_event (job_id event_type message : string)
    (info : option string) (extra : option (list (string * json)))
    (timestamp suffix now' : string) (st : gmap string job_dir)
  : gmap string job_dir * string :=
  let d := the_dir job_id st in
  let event_id := (timestamp ++ "_" ++ suffix)%string in
  let ev := {| ev_id := event_id; ev_type := event_type;
               ev_timestamp := timestamp; ev_message := message;
               ev_has_info := match info with Some _ => true | None => false end;
               ev_extra := match extra with
                           | Some kvs => if truthy (JObj kvs) then kvs else []
                           | None => []
                           end |} in
  let d := set_event event_id ev d in
  let d := match info with
           | Some i => if String.eqb i "" then d else set_event_info event_id i d
           | None => d
           end in
  (<[job_id := _update_summary_from_event job_id event_type timestamp now' extra d]> st,
   event_id).

(** ** The read side: runs and archives *)

(** [get_job_runs] of the storage: the entries of [runs.json], newest
    timestamp first, cut to [limit]; an empty list when the file does not
    exist.  The entries stand for the [BackupRun] models built from them
    (the timestamps are the strings that [isoformat] wrote). *)
Definition get_job_runs (job_id : string) (limit : nat)
    (st : gmap string job_dir) : list run_entry :=
  match runs_of job_id st with
  | None => []
  | Some runs_list => firstn limit (sort_desc runs_list)
  end.

(** The route [GET /api/jobs/{job_id}/runs]: the list is returned unless
    the storage answered [None], which it never does. *)
Definition route_get_job_runs (job_id : string) (limit : nat)
    (st : gmap string job_dir) : list run_entry + response :=
  inl (get_job_runs job_id limit st).

(** ** [ConfigValidator]: patterns and the schedule parser *)

Definition is_digit (c : ascii) : bool :=
  let n := N_of_ascii c in (48 <=? n)%N && (n <=? 57)%N.

Definition is_upper (c : ascii) : bool :=
  let n := N_of_ascii c in (65 <=? n)%N && (n <=? 90)%N.

Definition is_lower (c : ascii) : bool :=
  let n := N_of_ascii c in (97 <=? n)%N && (n <=? 122)%N.

(** The class [[a-zA-Z0-9_-]]. *)
Definition is_job_id_char (c : ascii) : bool :=
  is_lower c || is_upper c || is_digit c
  || Ascii.eqb c "_" || Ascii.eqb c "-".

Definition newline : string := String (ascii_of_N 10) EmptyString.

(** Where [$] matches without [re.MULTILINE]: at the end of the string
    and just before a newline that ends it. *)
Definition at_dollar (rest : string) : bool :=
  String.eqb rest "" || String.eqb rest newline.

(** [JOB_ID_PATTERN.match], for [^[a-zA-Z0-9_-]+$]. *)
Fixpoint job_id_tail (s : string) : bool :=
  match s with
  | EmptyString => true
  | String c rest =>
      if is_job_id_char c then job_id_tail rest else at_dollar s
  end.

Definition job_id_pattern_match (s : string) : bool :=
  match s with
  | String c rest => is_job_id_char c && job_id_tail rest
  | EmptyString => false
  end.

(** [validate_job_id]. *)
Definition validate_job_id (job_id : string) : bool :=
  if String.eqb job_id "" then false else job_id_pattern_match job_id.

(** The longest prefix of digits and what follows it: the only way the
    greedy [\d+] can be followed by a character of [[mhd]]. *)
Fixpoint span_digits (s : string) : string * string :=
  match s with
  | String c rest =>
      if is_digit c then
        let (ds, tl) := span_digits rest in (String c ds, tl)
      else (EmptyString, s)
  | EmptyString => (EmptyString, EmptyString)
  end.

Definition is_unit (c : ascii) : bool :=
  Ascii.eqb c "m" || Ascii.eqb c "h" || Ascii.eqb c "d".

(** [MAX_AGE_PATTERN.match(max_age)] for [^(\d+)([mhd])$], with its two
    groups. *)
Definition max_age_pattern_match (max_age : string) : option (string * ascii) :=
  match span_digits max_age with
  | (EmptyString, _) => None
  | (value, String unit rest) =>
      if is_unit unit && at_dollar rest then Some (value, unit) else None
  | (_, EmptyString) => None
  end.

(** The number that a string of decimal digits writes. *)
Fixpoint int_of_digits (acc : Z) (s : string) : Z :=
  match s with
  | EmptyString => acc
  | String c rest =>
      int_of_digits (10 * acc + (Z.of_N (N_of_ascii c) - 48)) rest
  end.

(** [sys.int_max_str_digits], at its default. *)
Definition int_max_str_digits : nat := 4300.

(** [int(value)] on a string of decimal digits; [None] is the
    [ValueError] for a string of more than [int_max_str_digits] digits,
    leading zeros counted. *)
Definition py_int (value : string) : option Z :=
  if (int_max_str_digits <? String.length value)%nat then None
  else Some (int_of_digits 0 value).

(** [validate_max_age]. *)
Definition validate_max_age (max_age : string) : bool :=
  if String.eqb max_age "" then false
  else match max_age_pattern_match max_age with
       | Some _ => true
       | None => false
       end.

(** [parse_max_age_to_seconds]; [None] is the [ValueError]. *)
Definition parse_max_age_to_seconds (max_age : string) : option Z :=
  match max_age_pattern_match max_age with
  | None => None
  | Some (value, unit) =>
      match py_int value with
      | None => None
      | Some value =>
          if Ascii.eqb unit "m" then Some (value * 60)
          else if Ascii.eqb unit "h" then Some (value * 3600)
          else if Ascii.eqb unit "d" then Some (value * 86400)
          else None
      end
  end.

(** [validate_backup_type]. *)
Definition validate_backup_type (backup_type : string) : bool :=
  String.eqb backup_type "borg" || String.eqb backup_type "borgmatic".

(** ** Job configuration files *)

(** The keys of a job's TOML file that the service reads, each with the
    type the service expects; [None] is an absent key.  The [description]
    is the value as the file has it: nothing reads it before
    [get_job_details] hands it to the [Job] model. *)
Record job_config : Type := {
  job_id : option string;
  backup_type : option string;
  max_age : option string;
  api_keys : option (list string);
  display_name : option string;
  tags : option (list string);
  description : option json
}.

(** What [toml.load] makes of a file: a configuration, or an exception
    with its [str(e)]. *)
Inductive toml_file : Type :=
| Parsed : job_config -> toml_file
| Unparsable : string -> toml_file.

Definition to_upper (c : ascii) : ascii :=
  if is_lower c then ascii_of_N (N_of_ascii c - 32) else c.

Definition to_lower (c : ascii) : ascii :=
  if is_upper c then ascii_of_N (N_of_ascii c + 32) else c.

(** [s.replace(a, b)] for single characters. *)
Fixpoint replace_char (a b : ascii) (s : string) : string :=
  match s with
  | EmptyString => EmptyString
  | String c rest =>
      String (if Ascii.eqb c a then b else c) (replace_char a b rest)
  end.

(** [s.title()]. *)
Fixpoint title_from (previous_is_cased : bool) (s : string) : string :=
  match s with
  | EmptyString => EmptyString
  | String c rest =>
      if is_lower c || is_upper c then
        String (if previous_is_cased then to_lower c else to_upper c)
               (title_from true rest)
      else String c (title_from false rest)
  end.

Definition title (s : string) : string := title_from false s.

Section Validation.

(** The keys that [generate_api_key] draws, in the order of the draws. *)
Variable fresh_key : nat -> string.

(** The loop over the existing [api_keys]: the list of keys, whether one
    was replaced, and the number of draws made so far. *)
Fixpoint fix_keys (keys : list string) (n : nat) : list string * bool * nat :=
  match keys with
  | [] => ([], false, n)
  | key :: rest =>
      if (16 <=? Z.of_nat (String.length key)) then
        let '(ks, m, n') := fix_keys rest n in (key :: ks, m, n')
      else
        let '(ks, _, n') := fix_keys rest (S n) in (fresh_key n :: ks, true, n')
  end.

(** [validate_and_fix_job_config] up to the write-back: the error
    message of the [ConfigValidationError], or the fixed configuration,
    [modified] and the number of draws. *)
Definition validate_and_fix_job_config (config_data : job_config) (n : nat)
  : string + (job_config * bool * nat) :=
  let id := default "" (job_id config_data) in
  if negb (validate_job_id id) then
    inl ("Invalid job_id '" ++ id ++ "'. Must contain only a-zA-Z, 0-9, _, -")%string
  else
    let '(bt, m1) :=
      if validate_backup_type (default "borgmatic" (backup_type config_data))
      then (backup_type config_data, false)
      else (Some "borgmatic", true) in
    let '(ma, m2) :=
      if validate_max_age (default "24h" (max_age config_data))
      then (max_age config_data, false)
      else (Some "24h", true) in
    let '(ks, m3, n') :=
      match default [] (api_keys config_data) with
      | [] => ([fresh_key n], true, S n)
      | keys => fix_keys keys n
      end in
    let '(dn, m4) :=
      match display_name config_data with
      | Some d => (Some d, false)
      | None => (Some (title (replace_char "_" " " (replace_char "-" " " id))), true)
      end in
    let '(tg, m5) :=
      match tags config_data with
      | Some t => (Some t, false)
      | None => (Some [], true)
      end in
    inr ({| job_id := job_id config_data; backup_type := bt; max_age := ma;
            api_keys := Some ks; display_name := dn; tags := tg;
            description := description config_data |},
         m1 || m2 || m3 || m4 || m5, n').

(** The state of the loop of [validate_all_configs]. *)
Record batch : Type := {
  valid_configs : list (string * job_config);
  seen_job_ids : gset string;
  errors : list string;
  files_done : list (string * toml_file);
  draws : nat
}.

(** One iteration: the file [name] with what [toml.load] gave for it. *)
Definition validate_file (b : batch) (file : string * toml_file) : batch :=
  let '(name, content) := file in
  let fail (msg : string) (kept : toml_file) (n : nat) : batch :=
    {| valid_configs := valid_configs b; seen_job_ids := seen_job_ids b;
       errors := errors b ++ [msg];
       files_done := files_done b ++ [(name, kept)]; draws := n |} in
  match content with
  | Unparsable msg =>
      fail ("Error in " ++ name ++ ": " ++ msg)%string content (draws b)
  | Parsed config_data =>
      match validate_and_fix_job_config config_data (draws b) with
      | inl msg =>
          fail ("Error in " ++ name ++ ": " ++ msg)%string content (draws b)
      | inr (fixed_config, was_modified, n') =>
          let written := if was_modified then Parsed fixed_config else content in
          let id := default "" (job_id fixed_config) in
          if decide (id ∈ seen_job_ids b) then
            fail ("Duplicate job_id '" ++ id ++ "' found in " ++ name)%string
                 written n'
          else
            {| valid_configs := valid_configs b ++ [(id, fixed_config)];
               seen_job_ids := {[ id ]} ∪ seen_job_ids b;
               errors := errors b;
               files_done := files_done b ++ [(name, written)];
               draws := n' |}
      end
  end.

(** ["\n".join(errors)]. *)
Fixpoint join_lines (l : list string) : string :=
  match l with
  | [] => ""
  | [e] => e
  | e :: rest => (e ++ newline ++ join_lines rest)%string
  end.

(** [validate_all_configs] on a configuration directory, [None] when it
    does not exist, otherwise its [*.toml] files in the order of the
    [glob].  Returns the directory afterwards, the number of draws, and the
    valid configurations or the message of the [ConfigValidationError]. *)
Definition validate_all_configs (config_dir : option (list (string * toml_file)))
    (n : nat)
  : list (string * toml_file) * nat * (list (string * job_config) + string) :=
  match config_dir with
  | None => ([], n, inl [])
  | Some files =>
      let b := fold_left validate_file files
                 {| valid_configs := []; seen_job_ids := ∅; errors := [];
                    files_done := []; draws := n |} in
      (files_done b, draws b,
       match errors b with
       | [] => inl (valid_configs b)
       | errs =>
           inr ("Configuration validation failed:" ++ newline
                  ++ join_lines errs)%string
       end)
  end.

(** [get_all_job_configs] of [config.py]: a failed batch is printed and
    answered with the empty dictionary. *)
Definition get_all_job_configs (config_dir : option (list (string * toml_file)))
    (n : nat) : list (string * toml_file) * nat * list (string * job_config) :=
  let '(dir, n', r) := validate_all_configs config_dir n in
  (dir, n', match r with
            | inl configs => configs
            | inr _ => []
            end).

End Validation.

(** ** The query layer *)

(** [JobStats]. *)
Record job_stats : Type := {
  archiveCount : Z;
  fullSize : string;
  compressedSize : string;
  deduplicatedSize : string;
  compressionRatio : string
}.

(** [JobSummary], and the fields that [Job] adds to it. *)
Record job_summary_model : Type := {
  jobId : string;
  name : string;
  job_status : string;
  scheduleStatus : string;
  lastBackup : option datetime;
  lastBackupRelative : option string;
  lastSuccessfulBackup : option datetime;
  lastSuccessfulBackupRelative : option string;
  job_tags : list string;
  stats : job_stats
}.

Record job_model : Type := {
  job_base : job_summary_model;
  job_description : option string;
  backupType : string;
  maxAge : string;
  config : job_config
}.

(** [s.replace('Z', '+00:00')]. *)
Fixpoint replace_Z (s : string) : string :=
  match s with
  | EmptyString => EmptyString
  | String c rest =>
      if Ascii.eqb c "Z" then ("+00:00" ++ replace_Z rest)%string
      else String c (replace_Z rest)
  end.

(** [a or b] on optional JSON values ([None] is Python's [None]). *)
Definition py_or (a b : option json) : option json :=
  match a with
  | Some v => if truthy v then a else b
  | None => b
  end.

(** A string field of a model: the value when it is a [str], a
    validation error otherwise. *)
Definition as_str (v : json) : option string :=
  match v with
  | JStr s => Some s
  | _ => None
  end.

(** An [int] field of a model: an [int] as it is; for another value,
    what the lax mode of pydantic makes of it ([coerce_int]: it converts a
    bool, a float without fraction and a string that writes an integer),
    [None] being the validation error. *)
Definition as_int (coerce_int : json -> option Z) (v : json) : option Z :=
  match v with
  | JInt z => Some z
  | _ => coerce_int v
  end.

(** An [Optional[str]] field of a model: [None] or a [str]; any other
    value is a validation error. *)
Definition as_optional_str (v : option json) : option (option string) :=
  match v with
  | None | Some JNull => Some None
  | Some (JStr s) => Some (Some s)
  | Some _ => None
  end.

(** [sorted(jobs, key=lambda x: x.name)]: stable, smallest name first. *)
Fixpoint insert_by_name (x : job_summary_model) (l : list job_summary_model)
  : list job_summary_model :=
  match l with
  | [] => [x]
  | y :: rest =>
      if String.ltb (name y) (name x) then y :: insert_by_name x rest
      else x :: l
  end.

Fixpoint sort_by_name (l : list job_summary_model) : list job_summary_model :=
  match l with
  | [] => []
  | x :: rest => insert_by_name x (sort_by_name rest)
  end.

Section Query.

(** [datetime.fromisoformat]; [None] is its [ValueError]. *)
Variable fromisoformat : string -> option datetime.
(** The reading of [datetime.now()] during the query: a naive datetime,
    [dt_us] counted from [datetime.min]. *)
Variable now : datetime.
(** [_calculate_relative_time] on a timestamp, at that reading. *)
Variable relative_time : datetime -> string.
(** The conversion of a value that is not an [int] for an [int] field. *)
Variable coerce_int : json -> option Z.
Variable fresh_key : nat -> string.

(** [is_backup_overdue]: the [ValueError] of the parser and the
    [TypeError] of comparing an aware datetime with the naive cutoff are
    caught and give [False]; [None] is the [OverflowError] of a cutoff
    before [datetime.min], which the [except] clause does not name. *)
Definition is_backup_overdue (last_backup : datetime) (max_age : string)
  : option bool :=
  match parse_max_age_to_seconds max_age with
  | None => Some false
  | Some max_age_seconds =>
      if max_age_seconds * 1000000 <=? dt_us now then
        if dt_aware last_backup then Some false
        else Some (dt_us last_backup <? dt_us now - max_age_seconds * 1000000)
      else None
  end.

(** [_calculate_schedule_status]; [None] is an exception that leaves it. *)
Definition _calculate_schedule_status (last_backup_str : option json)
    (max_age : string) : option string :=
  match last_backup_str with
  | None => Some "unknown"
  | Some v =>
      if negb (truthy v) then Some "unknown"
      else
        match v with
        | JStr s =>
            match fromisoformat (replace_Z s) with
            | None => Some "unknown"
            | Some last_backup =>
                match is_backup_overdue last_backup max_age with
                | Some true => Some "overdue"
                | Some false => Some "on-time"
                | None => None
                end
            end
        | _ => None
        end
  end.

(** The loop of [_get_latest_archive_date]; the outer [None] is an
    exception that reaches the outer [except]. *)
Fixpoint latest_loop (l : list json) (latest_date : option datetime)
  : option (option datetime) :=
  match l with
  | [] => Some latest_date
  | JObj archive :: rest =>
      match py_or (assoc_get "start" archive) (assoc_get "time" archive) with
      | None => latest_loop rest latest_date
      | Some v =>
          if negb (truthy v) then latest_loop rest latest_date
          else
            match v with
            | JStr s =>
                match fromisoformat (replace_Z s), latest_date with
                | None, _ => latest_loop rest latest_date
                | Some d, None => latest_loop rest (Some d)
                | Some d, Some cur =>
                    if Bool.eqb (dt_aware d) (dt_aware cur)
                    then latest_loop rest
                           (if dt_us cur <? dt_us d then Some d else Some cur)
                    else latest_loop rest latest_date
                end
            | _ => None
            end
      end
  | _ :: _ => None
  end.

(** [_get_latest_archive_date] on the content of [archives.json]. *)
Definition _get_latest_archive_date (archives_file : option json)
  : option string :=
  match archives_file with
  | Some (JList l) =>
      match latest_loop l None with
      | Some (Some d) => Some (isoformat d)
      | _ => None
      end
  | _ => None
  end.

(** The timestamp of a model field read from the cache without the
    [replace]: [Some None] for a falsy entry, [None] for an exception. *)
Definition cached_datetime (v : option json) : option (option datetime) :=
  match v with
  | None => Some None
  | Some x =>
      if negb (truthy x) then Some None
      else match x with
           | JStr s => option_map Some (fromisoformat s)
           | _ => None
           end
  end.

(** The body of the [try] of [get_all_jobs] for one configured job, also
    the summary part of [get_job_details]; [None] is an exception. *)
Definition load_job (id : string) (cfg : job_config) (d : option job_dir)
  : option job_summary_model :=
  let cache_data : gmap string json :=
    default ∅ (match d with Some x => job_summary x | None => None end) in
  let max_age_ := default "24h" (max_age cfg) in
  let latest_archive_date :=
    _get_latest_archive_date (match d with Some x => archives x | None => None end) in
  let backup_time_for_schedule :=
    py_or (py_or (option_map JStr latest_archive_date)
                 (cache_data !! "last_successful_backup"))
          (cache_data !! "last_backup") in
  schedule_status ← _calculate_schedule_status backup_time_for_schedule max_age_;
  last_backup ←
    match latest_archive_date with
    | Some s =>
        if negb (String.eqb s "") then option_map Some (fromisoformat (replace_Z s))
        else cached_datetime (cache_data !! "last_backup")
    | None => cached_datetime (cache_data !! "last_backup")
    end;
  last_successful_backup ←
    cached_datetime (cache_data !! "last_successful_backup");
  st ← as_str (default (JStr "no-data") (cache_data !! "status"));
  ac ← as_int coerce_int (default (JInt 0) (cache_data !! "archive_count"));
  fs ← as_str (default (JStr "0 B") (cache_data !! "full_size"));
  cs ← as_str (default (JStr "0 B") (cache_data !! "compressed_size"));
  ds ← as_str (default (JStr "0 B") (cache_data !! "deduplicated_size"));
  cr ← as_str (default (JStr "0%") (cache_data !! "compression_ratio"));
  Some {| jobId := id;
          name := default id (display_name cfg);
          job_status := st;
          scheduleStatus := schedule_status;
          lastBackup := last_backup;
          lastBackupRelative := option_map relative_time last_backup;
          lastSuccessfulBackup := last_successful_backup;
          lastSuccessfulBackupRelative :=
            option_map relative_time last_successful_backup;
          job_tags := default [] (tags cfg);
          stats := {| archiveCount := ac; fullSize := fs; compressedSize := cs;
                      deduplicatedSize := ds; compressionRatio := cr |} |}.

(** The [for job_id, config in job_configs.items()] loop of
    [get_all_jobs]: a job whose body raised is logged and left out. *)
Fixpoint load_jobs (job_configs : list (string * job_config))
    (st : gmap string job_dir) : list job_summary_model :=
  match job_configs with
  | [] => []
  | (id, cfg) :: rest =>
      match load_job id cfg (st !! id) with
      | Some j => j :: load_jobs rest st
      | None => load_jobs rest st
      end
  end.

(** [get_all_jobs]: the configuration directory afterwards, the number of
    key draws, and the list of jobs. *)
Definition get_all_jobs (config_dir : option (list (string * toml_file)))
    (n : nat) (st : gmap string job_dir)
  : list (string * toml_file) * nat * list job_summary_model :=
  let '(dir, n', job_configs) := get_all_job_configs fresh_key config_dir n in
  (dir, n', sort_by_name (load_jobs job_configs st)).

(** [job_configs.get(job_id)]. *)
Fixpoint configs_get (id : string) (job_configs : list (string * job_config))
  : option job_config :=
  match job_configs with
  | [] => None
  | (k, c) :: rest => if String.eqb k id then Some c else configs_get id rest
  end.

(** [get_job_details]: the [Job] model validates, besides the fields of
    the summary, the [description] of the configuration; an exception
    gives [None]. *)
Definition get_job_details (config_dir : option (list (string * toml_file)))
    (n : nat) (id : string) (st : gmap string job_dir)
  : list (string * toml_file) * nat * option job_model :=
  let '(dir, n', job_configs) := get_all_job_configs fresh_key config_dir n in
  (dir, n',
   match configs_get id job_configs with
   | None => None
   | Some cfg =>
       match load_job id cfg (st !! id), as_optional_str (description cfg) with
       | Some base, Some text =>
           Some {| job_base := base;
                   job_description := text;
                   backupType := default "borgmatic" (backup_type cfg);
                   maxAge := default "24h" (max_age cfg);
                   config := cfg |}
       | _, _ => None
       end
   end).

End Query.

Section Archives.

(** The page dictionary of [get_job_archives], and its construction from
    an existing [archives.json] (the sort, the slice and the [Archive]
    models); [None] is an exception on the way. *)
Variable page : Type.
Variable build_page : json -> Z -> Z -> string -> string -> option page.

(** [get_job_archives] of the storage. *)
Definition get_job_archives (id : string) (offset limit : Z)
    (sort_by sort_order : string) (st : gmap string job_dir) : option page :=
  match st !! id with
  | Some d =>
      match archives d with
      | Some archives_data => build_page archives_data offset limit sort_by sort_order
      | None => None
      end
  | None => None
  end.

(** The route [GET /api/jobs/{job_id}/archives]: the 404 that it raises
    for an empty result is raised inside its own [try] and leaves it
    through [except Exception]. *)
Definition route_get_job_archives (id : string) (offset limit : Z)
    (sort_by sort_order : string) (st : gmap string job_dir) : page + response :=
  match get_job_archives id offset limit sort_by sort_order st with
  | Some result => inl result
  | None => inr (HttpError 500 "Internal server error")
  end.

End Archives.

(** ** Predicates and concrete inputs of the properties *)

(** The archive-derived fields of the summary, each with the default of
    the [setdefault] block of the run and event updates. *)
Definition archive_field_default (k : string) : option json :=
  if String.eqb k "archive_count" then Some (JInt 0)
  else if String.eqb k "full_size" then Some (JStr "0 B")
  else if String.eqb k "compressed_size" then Some (JStr "0 B")
  else if String.eqb k "deduplicated_size" then Some (JStr "0 B")
  else if String.eqb k "compression_ratio" then Some (JStr "0%")
  else None.

(** The run-derived fields of the summary. *)
Definition run_field (k : string) : Prop :=
  k = "status" \/ k = "last_backup" \/ k = "last_successful_backup".

(** A [float(str)] that raises on every string; the concrete inputs below
    hold no string where a number is read. *)
Definition no_float_of_str (s : string) : option spec_float := None.

(** A repository with 100 bytes of data that compress to nothing. *)
Definition stats_100_0 : list (string * json) :=
  [("cache", JObj [("stats", JObj [("total_size", JInt 100);
                                   ("total_csize", JInt 0);
                                   ("unique_size", JInt 0)])])].

(** A repository with 1000 bytes that compress to 250. *)
Definition stats_1000_250 : list (string * json) :=
  [("cache", JObj [("stats", JObj [("total_size", JInt 1000);
                                   ("total_csize", JInt 250);
                                   ("unique_size", JInt 100)])]);
   ("repository", JObj [("location", JStr "/srv/repo")])].

(** The defaults that a snapshot update applies last. *)
Definition snapshot_default (k : string) : option json :=
  if String.eqb k "backup_type" then Some (JStr "borgmatic")
  else if String.eqb k "status" then Some (JStr "unknown")
  else if String.eqb k "schedule_status" then Some (JStr "unknown")
  else None.

(** A successful run of ninety seconds. *)
Definition run_a : run_data :=
  {| run_id := "run-a"; status := Success;
     start_time := {| dt_us := 63839664000000000; dt_aware := false;
                      isoformat := "2024-01-01T00:00:00" |};
     end_time := Some {| dt_us := 63839664090000000; dt_aware := false;
                         isoformat := "2024-01-01T00:01:30" |};
     exit_code := Some 0; log_lines := ["done"]; error_message := None |}.

(** [x] may stand before [y] in [runs.json]: the list is sorted on the
    timestamp strings, greatest first. *)
Definition not_older (x y : run_entry) : Prop :=
  String.leb (re_timestamp y) (re_timestamp x) = true.

(** The invariant of [runs.json]. *)
Definition runs_invariant (l : list run_entry) : Prop :=
  NoDup (map re_id l)
  /\ StronglySorted not_older l
  /\ (List.length l <= max_runs)%nat.

(** The entry that a stored run leaves in the list. *)
Definition entry_of (rd : run_data) : run_entry :=
  make_run_entry rd (default None (run_duration rd)).

(** A sequence of [store_backup_run] calls for one job, each with its two
    clock readings. *)
Definition store_runs (id : string) (calls : list (run_data * (string * string)))
    (st : gmap string job_dir) : gmap string job_dir :=
  fold_left (fun st c => fst (store_backup_run id (fst c) (fst (snd c))
                                (snd (snd c)) st))
            calls st.

(** A push with one repository, labelled ["local"]. *)
Definition repo_local : list (string * json) :=
  [("repository", JObj [("label", JStr "local");
                        ("location", JStr "/srv/local")]);
   ("archives", JList [JObj [("name", JStr "a1")]])].

(** The header of the [ConfigValidationError] of a failed batch. *)
Definition failed_header : string :=
  ("Configuration validation failed:" ++ newline)%string.


(** A configuration with the job id ["db"] and nothing else. *)
Definition config_db : job_config :=
  {| job_id := Some "db"; backup_type := None; max_age := None;
     api_keys := None; display_name := None; tags := None;
     description := None |}.

(** A key generator that draws the same 32 characters every time. *)
Definition constant_key (n : nat) : string := "0123456789abcdef0123456789abcdef".

(** A string of decimal digits. *)
Fixpoint all_digits (s : string) : bool :=
  match s with
  | EmptyString => true
  | String c rest => is_digit c && all_digits rest
  end.

(** The number of seconds of a unit. *)
Definition unit_seconds (u : ascii) : Z :=
  if Ascii.eqb u "m" then 60
  else if Ascii.eqb u "h" then 3600
  else 86400.

(** The statistics shown for a job without data. *)
Definition placeholder_stats : job_stats :=
  {| archiveCount := 0; fullSize := "0 B"; compressedSize := "0 B";
     deduplicatedSize := "0 B"; compressionRatio := "0%" |}.

(** The data directory after one snapshot push whose summary update
    raised (the [cache] entry is a string): [archives.json] is there and
    [job_summary.json] is not. *)
Definition archives_only : gmap string job_dir :=
  fst (store_borg_info no_float_of_str "job" "2024-01-01T00:05:00"
         [("cache", JStr "none")]
         [JObj [("name", JStr "a1"); ("start", JStr "2024-01-01T00:00:00")]]
         ∅).

(** [fromisoformat] at the timestamp of that archive, in microseconds
    from [datetime.min]. *)
Definition read_2024 (s : string) : option datetime :=
  if String.eqb s "2024-01-01T00:00:00"
  then Some {| dt_us := 63839664000000000; dt_aware := false;
               isoformat := "2024-01-01T00:00:00" |}
  else None.

(** The clock on 2026-11-04 at noon. *)
Definition noon_2026_11_04 : datetime :=
  {| dt_us := 63929390400000000; dt_aware := false;
     isoformat := "2026-11-04T12:00:00" |}.

(** A relative-time text that is always empty. *)
Definition no_relative_time (d : datetime) : string := "".

(** A conversion to [int] that refuses every value; the summaries of the
    examples hold [int]s where an [int] is read. *)
Definition no_int_coercion (v : json) : option Z := None.

(** A complete configuration of the job, with the given [max_age]. *)
Definition config_job (age : string) : job_config :=
  {| job_id := Some "job"; backup_type := Some "borg"; max_age := Some age;
     api_keys := Some ["0123456789abcdef0123456789abcdef"];
     display_name := Some "Job"; tags := Some []; description := None |}.

(** ** Predicates of the configuration properties *)

(** A string of characters of the class [[a-zA-Z0-9_-]]. *)
Fixpoint all_job_id_chars (s : string) : bool :=
  match s with
  | EmptyString => true
  | String c rest => is_job_id_char c && all_job_id_chars rest
  end.

(** What a configuration looks like after [validate_and_fix_job_config]:
    a valid job id, a valid backup type and max age where the key is
    there, at least one API key and none shorter than 16 characters, a
    display name and a tag list. *)
Definition well_formed_config (c : job_config) : Prop :=
  validate_job_id (default "" (job_id c)) = true
  /\ validate_backup_type (default "borgmatic" (backup_type c)) = true
  /\ validate_max_age (default "24h" (max_age c)) = true
  /\ (exists k ks, api_keys c = Some (k :: ks)
                   /\ Forall (fun key => 16 <= Z.of_nat (String.length key))
                             (k :: ks))
  /\ is_Some (display_name c)
  /\ is_Some (tags c).

(** The error line that a file gives whatever was read before it: the
    exception of [toml.load], or the invalid job id. *)
Definition file_error (file : string * toml_file) : option string :=
  match snd file with
  | Unparsable msg => Some ("Error in " ++ fst file ++ ": " ++ msg)%string
  | Parsed c =>
      let id := default "" (job_id c) in
      if validate_job_id id then None
      else Some ("Error in " ++ fst file ++ ": " ++ "Invalid job_id '" ++ id
                   ++ "'. Must contain only a-zA-Z, 0-9, _, -")%string
  end.

(** What holds of the loop state of [validate_all_configs] at every
    iteration. *)
Definition batch_invariant (b : batch) : Prop :=
  NoDup (map fst (valid_configs b))
  /\ (forall id, In id (map fst (valid_configs b)) <-> id ∈ seen_job_ids b)
  /\ Forall (fun p => validate_job_id (fst p) = true
                      /\ job_id (snd p) = Some (fst p))
            (valid_configs b)
  /\ (List.length (valid_configs b) + List.length (errors b)
      = List.length (files_done b))%nat.

(** ** [AuthManager]: API tokens and job keys *)

(** The two caches of an [AuthManager]: [_job_api_keys] and
    [_api_key_to_job_mapping]. *)
Record auth_cache : Type := {
  job_api_keys : gset string;
  api_key_to_job_mapping : gmap string string
}.

(** The inner loop [for api_key in job_config['api_keys']]. *)
Definition add_job_keys (cache : auth_cache) (id : string) (keys : list string)
  : auth_cache :=
  fold_left (fun c api_key =>
               {| job_api_keys := {[ api_key ]} ∪ job_api_keys c;
                  api_key_to_job_mapping :=
                    <[api_key := id]> (api_key_to_job_mapping c) |})
            keys cache.

(** The two loops of [_load_job_api_keys]: the tokens of the main
    configuration with the wildcard, then the keys of every job. *)
Definition build_auth_cache (api_tokens : list string)
    (job_configs : list (string * job_config)) : auth_cache :=
  fold_left (fun c p =>
               match api_keys (snd p) with
               | Some keys => add_job_keys c (fst p) keys
               | None => c
               end)
            job_configs
            (add_job_keys {| job_api_keys := ∅; api_key_to_job_mapping := ∅ |}
               "*" api_tokens).

Section Auth.

Variable fresh_key : nat -> string.

(** [_load_job_api_keys]: the caches are filled on the first call, from
    the tokens and from [get_all_job_configs], and answered from memory
    afterwards.  Returns the caches, the configuration directory and the
    number of key draws afterwards. *)
Definition _load_job_api_keys (cached : option auth_cache)
    (api_tokens : list string)
    (config_dir : option (list (string * toml_file))) (n : nat)
  : auth_cache * option (list (string * toml_file)) * nat :=
  match cached with
  | Some c => (c, config_dir, n)
  | None =>
      let '(dir, n', job_configs) := get_all_job_configs fresh_key config_dir n in
      (build_auth_cache api_tokens job_configs, Some dir, n')
  end.

End Auth.

(** [verify_api_token] with the caches loaded. *)
Definition verify_api_token (c : auth_cache) (token : string) : bool :=
  bool_decide (token ∈ job_api_keys c).

(** [verify_api_token_for_job] with the caches loaded. *)
Definition verify_api_token_for_job (c : auth_cache) (token id : string) : bool :=
  if negb (verify_api_token c token) then false
  else
    match api_key_to_job_mapping c !! token with
    | Some allowed_job => String.eqb allowed_job "*" || String.eqb allowed_job id
    | None => false
    end.

(** Whether a job's configuration lists a key. *)
Definition lists_key (token : string) (p : string * job_config) : Prop :=
  exists keys, api_keys (snd p) = Some keys /\ In token keys.

(** ** Text files, slices and the paged reads *)

Definition cr : ascii := ascii_of_N 13.
Definition lf : ascii := ascii_of_N 10.

(** The text that [for line in log_lines: f.write(line + '\n')] leaves in
    a file. *)
Fixpoint write_lines (lines : list string) : string :=
  match lines with
  | [] => EmptyString
  | line :: rest => (line ++ String lf (write_lines rest))%string
  end.

(** [f.readlines()] of a file opened in text mode: the lines with their
    line ends, where ["\n"], ["\r\n"] and ["\r"] all end a line and read
    as ["\n"].  [current] is the line read so far, reversed. *)
Fixpoint readlines_from (current : list ascii) (text : string) : list string :=
  let finish (cur : list ascii) : string :=
    string_of_list_ascii (rev cur) in
  match text with
  | EmptyString =>
      match current with
      | [] => []
      | _ => [finish current]
      end
  | String c rest =>
      if Ascii.eqb c lf then finish (lf :: current) :: readlines_from [] rest
      else if Ascii.eqb c cr then
        match rest with
        | String c' rest' =>
            if Ascii.eqb c' lf
            then finish (lf :: current) :: readlines_from [] rest'
            else finish (lf :: current) :: readlines_from [] rest
        | EmptyString => [finish (lf :: current)]
        end
      else readlines_from (c :: current) rest
  end.

Definition readlines (text : string) : list string := readlines_from [] text.

(** [c.isspace()] for a character below 256. *)
Definition is_space (c : ascii) : bool :=
  let n := N_of_ascii c in
  ((9 <=? n) && (n <=? 13) || (28 <=? n) && (n <=? 32)
   || (n =? 133) || (n =? 160))%N.

(** [s.rstrip()]. *)
Fixpoint rstrip (s : string) : string :=
  match s with
  | EmptyString => EmptyString
  | String c rest =>
      match rstrip rest with
      | EmptyString => if is_space c then EmptyString else String c EmptyString
      | kept => String c kept
      end
  end.

(** An index of a slice brought into [0 .. len]: negative indices count
    from the end. *)
Definition slice_index (len i : Z) : Z :=
  if i <? 0 then Z.max (i + len) 0 else Z.min i len.

(** [l[offset:offset + limit]]. *)
Definition py_slice {A : Type} (l : list A) (offset limit : Z) : list A :=
  let len := Z.of_nat (List.length l) in
  let start := slice_index len offset in
  let stop := slice_index len (offset + limit) in
  firstn (Z.to_nat (stop - start)) (skipn (Z.to_nat start) l).

(** The page of lines that [get_run_details] and [get_event_info] cut out
    of a file. *)
Record line_page : Type := {
  lines : list string;
  totalLines : Z;
  hasMore : bool;
  nextOffset : option Z
}.

Definition page_of_lines (all_lines : list string) (offset limit : Z)
  : line_page :=
  let total_lines := Z.of_nat (List.length all_lines) in
  let has_more := offset + limit <? total_lines in
  {| lines := map rstrip (py_slice all_lines offset limit);
     totalLines := total_lines;
     hasMore := has_more;
     nextOffset := if has_more then Some (offset + limit) else None |}.

(** [get_event_info]: [None] when the event has no info file. *)
Definition get_event_info (id event_id : string) (offset limit : Z)
    (st : gmap string job_dir) : option line_page :=
  match st !! id with
  | Some d =>
      match event_infos d !! event_id with
      | Some text => Some (page_of_lines (readlines text) offset limit)
      | None => None
      end
  | None => None
  end.

(** The dictionary that [get_run_details] returns. *)
Record run_details : Type := {
  rd_id : string;
  rd_status : string;
  rd_timestamp : option datetime;
  rd_duration : option string;
  rd_endTimestamp : option datetime;
  rd_log : line_page
}.

(** The loop of [get_run_details] that looks the run up. *)
Fixpoint find_run (rid : string) (runs_list : list run_entry) : option run_entry :=
  match runs_list with
  | [] => None
  | run :: rest => if String.eqb (re_id run) rid then Some run else find_run rid rest
  end.

Section RunDetails.

Variable fromisoformat : string -> option datetime.

(** [datetime.fromisoformat(s) if s else None]; the outer [None] is the
    [ValueError]. *)
Definition parse_if_present (s : option string) : option (option datetime) :=
  match s with
  | None => Some None
  | Some t => if String.eqb t "" then Some None
              else option_map Some (fromisoformat t)
  end.

(** [get_run_details]: [None] without [runs.json], without the run in it,
    and for an exception. *)
Definition get_run_details (id rid : string) (offset limit : Z)
    (st : gmap string job_dir) : option run_details :=
  match st !! id with
  | None => None
  | Some d =>
      match runs d with
      | None => None
      | Some runs_list =>
          match find_run rid runs_list with
          | None => None
          | Some run_info =>
              let log :=
                match run_logs d !! rid with
                | Some log_lines =>
                    page_of_lines (readlines (write_lines log_lines)) offset limit
                | None =>
                    {| lines := []; totalLines := 0;
                       hasMore := offset + limit <? 0;
                       nextOffset := if offset + limit <? 0
                                     then Some (offset + limit) else None |}
                end in
              match parse_if_present (Some (re_timestamp run_info)),
                    parse_if_present (re_end_timestamp run_info) with
              | Some ts, Some ets =>
                  Some {| rd_id := re_id run_info;
                          rd_status := re_status run_info;
                          rd_timestamp := ts;
                          rd_duration := re_duration run_info;
                          rd_endTimestamp := ets;
                          rd_log := log |}
              | _, _ => None
              end
          end
      end
  end.

End RunDetails.

(** What a page of lines at [offset] with [limit] satisfies. *)
Definition page_law (offset limit : Z) (p : line_page) : Prop :=
  Z.of_nat (List.length (lines p))
  = Z.min limit (Z.max 0 (totalLines p - offset))
  /\ (hasMore p = true <-> offset + limit < totalLines p)
  /\ nextOffset p = (if hasMore p then Some (offset + limit) else None)
  /\ (hasMore p = true -> Z.of_nat (List.length (lines p)) = limit).

(** A string without a line end in it. *)
Fixpoint no_line_end (s : string) : bool :=
  match s with
  | EmptyString => true
  | String c rest => negb (Ascii.eqb c lf) && negb (Ascii.eqb c cr) && no_line_end rest
  end.

(** ** The push routes with their token checks *)

(** The request bodies of the five push routes. *)
Inductive push_request : Type :=
| PushEvent (event_type message : string) (info : option string)
            (extra : option (list (string * json)))
| PushStatus (rd : run_data)
| PushBorgInfo (repository_info : list (string * json)) (archive_list : list json)
| PushBorgmaticInfo (info_data : borgmatic_data) (repository_label : option string)
| PushBorgmaticRinfo (rinfo_data : borgmatic_data) (repository_label : option string).

(** What a request reads from the clock and from [uuid4]. *)
Record readings : Type := {
  clock1 : string;
  clock2 : string;
  uuid_suffix : string
}.

Section PushRoutes.

Variable float_of_str : string -> option spec_float.

(** A push route after its two token checks: [get_api_token] answers 401
    for a token that is no key at all, the route itself for a token that
    does not open the job of the request. *)
Definition handle_push (c : auth_cache) (token id : string) (req : push_request)
    (r : readings) (st : gmap string job_dir)
  : gmap string job_dir * response :=
  if negb (verify_api_token c token) then
    (st, HttpError 401 "Invalid API token")
  else if negb (verify_api_token_for_job c token id) then
    (st, HttpError 401 "Unauthorized")
  else
    match req with
    | PushEvent event_type message info extra =>
        (fst (store_event id event_type message info extra (clock1 r)
                (uuid_suffix r) (clock2 r) st),
         Success200 "Event stored successfully")
    | PushStatus rd =>
        match store_backup_run id rd (clock1 r) (clock2 r) st with
        | (st', Returned) => (st', Success200 "Status and logs stored successfully")
        | (st', Raised) => (st', HttpError 500 "Failed to store backup status")
        end
    | PushBorgInfo repository_info archive_list =>
        (fst (store_borg_info float_of_str id (clock1 r) repository_info
                archive_list st),
         Success200 "Borg repository info and archives stored successfully")
    | PushBorgmaticInfo info_data repository_label =>
        push_borgmatic_info float_of_str id (clock1 r) info_data
          repository_label st
    | PushBorgmaticRinfo rinfo_data repository_label =>
        push_borgmatic_rinfo float_of_str id (clock1 r) rinfo_data
          repository_label st
    end.

End PushRoutes.

(** The event file of a job, if it exists. *)
Definition event_of (id event_id : string) (st : gmap string job_dir)
  : option event_data :=
  match st !! id with
  | Some d => events d !! event_id
  | None => None
  end.

(** The log file of a run, as the lines written to it. *)
Definition run_log_of (id rid : string) (st : gmap string job_dir)
  : option (list string) :=
  match st !! id with
  | Some d => run_logs d !! rid
  | None => None
  end.

(** The date that [_get_latest_archive_date] reads from one archive: its
    [start], or else its [time], when that is a string [fromisoformat]
    accepts. *)
Definition archive_date (fromisoformat : string -> option datetime) (a : json)
  : option datetime :=
  match a with
  | JObj archive =>
      match py_or (assoc_get "start" archive) (assoc_get "time" archive) with
      | Some (JStr s) =>
          if truthy (JStr s) then fromisoformat (replace_Z s) else None
      | _ => None
      end
  | _ => None
  end.

(** ** The list of events: [get_job_events] *)

(** [BackupEvent]. *)
Record backup_event : Type := {
  be_id : string;
  be_type : string;
  be_timestamp : datetime;
  be_timestampRelative : string;
  be_message : string;
  be_hasInfo : bool;
  be_extra : list (string * json)
}.

(** The dictionary that [get_job_events] returns. *)
Record event_page : Type := {
  page_items : list backup_event;
  page_total : Z;
  page_hasMore : bool;
  page_nextOffset : option Z
}.

(** [events_with_timestamps.sort(key=lambda x: x[1], reverse=True)]: a
    stable sort on the parsed timestamps, newest first. *)
Fixpoint insert_newest (x : datetime * event_data)
    (l : list (datetime * event_data)) : list (datetime * event_data) :=
  match l with
  | [] => [x]
  | y :: rest =>
      if dt_us (fst x) <? dt_us (fst y) then y :: insert_newest x rest
      else x :: l
  end.

Fixpoint sort_newest (l : list (datetime * event_data))
  : list (datetime * event_data) :=
  match l with
  | [] => []
  | x :: rest => insert_newest x (sort_newest rest)
  end.

(** Whether the sort can compare the timestamps: a naive and an aware
    datetime in one list give a [TypeError]. *)
Definition comparable (l : list (datetime * event_data)) : bool :=
  forallb (fun x => dt_aware (fst x)) l
  || forallb (fun x => negb (dt_aware (fst x))) l.

Section Events.

Variable fromisoformat : string -> option datetime.
Variable relative_time : datetime -> string.
(** [job_dir.glob("event_*.json")]: the event files of the directory, in
    the order in which the file system lists them. *)
Variable glob : gmap string event_data -> list (string * event_data).

(** The loop that loads the event files: a file whose timestamp
    [fromisoformat] rejects is logged and skipped. *)
Fixpoint load_events (event_files : list (string * event_data))
  : list (datetime * event_data) :=
  match event_files with
  | [] => []
  | (_, ev) :: rest =>
      match fromisoformat (ev_timestamp ev) with
      | Some timestamp => (timestamp, ev) :: load_events rest
      | None => load_events rest
      end
  end.

Definition make_backup_event (x : datetime * event_data) : backup_event :=
  {| be_id := ev_id (snd x);
     be_type := ev_type (snd x);
     be_timestamp := fst x;
     be_timestampRelative := relative_time (fst x);
     be_message := ev_message (snd x);
     be_hasInfo := ev_has_info (snd x);
     be_extra := ev_extra (snd x) |}.

(** [get_job_events]; [None] is the answer after an exception. *)
Definition get_job_events (id : string) (offset limit : Z)
    (st : gmap string job_dir) : option event_page :=
  match st !! id with
  | None =>
      Some {| page_items := []; page_total := 0; page_hasMore := false;
              page_nextOffset := None |}
  | Some d =>
      let events_with_timestamps := load_events (glob (events d)) in
      if comparable events_with_timestamps then
        let sorted := sort_newest events_with_timestamps in
        let total := Z.of_nat (List.length sorted) in
        let has_more := offset + limit <? total in
        Some {| page_items := map make_backup_event (py_slice sorted offset limit);
                page_total := total;
                page_hasMore := has_more;
                page_nextOffset := if has_more then Some (offset + limit) else None |}
      else None
  end.

End Events.

(** What a page of events at [offset] with [limit] satisfies. *)
Definition event_page_law (offset limit : Z) (p : event_page) : Prop :=
  Z.of_nat (List.length (page_items p))
  = Z.min limit (Z.max 0 (page_total p - offset))
  /\ (page_hasMore p = true <-> offset + limit < page_total p)
  /\ page_nextOffset p = (if page_hasMore p then Some (offset + limit) else None)
  /\ StronglySorted
       (fun a b => dt_us (be_timestamp b) <= dt_us (be_timestamp a))
       (page_items p).

(** The event files of a job directory. *)
Definition events_of (id : string) (st : gmap string job_dir)
  : gmap string event_data :=
  match st !! id with
  | Some d => events d
  | None => ∅
  end.

(** The archives that one repository of a borgmatic payload lists. *)
Definition archives_of (repo : list (string * json)) : list json :=
  match assoc_get "archives" repo with
  | Some (JList l) => l
  | _ => []
  end.

(** A repository whose [archives] entry, if there is one, is a list. *)
Definition archives_listed (repo : list (string * json)) : Prop :=
  assoc_get "archives" repo = None
  \/ exists l, assoc_get "archives" repo = Some (JList l).

(** [fromisoformat] at two timestamps five seconds apart. *)
Definition read_two_events (s : string) : option datetime :=
  if String.eqb s "2024-01-01T00:00:00"
  then Some {| dt_us := 63839664000000000; dt_aware := false;
               isoformat := "2024-01-01T00:00:00" |}
  else if String.eqb s "2024-01-01T00:00:05"
  then Some {| dt_us := 63839664005000000; dt_aware := false;
               isoformat := "2024-01-01T00:00:05" |}
  else None.

(** The data directory after a first event. *)
Definition one_event : gmap string job_dir :=
  fst (store_event "job" "start" "backup started" None None
         "2024-01-01T00:00:00" "0a1b2c3d" "2024-01-01T00:00:01" ∅).

(** Two runs pushed with different UTC offsets: [run_tokyo] starts at
    09:00 in UTC+9, which is 00:00 UTC, and [run_utc] five hours later, at
    05:00 UTC. *)
Definition run_tokyo : run_data :=
  {| run_id := "tokyo"; status := Success;
     start_time := {| dt_us := 63839664000000000; dt_aware := true;
                      isoformat := "2024-01-01T09:00:00+09:00" |};
     end_time := None; exit_code := Some 0; log_lines := [];
     error_message := None |}.

Definition run_utc : run_data :=
  {| run_id := "utc"; status := Success;
     start_time := {| dt_us := 63839682000000000; dt_aware := true;
                      isoformat := "2024-01-01T05:00:00+00:00" |};
     end_time := None; exit_code := Some 0; log_lines := [];
     error_message := None |}.

Definition two_digits (n : nat) : string :=
  (string_of_Z (Z.of_nat (n / 10)) ++ string_of_Z (Z.of_nat (n mod 10)))%string.

(** The run number [n] of a series pushed in UTC+9, one per second from
    09:00:00 local time (00:00:00 UTC). *)
Definition tokyo_run (n : nat) : run_data :=
  {| run_id := ("tokyo-" ++ two_digits n)%string; status := Success;
     start_time :=
       {| dt_us := 63839664000000000 + Z.of_nat n * 1000000;
          dt_aware := true;
          isoformat := ("2024-01-01T09:" ++ two_digits (n / 60) ++ ":"
                          ++ two_digits (n mod 60) ++ "+09:00")%string |};
     end_time := None; exit_code := Some 0; log_lines := [];
     error_message := None |}.

(** A push of [rd] with clock readings that play no part in the list. *)
Definition pushed (rd : run_data) : run_data * (string * string) :=
  (rd, ("2024-01-01T06:00:00", "2024-01-01T06:00:00")).

(** A number of 4301 digits. *)
Definition nines_4301 : string :=
  string_of_list_ascii (repeat (ascii_of_N 57) 4301).

(** * Properties *)

(** ** Dictionaries *)

Lemma lookup_setdefault_ne (k k' : string) (v : json) (d : gmap string json) :
  k ≠ k' -> setdefault k v d !! k' = d !! k'.
Proof.
  intros Hne. unfold setdefault.
  destruct (d !! k) eqn:E; [reflexivity|].
  by rewrite lookup_insert_ne.
Qed.

Lemma lookup_setdefault_eq (k : string) (v : json) (d : gmap string json) :
  setdefault k v d !! k = Some (default v (d !! k)).
Proof.
  unfold setdefault. destruct (d !! k) eqn:E; simpl.
  - by rewrite E.
  - by rewrite lookup_insert_eq.
Qed.

Lemma setdefault_is_Some (k k' : string) (v : json) (d : gmap string json) :
  is_Some (d !! k') -> is_Some (setdefault k v d !! k').
Proof.
  intros H. destruct (decide (k = k')) as [->|Hne].
  - rewrite lookup_setdefault_eq. eauto.
  - by rewrite lookup_setdefault_ne.
Qed.

(** A key that is none of the seven defaulted ones passes through
    [preserve_archive_stats]. *)
Lemma lookup_preserve_archive_stats_other (k : string) (d : gmap string json) :
  k ≠ "archive_count" -> k ≠ "full_size" -> k ≠ "compressed_size" ->
  k ≠ "deduplicated_size" -> k ≠ "compression_ratio" ->
  k ≠ "repository_path" -> k ≠ "backup_type" ->
  preserve_archive_stats d !! k = d !! k.
Proof.
  intros. unfold preserve_archive_stats.
  repeat (rewrite lookup_setdefault_ne; [|congruence]). reflexivity.
Qed.

(** A key that is already bound keeps its value. *)
Lemma setdefault_bound (k k' : string) (v x : json) (d : gmap string json) :
  d !! k' = Some x -> setdefault k v d !! k' = Some x.
Proof.
  intros H. destruct (decide (k = k')) as [->|Hne].
  - rewrite lookup_setdefault_eq, H. reflexivity.
  - by rewrite lookup_setdefault_ne.
Qed.

Lemma preserve_archive_stats_bound (k : string) (x : json) (d : gmap string json) :
  d !! k = Some x -> preserve_archive_stats d !! k = Some x.
Proof.
  intros H. unfold preserve_archive_stats.
  repeat apply setdefault_bound. exact H.
Qed.

Ltac other_key :=
  rewrite lookup_preserve_archive_stats_other by discriminate.

(** ** Events and the summary *)





(** ** Runs, snapshots and the summary *)

Lemma store_backup_run_returned (id : string) (rd : run_data)
    (now1 now2 : string) (st : gmap string job_dir) :
  snd (store_backup_run id rd now1 now2 st) = Returned ->
  exists duration, run_duration rd = Some duration.
Proof.
  unfold store_backup_run. destruct (run_duration rd) as [dur|]; simpl.
  - eauto.
  - discriminate.
Qed.

(** The summary after a run that was stored. *)
Lemma summary_of_store_backup_run (id : string) (rd : run_data)
    (now1 now2 : string) (st : gmap string job_dir) :
  snd (store_backup_run id rd now1 now2 st) = Returned ->
  summary_of id (fst (store_backup_run id rd now1 now2 st))
  = Some (summary_from_run id now2 rd (default ∅ (summary_of id st))).
Proof.
  intros H. destruct (store_backup_run_returned _ _ _ _ _ H) as [dur Hd].
  unfold store_backup_run, summary_of, the_dir. rewrite Hd. simpl.
  rewrite lookup_insert_eq.
  unfold _update_job_summary, _update_runs_from_run. rewrite Hd. simpl.
  destruct (st !! id) as [d|]; destruct (log_lines rd); reflexivity.
Qed.

Section SnapshotSummary.

Variable float_of_str : string -> option spec_float.

(** The summary after [store_borg_info]: the merged dictionary, or the
    one before when the update raised. *)
Lemma summary_of_store_borg_info (id now : string)
    (repository_info : list (string * json)) (archive_list : list json)
    (st : gmap string job_dir) :
  summary_of id
    (fst (store_borg_info float_of_str id now repository_info archive_list st))
  = match summary_from_borg_info float_of_str id now repository_info
            (JList archive_list) (default ∅ (summary_of id st)) with
    | Some s => Some s
    | None => summary_of id st
    end.
Proof.
  unfold store_borg_info, summary_of, the_dir. simpl.
  rewrite lookup_insert_eq. unfold _update_summary_from_borg_info. simpl.
  destruct (st !! id) as [d|]; simpl;
    destruct (summary_from_borg_info _ _ _ _ _ _); reflexivity.
Qed.

(** The statistics block writes the four size fields and nothing else. *)
Lemma size_statistics_other (repo_stats : json) (c c' : gmap string json)
    (k : string) :
  size_statistics float_of_str repo_stats c = Some c' ->
  k ≠ "full_size" -> k ≠ "compressed_size" -> k ≠ "deduplicated_size" ->
  k ≠ "compression_ratio" ->
  c' !! k = c !! k.
Proof.
  unfold size_statistics. intros H ? ? ? ?.
  destruct (truthy repo_stats); [|congruence].
  destruct repo_stats as [| | | | | |st]; try discriminate.
  destruct (_format_size _ (default (JInt 0) (assoc_get "total_size" st)));
    simpl in H; [|discriminate].
  destruct (_format_size _ (default (JInt 0) (assoc_get "total_csize" st)));
    simpl in H; [|discriminate].
  destruct (_format_size _ (default (JInt 0) (assoc_get "unique_size" st)));
    simpl in H; [|discriminate].
  destruct (json_gt0 _) as [[|]|]; try discriminate.
  - destruct (json_gt0 _) as [[|]|]; try discriminate.
    + destruct (ratio_string _ _); simpl in H; [|discriminate].
      inversion H; subst. by rewrite !lookup_insert_ne.
    + inversion H; subst. by rewrite !lookup_insert_ne.
  - inversion H; subst. by rewrite !lookup_insert_ne.
Qed.

(** No field is removed by it. *)
Lemma size_statistics_keeps (repo_stats : json) (c c' : gmap string json)
    (k : string) :
  size_statistics float_of_str repo_stats c = Some c' ->
  is_Some (c !! k) -> is_Some (c' !! k).
Proof.
  unfold size_statistics. intros H Hk.
  destruct (truthy repo_stats); [|congruence].
  destruct repo_stats as [| | | | | |st]; try discriminate.
  destruct (_format_size _ (default (JInt 0) (assoc_get "total_size" st)));
    simpl in H; [|discriminate].
  destruct (_format_size _ (default (JInt 0) (assoc_get "total_csize" st)));
    simpl in H; [|discriminate].
  destruct (_format_size _ (default (JInt 0) (assoc_get "unique_size" st)));
    simpl in H; [|discriminate].
  assert (Hins : forall (k' : string) (v : json) (m : gmap string json),
             is_Some (m !! k) -> is_Some (<[k' := v]> m !! k)).
  { intros k' v m Hm. rewrite lookup_insert. case_decide; eauto. }
  destruct (json_gt0 _) as [[|]|]; try discriminate.
  - destruct (json_gt0 _) as [[|]|]; try discriminate.
    + destruct (ratio_string _ _); simpl in H; [|discriminate].
      inversion H; subst. auto.
    + inversion H; subst. auto.
  - inversion H; subst. auto.
Qed.

End SnapshotSummary.

Section FieldPreservation.

Variable float_of_str : string -> option spec_float.

(** The steps of a snapshot update that reached its dump. *)
Lemma summary_from_borg_info_inv (id now : string)
    (repository_info : list (string * json)) (archive_list : json)
    (c s : gmap string json) :
  summary_from_borg_info float_of_str id now repository_info archive_list c
  = Some s ->
  exists n repo_stats c2 loc,
    py_len archive_list = Some n
    /\ cache_stats repository_info = Some repo_stats
    /\ size_statistics float_of_str repo_stats (<["archive_count" := JInt n]> c)
       = Some c2
    /\ repository_location repository_info = Some loc
    /\ s = setdefault "schedule_status" (JStr "unknown")
             (setdefault "status" (JStr "unknown")
                (setdefault "backup_type" (JStr "borgmatic")
                   (<["job_id" := JStr id]>
                      (<["last_updated" := JStr now]>
                         (match loc with
                          | Some l => <["repository_path" := l]> c2
                          | None => c2
                          end))))).
Proof.
  unfold summary_from_borg_info. intros H.
  destruct (py_len archive_list) as [n|]; simpl in H; [|discriminate].
  destruct (cache_stats repository_info) as [repo_stats|] eqn:Hrs;
    simpl in H; [|discriminate].
  destruct (size_statistics float_of_str repo_stats _) as [c2|] eqn:Hs;
    simpl in H; [|discriminate].
  destruct (repository_location repository_info) as [loc|];
    simpl in H; [|discriminate].
  inversion H; subst. exists n, repo_stats, c2, loc. auto.
Qed.

Lemma insert_keeps (k k' : string) (v : json) (m : gmap string json) :
  is_Some (m !! k) -> is_Some (<[k' := v]> m !! k).
Proof. intros Hm. rewrite lookup_insert. case_decide; eauto. Qed.

(** A snapshot update removes no field of the summary. *)
Lemma summary_from_borg_info_keeps (id now : string)
    (repository_info : list (string * json)) (archive_list : json)
    (c s : gmap string json) (k : string) :
  summary_from_borg_info float_of_str id now repository_info archive_list c
  = Some s ->
  is_Some (c !! k) -> is_Some (s !! k).
Proof.
  intros H Hk.
  destruct (summary_from_borg_info_inv _ _ _ _ _ _ H)
    as (n & rs & c2 & loc & _ & _ & Hs & _ & ->).
  do 3 apply setdefault_is_Some. do 2 apply insert_keeps.
  assert (is_Some (c2 !! k)).
  { eapply size_statistics_keeps; [exact Hs|]. by apply insert_keeps. }
  destruct loc; [by apply insert_keeps|assumption].
Qed.

(** It leaves the run-derived fields as they are. *)
Lemma summary_from_borg_info_run_fields (id now : string)
    (repository_info : list (string * json)) (archive_list : json)
    (c s : gmap string json) (k : string) (x : json) :
  summary_from_borg_info float_of_str id now repository_info archive_list c
  = Some s ->
  k = "status" \/ k = "last_backup" \/ k = "last_successful_backup" ->
  c !! k = Some x -> s !! k = Some x.
Proof.
  intros H Hk Hx.
  destruct (summary_from_borg_info_inv _ _ _ _ _ _ H)
    as (n & rs & c2 & loc & _ & _ & Hs & _ & ->).
  do 3 apply setdefault_bound.
  assert (Hc2 : c2 !! k = Some x).
  { rewrite (size_statistics_other _ _ _ _ k Hs)
      by (destruct Hk as [->|[->| ->]]; discriminate).
    rewrite lookup_insert_ne by (destruct Hk as [->|[->| ->]]; discriminate).
    exact Hx. }
  rewrite !lookup_insert_ne by (destruct Hk as [->|[->| ->]]; discriminate).
  destruct loc; [|exact Hc2].
  rewrite lookup_insert_ne by (destruct Hk as [->|[->| ->]]; discriminate).
  exact Hc2.
Qed.

(** A snapshot update does not touch [last_successful_backup]. *)
Lemma summary_from_borg_info_last_success (id now : string)
    (repository_info : list (string * json)) (archive_list : json)
    (c s : gmap string json) :
  summary_from_borg_info float_of_str id now repository_info archive_list c
  = Some s ->
  s !! "last_successful_backup" = c !! "last_successful_backup".
Proof.
  intros H.
  destruct (summary_from_borg_info_inv _ _ _ _ _ _ H)
    as (n & rs & c2 & loc & _ & _ & Hs & _ & ->).
  repeat (rewrite lookup_setdefault_ne by discriminate).
  rewrite !lookup_insert_ne by discriminate.
  assert (Hc2 : c2 !! "last_successful_backup" = c !! "last_successful_backup").
  { rewrite (size_statistics_other _ _ _ _ _ Hs) by discriminate.
    by rewrite lookup_insert_ne by discriminate. }
  destruct loc; [by rewrite lookup_insert_ne by discriminate|exact Hc2].
Qed.

(** The run-derived fields that a run update writes. *)
Lemma summary_from_run_run_fields (id now : string) (rd : run_data)
    (c : gmap string json) :
  let s := summary_from_run id now rd c in
  s !! "status" = Some (JStr (status_str (status rd)))
  /\ s !! "last_backup" = Some (JStr (isoformat (start_time rd)))
  /\ s !! "last_successful_backup"
     = match status rd with
       | Success => Some (JStr (isoformat (start_time rd)))
       | _ => c !! "last_successful_backup"
       end.
Proof.
  unfold summary_from_run. cbv zeta.
  repeat split; other_key.
  - by rewrite lookup_insert_eq.
  - rewrite lookup_insert_ne by discriminate.
    destruct (status rd); rewrite ?lookup_insert_ne by discriminate;
      by rewrite lookup_insert_eq.
  - rewrite lookup_insert_ne by discriminate.
    destruct (status rd);
      rewrite ?lookup_insert_eq; try reflexivity;
      rewrite !lookup_insert_ne by discriminate; reflexivity.
Qed.

(** A run update keeps an archive-derived field that is there and
    defaults one that is not. *)
Lemma summary_from_run_archive_fields (id now : string) (rd : run_data)
    (c : gmap string json) (k : string) (dflt : json) :
  archive_field_default k = Some dflt ->
  summary_from_run id now rd c !! k = Some (default dflt (c !! k)).
Proof.
  unfold archive_field_default. intros Hk.
  assert (Hbase : forall k', k' ≠ "status" -> k' ≠ "last_successful_backup" ->
            k' ≠ "last_backup" -> k' ≠ "last_updated" -> k' ≠ "job_id" ->
            (<["status" := JStr (status_str (status rd))]>
               (match status rd with
                | Success =>
                    <["last_successful_backup" := JStr (isoformat (start_time rd))]>
                      (<["last_backup" := JStr (isoformat (start_time rd))]>
                         (<["last_updated" := JStr now]>
                            (<["job_id" := JStr id]> c)))
                | _ => <["last_backup" := JStr (isoformat (start_time rd))]>
                         (<["last_updated" := JStr now]>
                            (<["job_id" := JStr id]> c))
                end) : gmap string json) !! k' = c !! k').
  { intros k' ? ? ? ? ?. rewrite lookup_insert_ne by congruence.
    destruct (status rd); by rewrite !lookup_insert_ne by congruence. }
  unfold summary_from_run, preserve_archive_stats. cbv zeta.
  repeat match type of Hk with
         | (if String.eqb k ?s then _ else _) = _ =>
             destruct (String.eqb_spec k s) as [->|?]
         end; try discriminate; inversion Hk; subst;
    repeat (rewrite lookup_setdefault_ne by discriminate);
    rewrite lookup_setdefault_eq;
    repeat (rewrite lookup_setdefault_ne by discriminate);
    rewrite Hbase by discriminate; reflexivity.
Qed.

End FieldPreservation.

Lemma store_backup_run_outcome (id : string) (rd : run_data)
    (now1 now2 : string) (st st0 : gmap string job_dir) :
  snd (store_backup_run id rd now1 now2 st) = Returned ->
  snd (store_backup_run id rd now1 now2 st0) = Returned.
Proof.
  intros H. destruct (store_backup_run_returned _ _ _ _ _ H) as [dur Hd].
  unfold store_backup_run. rewrite Hd. reflexivity.
Qed.

(** C2 (amended). Field preservation: for a run that [store_backup_run]
    stored, in either order of [store_backup_run] and [store_borg_info]
    the summary afterwards holds [status] and [last_backup] with the
    values the run wrote and all five archive-derived fields;
    [last_successful_backup] is written by a successful run only, and
    after a run with another status it is what it was before the two
    calls.  The snapshot leaves the three run-derived fields exactly as
    the run left them, and the run keeps every archive-derived field that
    is there, writing the default only for one that is absent. *)
Theorem run_and_archive_set_fields (float_of_str : string -> option spec_float)
    (id : string) (rd : run_data) (now1 now2 now : string)
    (repository_info : list (string * json)) (archive_list : list json)
    (st : gmap string job_dir) :
  snd (store_backup_run id rd now1 now2 st) = Returned ->
  (let st1 := fst (store_backup_run id rd now1 now2 st) in
   let st2 := fst (store_borg_info float_of_str id now repository_info
                     archive_list st1) in
   (forall k, run_field k -> summary_field id k st2 = summary_field id k st1)
   /\ summary_field id "status" st2 = Some (JStr (status_str (status rd)))
   /\ summary_field id "last_backup" st2
      = Some (JStr (isoformat (start_time rd)))
   /\ (status rd = Success ->
       summary_field id "last_successful_backup" st2
       = Some (JStr (isoformat (start_time rd))))
   /\ (forall k dflt, archive_field_default k = Some dflt ->
       is_Some (summary_field id k st2))
   /\ (status rd <> Success ->
       summary_field id "last_successful_backup" st2
       = summary_field id "last_successful_backup" st))
  /\
  (let st1 := fst (store_borg_info float_of_str id now repository_info
                     archive_list st) in
   let st2 := fst (store_backup_run id rd now1 now2 st1) in
   (forall k dflt, archive_field_default k = Some dflt ->
      summary_field id k st2 = Some (default dflt (summary_field id k st1)))
   /\ summary_field id "status" st2 = Some (JStr (status_str (status rd)))
   /\ summary_field id "last_backup" st2
      = Some (JStr (isoformat (start_time rd)))
   /\ (status rd = Success ->
       summary_field id "last_successful_backup" st2
       = Some (JStr (isoformat (start_time rd))))
   /\ (status rd <> Success ->
       summary_field id "last_successful_backup" st2
       = summary_field id "last_successful_backup" st)).
Proof.
  intros Hret.
  assert (Hbefore : default ∅ (summary_of id st) !! "last_successful_backup"
                    = summary_field id "last_successful_backup" st).
  { unfold summary_field. destruct (summary_of id st); [reflexivity|].
    apply lookup_empty. }
  split.
  - intros st1 st2.
    pose proof (summary_of_store_backup_run id rd now1 now2 st Hret) as H1.
    fold st1 in H1.
    pose proof (summary_of_store_borg_info float_of_str id now repository_info
                  archive_list st1) as H2.
    fold st2 in H2. rewrite H1 in H2. simpl in H2.
    set (s1 := summary_from_run id now2 rd (default ∅ (summary_of id st))) in *.
    destruct (summary_from_run_run_fields id now2 rd
                (default ∅ (summary_of id st))) as (Hs & Hb & Hl).
    fold s1 in Hs, Hb, Hl.
    assert (Hsame : forall k x, run_field k -> s1 !! k = Some x ->
                      summary_field id k st2 = Some x).
    { intros k x Hk Hx. unfold summary_field. rewrite H2.
      destruct (summary_from_borg_info _ _ _ _ _ s1) as [s2|] eqn:E.
      - eapply summary_from_borg_info_run_fields; eauto.
      - exact Hx. }
    assert (Hfield1 : forall k, summary_field id k st1 = s1 !! k).
    { intros k. unfold summary_field. by rewrite H1. }
    assert (Hkept : forall k, run_field k ->
                      summary_field id k st2 = summary_field id k st1).
    { intros k Hk. rewrite Hfield1.
      destruct (s1 !! k) as [x|] eqn:Hx; [by apply Hsame|].
      unfold summary_field. rewrite H2.
      destruct (summary_from_borg_info _ _ _ _ _ s1) as [s2|] eqn:E;
        [|exact Hx].
      destruct Hk as [->|[->| ->]]; [congruence|congruence|].
      by rewrite (summary_from_borg_info_last_success _ _ _ _ _ _ _ E). }
    split; [exact Hkept|]. split; [|split; [|split; [|split]]].
    + apply Hsame; [unfold run_field; auto|exact Hs].
    + apply Hsame; [unfold run_field; auto|exact Hb].
    + intros Hsucc. apply Hsame; [unfold run_field; auto|].
      rewrite Hl, Hsucc. reflexivity.
    + intros k dflt Hk. unfold summary_field. rewrite H2.
      assert (is_Some (s1 !! k)) as Hs1.
      { unfold s1. erewrite summary_from_run_archive_fields by exact Hk. eauto. }
      destruct (summary_from_borg_info _ _ _ _ _ s1) as [s2|] eqn:E;
        [|exact Hs1].
      eapply summary_from_borg_info_keeps; eauto.
    + intros Hns. rewrite Hkept by (unfold run_field; auto).
      rewrite Hfield1, Hl, <- Hbefore. by destruct (status rd).
  - intros st1 st2.
    assert (Hret1 : snd (store_backup_run id rd now1 now2 st1) = Returned)
      by (eapply store_backup_run_outcome; exact Hret).
    pose proof (summary_of_store_backup_run id rd now1 now2 st1 Hret1) as H2.
    fold st2 in H2.
    destruct (summary_from_run_run_fields id now2 rd
                (default ∅ (summary_of id st1))) as (Hs & Hb & Hl).
    assert (Hsnapshot : default ∅ (summary_of id st1) !! "last_successful_backup"
                        = summary_field id "last_successful_backup" st).
    { unfold st1. rewrite summary_of_store_borg_info.
      destruct (summary_from_borg_info _ _ _ _ _ _) as [s|] eqn:E;
        [|exact Hbefore].
      change (default ∅ (Some s)) with s.
      by rewrite (summary_from_borg_info_last_success _ _ _ _ _ _ _ E). }
    assert (Hfield2 : forall k,
               summary_field id k st2
               = summary_from_run id now2 rd (default ∅ (summary_of id st1))
                 !! k).
    { intros k. unfold summary_field. by rewrite H2. }
    rewrite !Hfield2.
    split; [|split; [|split; [|split]]]; try assumption.
    + intros k dflt Hk. rewrite Hfield2.
      rewrite (summary_from_run_archive_fields id now2 rd _ k dflt Hk).
      unfold summary_field.
      destruct (summary_of id st1); simpl; [reflexivity|].
      by rewrite lookup_empty.
    + intros Hsucc. rewrite Hl, Hsucc. reflexivity.
    + intros Hns. rewrite Hl, <- Hsnapshot. by destruct (status rd).
Qed.

(** C2, as the claim states it, at a failing input: a failed run on a job
    without data.  In both orders of the two calls the summary holds
    [status] and [last_backup] and the archive count, and no
    [last_successful_backup]. *)
Lemma run_and_archive_set_fields_counterexample :
  let rd := {| run_id := "run-f"; status := Failed;
               start_time := start_time run_a; end_time := end_time run_a;
               exit_code := Some 2; log_lines := [];
               error_message := Some "borg exited with 2" |} in
  let run st := fst (store_backup_run "job" rd "2024-01-01T00:02:00"
                       "2024-01-01T00:02:01" st) in
  let archive_set st := fst (store_borg_info no_float_of_str "job"
                               "2024-01-01T00:03:00" stats_1000_250
                               [JObj [("name", JStr "a")]] st) in
  snd (store_backup_run "job" rd "2024-01-01T00:02:00" "2024-01-01T00:02:01" ∅)
  = Returned
  /\ Forall (fun st =>
               summary_field "job" "status" st = Some (JStr "failed")
               /\ summary_field "job" "last_backup" st
                  = Some (JStr "2024-01-01T00:00:00")
               /\ summary_field "job" "archive_count" st = Some (JInt 1)
               /\ summary_field "job" "last_successful_backup" st = None)
            [archive_set (run ∅); run (archive_set ∅)].
Proof. vm_compute. repeat constructor. Qed.

(** ** The compression ratio *)

Section CompressionRatio.

Variable float_of_str : string -> option spec_float.

(** What the statistics block leaves in [compression_ratio]. *)
Lemma size_statistics_ratio (repo_stats : json) (c c' : gmap string json) :
  size_statistics float_of_str repo_stats c = Some c' ->
  (truthy repo_stats = false -> c' = c)
  /\ (truthy repo_stats = true ->
      exists st, repo_stats = JObj st
      /\ let total_size := default (JInt 0) (assoc_get "total_size" st) in
         let compressed_size := default (JInt 0) (assoc_get "total_csize" st) in
         (json_gt0 total_size = Some true ->
          json_gt0 compressed_size = Some true ->
          exists r, ratio_string compressed_size total_size = Some r
                    /\ c' !! "compression_ratio" = Some (JStr r))
         /\ (json_gt0 total_size = Some false
             \/ json_gt0 compressed_size = Some false ->
             c' !! "compression_ratio" = Some (JStr "0%"))).
Proof.
  unfold size_statistics. intros H.
  destruct (truthy repo_stats) eqn:Ht.
  2:{ split; [intros _; congruence|discriminate]. }
  split; [discriminate|intros _].
  destruct repo_stats as [| | | | | |st]; try discriminate.
  exists st. split; [reflexivity|]. cbv zeta.
  destruct (_format_size _ (default (JInt 0) (assoc_get "total_size" st)));
    simpl in H; [|discriminate].
  destruct (_format_size _ (default (JInt 0) (assoc_get "total_csize" st)));
    simpl in H; [|discriminate].
  destruct (_format_size _ (default (JInt 0) (assoc_get "unique_size" st)));
    simpl in H; [|discriminate].
  destruct (json_gt0 (default (JInt 0) (assoc_get "total_size" st)))
    as [[|]|]; try discriminate.
  - destruct (json_gt0 (default (JInt 0) (assoc_get "total_csize" st)))
      as [[|]|]; try discriminate.
    + destruct (ratio_string _ _) as [r|]; simpl in H; [|discriminate].
      inversion H; subst. split.
      * intros _ _. exists r. split; [reflexivity|]. by rewrite lookup_insert_eq.
      * intros [?|?]; discriminate.
    + inversion H; subst. split.
      * intros _ ?; discriminate.
      * intros _. by rewrite lookup_insert_eq.
  - inversion H; subst. split.
    + intros ?; discriminate.
    + intros _. by rewrite lookup_insert_eq.
Qed.

(** C3 (amended). For a [store_borg_info] call whose summary update
    reaches its dump: when the repository info carries non-empty cache
    statistics, [compression_ratio] is the formatted value of
    [(1 - compressed / total) * 100] if both [total > 0] and
    [compressed > 0], and ["0%"] if [total <= 0] or [compressed <= 0];
    when the statistics are absent or empty, [compression_ratio] is left
    as it was. *)
Theorem compression_ratio_stored (id now : string)
    (repository_info : list (string * json)) (archive_list : list json)
    (st : gmap string job_dir) (s : gmap string json) (repo_stats : json) :
  summary_from_borg_info float_of_str id now repository_info
    (JList archive_list) (default ∅ (summary_of id st)) = Some s ->
  cache_stats repository_info = Some repo_stats ->
  let st' := fst (store_borg_info float_of_str id now repository_info
                    archive_list st) in
  (truthy repo_stats = false ->
   summary_field id "compression_ratio" st'
   = summary_field id "compression_ratio" st)
  /\ (truthy repo_stats = true ->
      exists stats, repo_stats = JObj stats
      /\ let total_size := default (JInt 0) (assoc_get "total_size" stats) in
         let compressed_size := default (JInt 0) (assoc_get "total_csize" stats) in
         (json_gt0 total_size = Some true ->
          json_gt0 compressed_size = Some true ->
          exists r, ratio_string compressed_size total_size = Some r
                    /\ summary_field id "compression_ratio" st' = Some (JStr r))
         /\ (json_gt0 total_size = Some false
             \/ json_gt0 compressed_size = Some false ->
             summary_field id "compression_ratio" st' = Some (JStr "0%"))).
Proof.
  intros Hs Hrs st'.
  assert (Hfield : summary_field id "compression_ratio" st'
                   = s !! "compression_ratio").
  { unfold summary_field, st'. rewrite summary_of_store_borg_info, Hs.
    reflexivity. }
  rewrite Hfield.
  destruct (summary_from_borg_info_inv _ _ _ _ _ _ _ Hs)
    as (n & rs & c2 & loc & _ & Hrs' & Hst & _ & ->).
  assert (rs = repo_stats) by congruence. subst rs.
  assert (Hfinal : forall (m : gmap string json),
    setdefault "schedule_status" (JStr "unknown")
      (setdefault "status" (JStr "unknown")
         (setdefault "backup_type" (JStr "borgmatic")
            (<["job_id" := JStr id]>
               (<["last_updated" := JStr now]>
                  (match loc with
                   | Some l => <["repository_path" := l]> m
                   | None => m
                   end))))) !! "compression_ratio" = m !! "compression_ratio").
  { intros m. repeat (rewrite lookup_setdefault_ne by discriminate).
    rewrite !lookup_insert_ne by discriminate.
    destruct loc; [by rewrite lookup_insert_ne by discriminate|reflexivity]. }
  rewrite Hfinal.
  destruct (size_statistics_ratio _ _ _ Hst) as [Hno Hyes].
  split.
  - intros Hf. rewrite (Hno Hf).
    rewrite lookup_insert_ne by discriminate.
    unfold summary_field. destruct (summary_of id st); simpl;
      [reflexivity|by rewrite lookup_empty].
  - intros Ht. exact (Hyes Ht).
Qed.

End CompressionRatio.

(** C3, counterexample. With [total_size = 100] and [total_csize = 0] the
    formula gives ["100.0%"], and [store_borg_info] stores ["0%"]; with no
    cache statistics on a job without a summary it stores no
    [compression_ratio] at all. *)
Lemma compression_ratio_counterexample :
  ratio_string (JInt 0) (JInt 100) = Some "100.0%"
  /\ summary_field "job" "compression_ratio"
       (fst (store_borg_info no_float_of_str "job" "2024-01-01T00:00:00"
               stats_100_0 [] ∅))
     = Some (JStr "0%")
  /\ summary_field "job" "compression_ratio"
       (fst (store_borg_info no_float_of_str "job" "2024-01-01T00:00:00" [] [] ∅))
     = None.
Proof. vm_compute. auto. Qed.

Lemma compression_ratio_stored_witness :
  summary_field "job" "compression_ratio"
    (fst (store_borg_info no_float_of_str "job" "2024-01-01T00:00:00"
            stats_1000_250 [] ∅))
  = Some (JStr "75.0%").
Proof.
  destruct (compression_ratio_stored no_float_of_str "job" "2024-01-01T00:00:00"
              stats_1000_250 [] ∅
              (default ∅ (summary_from_borg_info no_float_of_str "job"
                            "2024-01-01T00:00:00" stats_1000_250 (JList [])
                            (default ∅ (summary_of "job" ∅))))
              (JObj [("total_size", JInt 1000); ("total_csize", JInt 250);
                     ("unique_size", JInt 100)]))
    as [_ H].
  - vm_compute. reflexivity.
  - reflexivity.
  - destruct (H eq_refl) as (stats & Hstats & Hpos & _).
    inversion Hstats; subst stats.
    destruct (Hpos eq_refl eq_refl) as (r & Hr & Hfield).
    vm_compute in Hr. inversion Hr; subst r. exact Hfield.
Defined.

(** ** Replaying a snapshot *)

Lemma lookup_snapshot_defaults (m : gmap string json) (k : string) :
  setdefault "schedule_status" (JStr "unknown")
    (setdefault "status" (JStr "unknown")
       (setdefault "backup_type" (JStr "borgmatic") m)) !! k
  = match m !! k with
    | Some x => Some x
    | None => snapshot_default k
    end.
Proof.
  unfold snapshot_default.
  destruct (String.eqb_spec k "backup_type") as [->|H1].
  { repeat (rewrite lookup_setdefault_ne by discriminate).
    rewrite lookup_setdefault_eq. by destruct (m !! "backup_type"). }
  destruct (String.eqb_spec k "status") as [->|H2].
  { rewrite lookup_setdefault_ne by discriminate.
    rewrite lookup_setdefault_eq.
    rewrite lookup_setdefault_ne by discriminate. by destruct (m !! "status"). }
  destruct (String.eqb_spec k "schedule_status") as [->|H3].
  { rewrite lookup_setdefault_eq.
    repeat (rewrite lookup_setdefault_ne by discriminate).
    by destruct (m !! "schedule_status"). }
  repeat (rewrite lookup_setdefault_ne by congruence).
  by destruct (m !! k).
Qed.

Section Replay.

Variable float_of_str : string -> option spec_float.

(** The statistics block is an overlay that does not read the cache. *)
Lemma size_statistics_overlay (repo_stats : json) (c c' : gmap string json) :
  size_statistics float_of_str repo_stats c = Some c' ->
  exists o : gmap string json,
    forall c0, size_statistics float_of_str repo_stats c0 = Some (o ∪ c0).
Proof.
  unfold size_statistics. intros H.
  destruct (truthy repo_stats).
  2:{ exists ∅. intros c0. by rewrite (left_id_L ∅ (∪)). }
  destruct repo_stats as [| | | | | |st]; try discriminate.
  destruct (_format_size _ (default (JInt 0) (assoc_get "total_size" st)))
    as [full|]; simpl in H; [|discriminate].
  destruct (_format_size _ (default (JInt 0) (assoc_get "total_csize" st)))
    as [comp|]; simpl in H; [|discriminate].
  destruct (_format_size _ (default (JInt 0) (assoc_get "unique_size" st)))
    as [dedup|]; simpl in H; [|discriminate].
  simpl.
  destruct (json_gt0 (default (JInt 0) (assoc_get "total_size" st)))
    as [[|]|]; try discriminate.
  - destruct (json_gt0 (default (JInt 0) (assoc_get "total_csize" st)))
      as [[|]|]; try discriminate.
    + destruct (ratio_string _ _) as [r|]; simpl in H; [|discriminate].
      exists (<["compression_ratio" := JStr r]>
                (<["deduplicated_size" := JStr dedup]>
                   (<["compressed_size" := JStr comp]>
                      (<["full_size" := JStr full]> ∅)))).
      intros c0. simpl. by rewrite <- !insert_union_l, (left_id_L ∅ (∪)).
    + exists (<["compression_ratio" := JStr "0%"]>
                (<["deduplicated_size" := JStr dedup]>
                   (<["compressed_size" := JStr comp]>
                      (<["full_size" := JStr full]> ∅)))).
      intros c0. by rewrite <- !insert_union_l, (left_id_L ∅ (∪)).
  - exists (<["compression_ratio" := JStr "0%"]>
              (<["deduplicated_size" := JStr dedup]>
                 (<["compressed_size" := JStr comp]>
                    (<["full_size" := JStr full]> ∅)))).
    intros c0. by rewrite <- !insert_union_l, (left_id_L ∅ (∪)).
Qed.

(** A snapshot update that reaches its dump is, for every cache and every
    clock reading, the same overlay followed by the stamp, the job id and
    the three defaults. *)
Lemma summary_from_borg_info_overlay (id now : string)
    (repository_info : list (string * json)) (archive_list : json)
    (c s : gmap string json) :
  summary_from_borg_info float_of_str id now repository_info archive_list c
  = Some s ->
  exists o : gmap string json,
    forall now0 c0,
      summary_from_borg_info float_of_str id now0 repository_info
        archive_list c0
      = Some (setdefault "schedule_status" (JStr "unknown")
                (setdefault "status" (JStr "unknown")
                   (setdefault "backup_type" (JStr "borgmatic")
                      (<["job_id" := JStr id]>
                         (<["last_updated" := JStr now0]> (o ∪ c0)))))).
Proof.
  intros H.
  destruct (summary_from_borg_info_inv _ _ _ _ _ _ _ H)
    as (n & rs & c2 & loc & Hn & Hrs & Hst & Hloc & _).
  destruct (size_statistics_overlay _ _ _ Hst) as [o Ho].
  exists (match loc with
          | Some l => <["repository_path" := l]> (o ∪ <["archive_count" := JInt n]> ∅)
          | None => o ∪ <["archive_count" := JInt n]> ∅
          end).
  intros now0 c0. unfold summary_from_borg_info.
  rewrite Hn. simpl. rewrite Hrs. simpl. rewrite Ho. simpl.
  rewrite Hloc. simpl. do 6 f_equal.
  assert (Hassoc : o ∪ <["archive_count" := JInt n]> c0
                   = (o ∪ <["archive_count" := JInt n]> ∅) ∪ c0).
  { rewrite <- (assoc_L (∪)). f_equal.
    by rewrite <- insert_union_l, (left_id_L ∅ (∪)). }
  destruct loc; rewrite Hassoc; [by rewrite insert_union_l|reflexivity].
Qed.

End Replay.

Section Idempotence.

Variable float_of_str : string -> option spec_float.

(** The dictionary of a replayed update agrees with the first one on
    every key but [last_updated]. *)
Lemma summary_from_borg_info_replay (id now1 now2 : string)
    (repository_info : list (string * json)) (archive_list : json)
    (c s1 : gmap string json) :
  summary_from_borg_info float_of_str id now1 repository_info archive_list c
  = Some s1 ->
  exists s2,
    summary_from_borg_info float_of_str id now2 repository_info archive_list s1
    = Some s2
    /\ delete "last_updated" s2 = delete "last_updated" s1.
Proof.
  intros H.
  destruct (summary_from_borg_info_overlay _ _ _ _ _ _ _ H) as [o Ho].
  rewrite Ho in H. inversion H as [Hs1]. clear H. clear Hs1.
  eexists. split; [apply Ho|].
  apply map_eq. intros k.
  destruct (decide (k = "last_updated")) as [->|Hk].
  { by rewrite !lookup_delete_eq. }
  rewrite !lookup_delete_ne by congruence.
  rewrite !lookup_snapshot_defaults.
  destruct (decide (k = "job_id")) as [->|Hj].
  { by rewrite !lookup_insert_eq. }
  rewrite !lookup_insert_ne by congruence.
  rewrite !lookup_union.
  destruct (o !! k) as [v|] eqn:Eo.
  { assert (Hl : forall y : option json, Some v ∪ y = Some v)
      by (by intros [?|]).
    by rewrite !Hl. }
  rewrite !(left_id_L None union).
  rewrite lookup_snapshot_defaults.
  rewrite !lookup_insert_ne by congruence.
  rewrite lookup_union, Eo, (left_id_L None union).
  destruct (c !! k) as [x|]; [reflexivity|].
  destruct (snapshot_default k); reflexivity.
Qed.

(** C8. Idempotence: [store_borg_info] called twice with the same
    repository info and archive list leaves the same job summary as
    calling it once, but for [last_updated]; the two files
    [repository_info.json] and [archives.json] are the same as well. *)
Theorem store_borg_info_idempotent (id now1 now2 : string)
    (repo_info : list (string * json)) (archive_list : list json)
    (st : gmap string job_dir) :
  let once := fst (store_borg_info float_of_str id now1 repo_info
                     archive_list st) in
  let twice := fst (store_borg_info float_of_str id now2 repo_info
                      archive_list once) in
  delete "last_updated" <$> summary_of id twice
  = delete "last_updated" <$> summary_of id once
  /\ (archives <$> twice !! id) = (archives <$> once !! id)
  /\ (repository_info <$> twice !! id) = (repository_info <$> once !! id).
Proof.
  intros once twice. split.
  - unfold twice. rewrite summary_of_store_borg_info.
    unfold once at 1 2. rewrite summary_of_store_borg_info.
    destruct (summary_from_borg_info float_of_str id now1 repo_info
                (JList archive_list) (default ∅ (summary_of id st)))
      as [s1|] eqn:E1; simpl.
    + destruct (summary_from_borg_info_replay id now1 now2 _ _ _ _ E1)
        as (s2 & E2 & Heq).
      rewrite E2. unfold once. rewrite summary_of_store_borg_info, E1.
      simpl. by rewrite Heq.
    + destruct (summary_from_borg_info float_of_str id now2 repo_info
                  (JList archive_list) (default ∅ (summary_of id st)))
        as [s2|] eqn:E2.
      * destruct (summary_from_borg_info_overlay _ _ _ _ _ _ _ E2) as [o Ho].
        rewrite Ho in E1. discriminate.
      * unfold once. rewrite summary_of_store_borg_info, E1. reflexivity.
  - unfold twice, once, store_borg_info, the_dir,
      _update_summary_from_borg_info. simpl.
    rewrite !lookup_insert_eq. simpl.
    split; repeat (match goal with
                   | |- context [summary_from_borg_info ?a ?b ?c ?d ?e ?f] =>
                       destruct (summary_from_borg_info a b c d e f)
                   end; simpl); reflexivity.
Qed.

End Idempotence.

Lemma run_and_archive_set_fields_witness :
  snd (store_backup_run "job" run_a "t1" "t2" ∅) = Returned
  /\ summary_field "job" "status"
       (fst (store_borg_info no_float_of_str "job" "t3" stats_1000_250
               [JObj [("name", JStr "a")]]
               (fst (store_backup_run "job" run_a "t1" "t2" ∅))))
     = Some (JStr "success").
Proof.
  split; [reflexivity|].
  exact (proj1 (proj2 (proj1
           (run_and_archive_set_fields no_float_of_str "job" run_a "t1" "t2"
              "t3" stats_1000_250 [JObj [("name", JStr "a")]] ∅ eq_refl)))).
Defined.

(** Both orders on a job without data: the summary holds the run's status
    and the snapshot's archive count and sizes. *)
Example run_then_archive_set :
  let st := fst (store_borg_info no_float_of_str "job" "t3" stats_1000_250
                   [JObj [("name", JStr "a")]]
                   (fst (store_backup_run "job" run_a "t1" "t2" ∅))) in
  summary_field "job" "status" st = Some (JStr "success")
  /\ summary_field "job" "last_backup" st = Some (JStr "2024-01-01T00:00:00")
  /\ summary_field "job" "archive_count" st = Some (JInt 1)
  /\ summary_field "job" "full_size" st = Some (JStr "1000.0 B")
  /\ summary_field "job" "compression_ratio" st = Some (JStr "75.0%").
Proof. vm_compute. auto 6. Qed.

Example archive_set_then_run :
  let st := fst (store_backup_run "job" run_a "t1" "t2"
                   (fst (store_borg_info no_float_of_str "job" "t3"
                           stats_1000_250 [JObj [("name", JStr "a")]] ∅))) in
  summary_field "job" "status" st = Some (JStr "success")
  /\ summary_field "job" "last_backup" st = Some (JStr "2024-01-01T00:00:00")
  /\ summary_field "job" "archive_count" st = Some (JInt 1)
  /\ summary_field "job" "full_size" st = Some (JStr "1000.0 B")
  /\ summary_field "job" "compression_ratio" st = Some (JStr "75.0%").
Proof. vm_compute. auto 6. Qed.

(** The two events of the gating example on a job without data. *)
Example event_step_a :
  summary_field "job" "status"
    (fst (store_event "job" "success" "ok" None
            (Some [("action", JStr "step-a")]) "t1" "0a1b2c3d" "t2" ∅))
  = None.
Proof. vm_compute. reflexivity. Qed.

Example event_everything :
  let st := fst (store_event "job" "success" "ok" None
                   (Some [("action", JStr "everything")]) "t1" "0a1b2c3d"
                   "t2" ∅) in
  summary_field "job" "status" st = Some (JStr "success")
  /\ summary_field "job" "last_successful_backup" st = Some (JStr "t1").
Proof. vm_compute. auto. Qed.

(** ** The order on timestamps *)

Lemma ascii_compare_N (a b : ascii) :
  Ascii.compare a b = N.compare (N_of_ascii a) (N_of_ascii b).
Proof. reflexivity. Qed.

Lemma string_compare_le_trans (a b c : string) :
  String.compare a b <> Gt -> String.compare b c <> Gt ->
  String.compare a c <> Gt.
Proof.
  revert b c. induction a as [|x a IH]; intros b c Hab Hbc.
  - destruct c; discriminate.
  - destruct b as [|y b]; [simpl in Hab; congruence|].
    destruct c as [|z c]; [simpl in Hbc; congruence|].
    simpl in *. rewrite ascii_compare_N in *.
    destruct (N.compare_spec (N_of_ascii x) (N_of_ascii y)) as [Exy|Lxy|Gxy];
      try congruence;
      destruct (N.compare_spec (N_of_ascii y) (N_of_ascii z)) as [Eyz|Lyz|Gyz];
      try congruence;
      destruct (N.compare_spec (N_of_ascii x) (N_of_ascii z)) as [Exz|Lxz|Gxz];
      try discriminate; try lia.
    eapply IH; eassumption.
Qed.

Lemma string_leb_trans (a b c : string) :
  String.leb a b = true -> String.leb b c = true -> String.leb a c = true.
Proof.
  unfold String.leb. intros Hab Hbc.
  pose proof (string_compare_le_trans a b c) as H.
  destruct (String.compare a b); destruct (String.compare b c);
    destruct (String.compare a c); try reflexivity; try discriminate;
    exfalso; apply H; congruence.
Qed.

Lemma string_ltb_leb (a b : string) :
  String.ltb a b = true -> String.leb a b = true.
Proof.
  unfold String.ltb, String.leb. destruct (String.compare a b); congruence.
Qed.

Lemma string_ltb_false_leb (a b : string) :
  String.ltb a b = false -> String.leb b a = true.
Proof.
  unfold String.ltb, String.leb. rewrite (String.compare_antisym a b).
  destruct (String.compare b a); simpl; congruence.
Qed.

(** ** The run list *)

Lemma insert_desc_Permutation (x : run_entry) (l : list run_entry) :
  Permutation (insert_desc x l) (x :: l).
Proof.
  induction l as [|y l IH]; simpl; [reflexivity|].
  destruct (String.ltb (re_timestamp x) (re_timestamp y)); [|reflexivity].
  rewrite IH. apply perm_swap.
Qed.

Lemma sort_desc_Permutation (l : list run_entry) :
  Permutation (sort_desc l) l.
Proof.
  induction l as [|x l IH]; simpl; [reflexivity|].
  rewrite insert_desc_Permutation. by constructor.
Qed.

Lemma insert_desc_sorted (x : run_entry) (l : list run_entry) :
  StronglySorted not_older l -> StronglySorted not_older (insert_desc x l).
Proof.
  induction l as [|y l IH]; intros Hs; simpl.
  - repeat constructor.
  - inversion Hs as [|? ? Hl Hy]; subst.
    destruct (String.ltb (re_timestamp x) (re_timestamp y)) eqn:E.
    + constructor; [by apply IH|].
      rewrite (insert_desc_Permutation x l). constructor; [|exact Hy].
      by apply string_ltb_leb.
    + constructor; [exact Hs|]. constructor.
      * by apply string_ltb_false_leb.
      * eapply Forall_impl; [exact Hy|]. intros z Hz. unfold not_older in *.
        eapply string_leb_trans; [exact Hz|]. by apply string_ltb_false_leb.
Qed.

Lemma sort_desc_sorted (l : list run_entry) :
  StronglySorted not_older (sort_desc l).
Proof.
  induction l as [|x l IH]; simpl; [constructor|by apply insert_desc_sorted].
Qed.

Lemma In_firstn_In {A : Type} (x : A) (n : nat) (l : list A) :
  In x (firstn n l) -> In x l.
Proof.
  rewrite <- !list_elem_of_In. intros H.
  eapply elem_of_sublist; [exact H|apply sublist_take].
Qed.

Lemma firstn_sorted (n : nat) (l : list run_entry) :
  StronglySorted not_older l -> StronglySorted not_older (firstn n l).
Proof.
  revert n. induction l as [|x l IH]; intros [|n] Hs; simpl; try constructor.
  - inversion Hs; subst. by apply IH.
  - inversion Hs as [|? ? _ Hx]; subst.
    rewrite Forall_forall in *. intros y Hy. apply Hx.
    eapply elem_of_sublist; [exact Hy|apply sublist_take].
Qed.

(** The loop keeps the ids where they are. *)
Lemma replace_first_ids (e : run_entry) (l l' : list run_entry) :
  replace_first e l = Some l' -> map re_id l' = map re_id l.
Proof.
  revert l'. induction l as [|x l IH]; intros l' H; simpl in H; [discriminate|].
  destruct (String.eqb_spec (re_id x) (re_id e)) as [Heq|Hne].
  - inversion H; subst. simpl. by rewrite Heq.
  - destruct (replace_first e l) as [l0|]; simpl in H; [|discriminate].
    inversion H; subst. simpl. f_equal. by apply IH.
Qed.

Lemma replace_first_In (e : run_entry) (l l' : list run_entry) :
  replace_first e l = Some l' -> In e l'.
Proof.
  revert l'. induction l as [|x l IH]; intros l' H; simpl in H; [discriminate|].
  destruct (String.eqb (re_id x) (re_id e)).
  - inversion H; subst. by left.
  - destruct (replace_first e l) as [l0|]; simpl in H; [|discriminate].
    inversion H; subst. right. by apply IH.
Qed.

Lemma replace_first_None (e : run_entry) (l : list run_entry) :
  replace_first e l = None <-> ~ In (re_id e) (map re_id l).
Proof.
  induction l as [|x l IH]; simpl; [tauto|].
  destruct (String.eqb_spec (re_id x) (re_id e)) as [Heq|Hne].
  - split; [discriminate|]. intros H. exfalso. apply H. by left.
  - destruct (replace_first e l) as [l0|]; simpl.
    + split; [discriminate|]. intros H. exfalso.
      destruct IH as [_ IH]. assert (Some l0 = None); [|discriminate].
      apply IH. tauto.
    + split; [|reflexivity]. intros _ [H|H]; [congruence|].
      destruct IH as [IH _]. by apply IH.
Qed.

(** With one record per id before, the only record of the new id after
    the upsert is the new entry. *)
Lemma replace_first_unique (e : run_entry) (l l' : list run_entry) :
  NoDup (map re_id l) -> replace_first e l = Some l' ->
  forall r, In r l' -> re_id r = re_id e -> r = e.
Proof.
  revert l'. induction l as [|x l IH]; intros l' Hnd H r Hr Hid;
    simpl in H; [discriminate|].
  inversion Hnd as [|? ? Hx Hl]; subst.
  destruct (String.eqb_spec (re_id x) (re_id e)) as [Heq|Hne].
  - inversion H; subst. destruct Hr as [Hr|Hr]; [by symmetry|].
    exfalso. apply Hx. rewrite Heq, <- Hid.
    apply list_elem_of_In. by apply in_map.
  - destruct (replace_first e l) as [l0|] eqn:E; simpl in H; [|discriminate].
    inversion H; subst. destruct Hr as [Hr|Hr]; [subst; congruence|].
    eapply IH; eauto.
Qed.

Lemma upsert_run_ids (e : run_entry) (l : list run_entry) :
  NoDup (map re_id l) -> NoDup (map re_id (upsert_run e l)).
Proof.
  intros Hnd. unfold upsert_run.
  destruct (replace_first e l) as [l'|] eqn:E.
  - by rewrite (replace_first_ids _ _ _ E).
  - apply replace_first_None in E.
    rewrite map_app. simpl. apply NoDup_app. repeat split.
    + exact Hnd.
    + intros x Hx Hin. apply list_elem_of_In in Hx.
      apply list_elem_of_singleton in Hin. subst. contradiction.
    + apply NoDup_singleton.
Qed.

Lemma upsert_run_unique (e : run_entry) (l : list run_entry) :
  NoDup (map re_id l) ->
  forall r, In r (upsert_run e l) -> re_id r = re_id e -> r = e.
Proof.
  intros Hnd r Hr Hid. unfold upsert_run in Hr.
  destruct (replace_first e l) as [l'|] eqn:E.
  - eapply replace_first_unique; eauto.
  - apply replace_first_None in E. apply in_app_or in Hr as [Hr|[Hr|[]]].
    + exfalso. apply E. rewrite <- Hid. by apply in_map.
    + by symmetry.
Qed.

(** The list that an update dumps satisfies the invariant, and holds no
    record of the new id other than the new entry. *)
Lemma runs_after_invariant (e : run_entry) (l : list run_entry) :
  NoDup (map re_id l) ->
  runs_invariant (runs_after e l)
  /\ (forall r, In r (runs_after e l) -> re_id r = re_id e -> r = e).
Proof.
  intros Hnd. unfold runs_invariant, runs_after. repeat split.
  - rewrite <- firstn_map. eapply sublist_NoDup; [|apply sublist_take].
    rewrite (Permutation_map re_id (sort_desc_Permutation _)).
    by apply upsert_run_ids.
  - apply firstn_sorted, sort_desc_sorted.
  - apply firstn_le_length.
  - intros r Hr Hid. apply In_firstn_In in Hr.
    apply (upsert_run_unique e l Hnd r); [|exact Hid].
    eapply Permutation_in; [apply sort_desc_Permutation|exact Hr].
Qed.

(** An update for an id that the list holds replaces that record: the
    list keeps its length and holds the new entry. *)
Lemma runs_after_existing (e : run_entry) (l : list run_entry) :
  In (re_id e) (map re_id l) -> (List.length l <= max_runs)%nat ->
  In e (runs_after e l)
  /\ List.length (runs_after e l) = List.length l
  /\ map re_id (upsert_run e l) = map re_id l.
Proof.
  intros Hin Hlen. unfold runs_after, upsert_run.
  destruct (replace_first e l) as [l'|] eqn:E.
  2:{ apply replace_first_None in E. contradiction. }
  pose proof (replace_first_ids _ _ _ E) as Hids.
  assert (Hl' : List.length l' = List.length l).
  { rewrite <- (length_map re_id l'), Hids. apply length_map. }
  assert (Hsort : List.length (sort_desc l') = List.length l).
  { rewrite <- Hl'. apply Permutation_length, sort_desc_Permutation. }
  rewrite firstn_all2 by lia. repeat split; try assumption.
  eapply Permutation_in; [symmetry; apply sort_desc_Permutation|].
  eapply replace_first_In; eauto.
Qed.

(** A run list built from nothing by updates with distinct ids, as long
    as no more than [max_runs] of them came in. *)
Lemma runs_fold_small (es : list run_entry) :
  NoDup (map re_id es) -> (List.length es <= max_runs)%nat ->
  Permutation (fold_left (fun l e => runs_after e l) es []) es.
Proof.
  induction es as [|e es IH] using rev_ind; intros Hnd Hlen; [reflexivity|].
  rewrite fold_left_app. simpl.
  rewrite map_app in Hnd. apply NoDup_app in Hnd as (Hnd & Hfresh & _).
  rewrite length_app in Hlen. simpl in Hlen.
  specialize (IH Hnd ltac:(lia)).
  set (l := fold_left (fun l e => runs_after e l) es []) in *.
  assert (Hnew : replace_first e l = None).
  { apply replace_first_None. intros Hin.
    apply (Hfresh (re_id e)).
    - apply list_elem_of_In.
      eapply Permutation_in; [apply Permutation_map; exact IH|exact Hin].
    - simpl. apply list_elem_of_singleton. reflexivity. }
  unfold runs_after, upsert_run. rewrite Hnew.
  rewrite firstn_all2.
  - rewrite sort_desc_Permutation. by apply Permutation_app_tail.
  - rewrite (Permutation_length (sort_desc_Permutation _)), length_app.
    rewrite (Permutation_length IH). simpl. lia.
Qed.

(** The update that evicts: [max_runs] distinct runs are there and one
    more comes in. *)
Lemma runs_fold_evict (es : list run_entry) (e : run_entry) :
  NoDup (map re_id (es ++ [e])) -> List.length es = max_runs ->
  exists evicted,
    let final := fold_left (fun l e => runs_after e l) (es ++ [e]) [] in
    List.length final = max_runs
    /\ Permutation (evicted :: final) (es ++ [e])%list
    /\ Forall (fun r => not_older r evicted) final.
Proof.
  intros Hnd Hlen. rewrite fold_left_app. simpl.
  pose proof Hnd as Hnd'.
  rewrite map_app in Hnd'. apply NoDup_app in Hnd' as (Hnd1 & Hfresh & _).
  pose proof (runs_fold_small es Hnd1 ltac:(lia)) as Hperm.
  set (l := fold_left (fun l e => runs_after e l) es []) in *.
  assert (Hnew : replace_first e l = None).
  { apply replace_first_None. intros Hin.
    apply (Hfresh (re_id e)).
    - apply list_elem_of_In.
      eapply Permutation_in; [apply Permutation_map; exact Hperm|exact Hin].
    - simpl. apply list_elem_of_singleton. reflexivity. }
  unfold runs_after, upsert_run. rewrite Hnew.
  set (S := sort_desc (l ++ [e])).
  assert (HS : Permutation S (es ++ [e])%list).
  { unfold S. rewrite sort_desc_Permutation. by apply Permutation_app_tail. }
  assert (HlenS : List.length S = Datatypes.S max_runs).
  { rewrite (Permutation_length HS), length_app. simpl. lia. }
  assert (Hdrop : exists evicted, drop max_runs S = [evicted]).
  { pose proof (length_drop S max_runs) as Hd. rewrite HlenS in Hd.
    destruct (drop max_runs S) as [|x [|y r]] eqn:E; simpl in Hd; try lia.
    by exists x. }
  destruct Hdrop as [evicted Hev]. exists evicted.
  assert (Hsplit : S = (firstn max_runs S ++ [evicted])%list).
  { rewrite <- Hev. symmetry. apply take_drop. }
  repeat split.
  - rewrite length_take. lia.
  - rewrite <- HS. rewrite Hsplit at 2.
    rewrite Permutation_app_comm. reflexivity.
  - apply Forall_forall. intros r Hr.
    pose proof (sort_desc_sorted (l ++ [e])) as Hsorted. fold S in Hsorted.
    rewrite Hsplit in Hsorted.
    eapply StronglySorted_app_1_elem_of; [exact Hsorted|exact Hr|].
    apply list_elem_of_singleton. reflexivity.
Qed.

Lemma runs_of_store_backup_run (id : string) (rd : run_data)
    (now1 now2 : string) (st : gmap string job_dir) :
  runs_of id (fst (store_backup_run id rd now1 now2 st))
  = match run_duration rd with
    | Some _ => Some (runs_after (entry_of rd) (default [] (runs_of id st)))
    | None => runs_of id st
    end.
Proof.
  unfold store_backup_run, runs_of, the_dir, entry_of.
  destruct (run_duration rd) as [dur|] eqn:Hd; simpl;
    rewrite lookup_insert_eq.
  - unfold _update_job_summary, _update_runs_from_run. rewrite Hd. simpl.
    destruct (st !! id) as [d|]; destruct (log_lines rd); reflexivity.
  - destruct (st !! id) as [d|]; reflexivity.
Qed.

Lemma runs_of_store_runs (id : string)
    (calls : list (run_data * (string * string))) (st : gmap string job_dir) :
  Forall (fun c => is_Some (run_duration (fst c))) calls ->
  default [] (runs_of id (store_runs id calls st))
  = fold_left (fun l e => runs_after e l) (map (fun c => entry_of (fst c)) calls)
      (default [] (runs_of id st)).
Proof.
  revert st. induction calls as [|c calls IH]; intros st Hall; [reflexivity|].
  inversion Hall as [|? ? [dur Hd] Hrest]; subst.
  unfold store_runs in *. simpl. rewrite IH by exact Hrest.
  rewrite runs_of_store_backup_run, Hd. reflexivity.
Qed.

Lemma store_runs_is_Some (id : string)
    (calls : list (run_data * (string * string))) (st : gmap string job_dir) :
  Forall (fun c => is_Some (run_duration (fst c))) calls ->
  calls <> [] -> is_Some (runs_of id (store_runs id calls st)).
Proof.
  revert st. induction calls as [|c calls IH]; intros st Hall Hne;
    [congruence|].
  inversion Hall as [|? ? [dur Hd] Hrest]; subst.
  destruct calls as [|c' calls'].
  - unfold store_runs. simpl. rewrite runs_of_store_backup_run, Hd. eauto.
  - change (store_runs id (c :: c' :: calls') st)
      with (store_runs id (c' :: calls')
              (fst (store_backup_run id (fst c) (fst (snd c)) (snd (snd c)) st))).
    apply IH; [exact Hrest|discriminate].
Qed.

(** X30. The run list.  After every [store_backup_run] call that stored
    its run, on a list with at most one record per run id (or no list
    yet): the list holds at most one record per id, is sorted by the ISO
    strings of its start timestamps, greatest first, and has at most 100
    entries; the only record of the call's run id is the call's entry, and
    when the id was there before, the entry is in the list, whose length
    is unchanged.  Storing 101 runs with distinct ids for a job without a
    run list retains exactly 100 of them, and the timestamp string of the
    one evicted is not greater than that of any retained one. *)
Theorem runs_list_invariant :
  (forall (id : string) (rd : run_data) (now1 now2 : string)
          (st : gmap string job_dir),
      NoDup (map re_id (default [] (runs_of id st))) ->
      snd (store_backup_run id rd now1 now2 st) = Returned ->
      exists l',
        runs_of id (fst (store_backup_run id rd now1 now2 st)) = Some l'
        /\ runs_invariant l'
        /\ (forall r, In r l' -> re_id r = run_id rd -> r = entry_of rd)
        /\ (In (run_id rd) (map re_id (default [] (runs_of id st))) ->
            (List.length (default [] (runs_of id st)) <= max_runs)%nat ->
            In (entry_of rd) l'
            /\ List.length l' = List.length (default [] (runs_of id st))))
  /\ (forall (id : string) (calls : list (run_data * (string * string)))
             (st : gmap string job_dir),
         runs_of id st = None ->
         List.length calls = 101%nat ->
         NoDup (map (fun c => run_id (fst c)) calls) ->
         Forall (fun c => snd (store_backup_run id (fst c) (fst (snd c))
                                 (snd (snd c)) st) = Returned) calls ->
         exists kept evicted,
           runs_of id (store_runs id calls st) = Some kept
           /\ List.length kept = 100%nat
           /\ Permutation (evicted :: kept) (map (fun c => entry_of (fst c)) calls)
           /\ Forall (fun r => not_older r evicted) kept).
Proof.
  split.
  - intros id rd now1 now2 st Hnd Hret.
    destruct (store_backup_run_returned _ _ _ _ _ Hret) as [dur Hd].
    rewrite runs_of_store_backup_run, Hd.
    eexists. split; [reflexivity|].
    destruct (runs_after_invariant (entry_of rd) _ Hnd) as [Hinv Huniq].
    repeat split; try apply Hinv.
    + exact Huniq.
    + by apply runs_after_existing.
    + by apply runs_after_existing.
  - intros id calls st Hnone Hlen Hnd Hall.
    assert (Hstored : Forall (fun c => is_Some (run_duration (fst c))) calls).
    { eapply Forall_impl; [exact Hall|]. intros c Hc. simpl in Hc.
      destruct (store_backup_run_returned _ _ _ _ _ Hc) as [dur Hd]. eauto. }
    destruct (store_runs_is_Some id calls st Hstored) as [kept Hkept].
    { intros ->. discriminate. }
    pose proof (runs_of_store_runs id calls st Hstored) as Hfold.
    rewrite Hkept, Hnone in Hfold. simpl in Hfold.
    destruct (exists_last (l := calls)) as (calls' & c & ->).
    { intros ->. discriminate. }
    rewrite length_app in Hlen. simpl in Hlen.
    rewrite map_app in Hfold. simpl in Hfold.
    destruct (runs_fold_evict (map (fun c => entry_of (fst c)) calls')
                (entry_of (fst c))) as (evicted & Hl & Hperm & Hforall).
    { rewrite map_app in Hnd. rewrite map_app, map_map. exact Hnd. }
    { rewrite length_map. unfold max_runs. lia. }
    cbv zeta in Hl, Hperm, Hforall. rewrite <- Hfold in Hl, Hperm, Hforall.
    exists kept, evicted. rewrite map_app. simpl. auto.
Qed.

(** C7, at a failing input: runs pushed with different UTC offsets.  The
    list is ordered by the ISO strings of the start timestamps, so the run
    that started at 00:00 UTC, written [09:00:00+09:00], stands before the
    run that started five hours later, written [05:00:00+00:00], and
    [get_job_runs] with limit 1 answers with the older run.  After a
    hundred further runs of the first kind the list has 100 entries and
    the newest run of all is the one that is gone. *)
Theorem runs_mixed_offsets_out_of_order :
  let two := store_runs "job" [pushed run_tokyo; pushed run_utc] ∅ in
  let many := store_runs "job"
                (pushed run_utc :: map (fun n => pushed (tokyo_run n)) (seq 0 100))
                ∅ in
  option_map (map re_id) (runs_of "job" two) = Some ["tokyo"; "utc"]
  /\ map re_id (get_job_runs "job" 1 two) = ["tokyo"]
  /\ dt_us (start_time run_tokyo) < dt_us (start_time run_utc)
  /\ option_map (@List.length run_entry) (runs_of "job" many) = Some 100%nat
  /\ option_map (fun l => existsb (String.eqb "utc") (map re_id l))
       (runs_of "job" many) = Some false
  /\ forallb (fun n => dt_us (start_time (tokyo_run n))
                       <? dt_us (start_time run_utc)) (seq 0 100) = true.
Proof. vm_compute. repeat split. Qed.

(** ** Repository labels *)

(** On a non-empty list in which no repository carries the label, the
    filter answers with the first repository. *)
Lemma filter_borgmatic_data_no_match (repository_label : string)
    (first : list (string * json)) (rest : list (list (string * json))) :
  repository_label <> "" ->
  find_label repository_label (first :: rest) = Some None ->
  filter_borgmatic_data (BList (first :: rest)) repository_label = first.
Proof.
  intros Hne Hfind. unfold filter_borgmatic_data.
  destruct (String.eqb_spec repository_label "") as [?|_]; [contradiction|].
  rewrite Hfind. reflexivity.
Qed.

(** The route then hands that repository to the store instead of
    raising. *)
Lemma select_repository_no_match (repository_label : string)
    (first : list (string * json)) (rest : list (list (string * json))) :
  repository_label <> "" ->
  find_label repository_label (first :: rest) = Some None ->
  first <> [] ->
  select_repository (BList (first :: rest)) (Some repository_label)
  = inl (BDict first).
Proof.
  intros Hne Hfind Hfirst. unfold select_repository. simpl default.
  destruct (String.eqb_spec repository_label "") as [?|_]; [contradiction|].
  simpl negb. rewrite andb_false_r.
  rewrite (filter_borgmatic_data_no_match _ _ _ Hne Hfind).
  destruct first; [contradiction|reflexivity].
Qed.

(** C4, at the failing input: the label ["offsite"] matches no repository
    of the list, and both routes answer with success and store the first
    repository, labelled ["local"]. *)
Theorem push_borgmatic_unresolved_label :
  let info := push_borgmatic_info no_float_of_str "job" "t1"
                (BList [repo_local]) (Some "offsite") ∅ in
  let rinfo := push_borgmatic_rinfo no_float_of_str "job" "t1"
                 (BList [repo_local]) (Some "offsite") ∅ in
  find_label "offsite" [repo_local] = Some None
  /\ snd info = Success200 "Borgmatic repository info stored successfully"
  /\ (repository_info <$> fst info !! "job")
     = Some (Some (JObj [("repository",
                          JObj [("label", JStr "local");
                                ("location", JStr "/srv/local")])]))
  /\ (archives <$> fst info !! "job")
     = Some (Some (JList [JObj [("name", JStr "a1")]]))
  /\ snd rinfo
     = Success200 "Borgmatic repository and archive info stored successfully"
  /\ (repository_info <$> fst rinfo !! "job")
     = Some (Some (JObj [("repository",
                          JObj [("label", JStr "local");
                                ("location", JStr "/srv/local")])])).
Proof. vm_compute. repeat split. Qed.

(** When the filter does answer with an empty dictionary (the first
    repository of the list is empty), the 400 that the route raises is
    caught by its own [except Exception] and leaves as a 500. *)
Example push_borgmatic_empty_first :
  push_borgmatic_info no_float_of_str "job" "t1" (BList [[]; repo_local])
    (Some "offsite") ∅
  = (∅, HttpError 500 "Failed to store Borgmatic info").
Proof. vm_compute. reflexivity. Qed.

(** ** Missing files on the read side *)

(** C5 (amended). For a job without stored runs, the run list is the
    empty list, from the storage and from the route.  For a job without
    an archives file the storage has no page to give and the route
    answers with an error response, not with an empty page. *)
Theorem missing_files_on_read (page : Type)
    (build_page : json -> Z -> Z -> string -> string -> option page)
    (id : string) (limit_runs : nat) (offset limit : Z)
    (sort_by sort_order : string) (st : gmap string job_dir) :
  runs_of id st = None ->
  (archives <$> st !! id) = Some None \/ st !! id = None ->
  get_job_runs id limit_runs st = []
  /\ route_get_job_runs id limit_runs st = inl []
  /\ get_job_archives page build_page id offset limit sort_by sort_order st
     = None
  /\ exists code detail,
       route_get_job_archives page build_page id offset limit sort_by
         sort_order st
       = inr (HttpError code detail).
Proof.
  intros Hruns Harch.
  assert (Hnone : get_job_archives page build_page id offset limit sort_by
                    sort_order st = None).
  { unfold get_job_archives.
    destruct (st !! id) as [d|]; [|reflexivity].
    destruct Harch as [H|H]; [|discriminate].
    simpl in H. inversion H as [Ha]. rewrite Ha. reflexivity. }
  unfold route_get_job_runs, route_get_job_archives, get_job_runs.
  rewrite Hruns, Hnone. eauto 6.
Qed.

(** C5, counterexample: the archive listing of a configured job that has
    no data yet is an error response. *)
Lemma list_archives_missing_counterexample :
  route_get_job_archives unit (fun _ _ _ _ _ => Some tt) "job" 0 15 "date"
    "desc" ∅
  = inr (HttpError 500 "Internal server error").
Proof. reflexivity. Qed.

Lemma missing_files_on_read_witness :
  runs_of "job" ∅ = None
  /\ get_job_runs "job" 15 ∅ = [].
Proof.
  split; [reflexivity|].
  exact (proj1 (missing_files_on_read unit (fun _ _ _ _ _ => Some tt) "job" 15
                  0 15 "date" "desc" ∅ eq_refl (or_intror eq_refl))).
Defined.

(** ** Duplicate job ids *)

Section Duplicates.

Variable fresh_key : nat -> string.


(** The errors and the ids seen so far only grow along the loop. *)
Lemma validate_file_grows (b : batch) (file : string * toml_file) :
  (exists more, errors (validate_file fresh_key b file) = (errors b ++ more)%list)
  /\ seen_job_ids b ⊆ seen_job_ids (validate_file fresh_key b file).
Proof.
  destruct file as [name [c|msg]]; simpl.
  - destruct (validate_and_fix_job_config fresh_key c (draws b))
      as [msg|[[fixed modified] n']]; simpl.
    + split; [eauto|set_solver].
    + destruct (decide (default "" (job_id fixed) ∈ seen_job_ids b)); simpl.
      * split; [eauto|set_solver].
      * split; [exists []; by rewrite app_nil_r|set_solver].
  - split; [eauto|set_solver].
Qed.

Lemma fold_validate_grows (files : list (string * toml_file)) (b : batch) :
  (exists more,
      errors (fold_left (validate_file fresh_key) files b) = (errors b ++ more)%list)
  /\ seen_job_ids b
     ⊆ seen_job_ids (fold_left (validate_file fresh_key) files b).
Proof.
  revert b. induction files as [|f files IH]; intros b; simpl.
  - split; [exists []; by rewrite app_nil_r|set_solver].
  - pose proof (IH (validate_file fresh_key b f)) as [[m1 H1] S1].
    pose proof (validate_file_grows b f) as [[m2 H2] S2].
    split; [|by transitivity (seen_job_ids (validate_file fresh_key b f))].
    exists (m2 ++ m1)%list. by rewrite H1, H2, app_assoc.
Qed.




End Duplicates.

Lemma string_append_assoc (a b c : string) :
  (a ++ (b ++ c) = (a ++ b) ++ c)%string.
Proof.
  induction a as [|x a IH]; [reflexivity|].
  change (String x (a ++ (b ++ c)) = String x ((a ++ b) ++ c))%string.
  by rewrite IH.
Qed.




(** ** The schedule parser *)

Lemma is_unit_not_digit (u : ascii) : is_unit u = true -> is_digit u = false.
Proof.
  unfold is_unit. intros H.
  apply orb_true_iff in H as [H|H]; [apply orb_true_iff in H as [H|H]|];
    apply Ascii.eqb_eq in H; subst; reflexivity.
Qed.

Lemma span_digits_app (ds rest : string) (u : ascii) :
  all_digits ds = true -> is_digit u = false ->
  span_digits (ds ++ String u rest) = (ds, String u rest).
Proof.
  intros Hds Hu. induction ds as [|c ds IH].
  - change (span_digits (String u rest) = (EmptyString, String u rest)).
    simpl. by rewrite Hu.
  - simpl in Hds. apply andb_true_iff in Hds as [Hc Hds].
    change (span_digits (String c (ds ++ String u rest))
            = (String c ds, String u rest)).
    simpl. rewrite Hc, (IH Hds). reflexivity.
Qed.

Lemma span_digits_spec (s ds rest : string) :
  span_digits s = (ds, rest) ->
  s = (ds ++ rest)%string /\ all_digits ds = true.
Proof.
  revert ds rest. induction s as [|c s IH]; intros ds rest H; simpl in H.
  - inversion H; subst. auto.
  - destruct (is_digit c) eqn:Hc.
    + destruct (span_digits s) as [ds' tl] eqn:E. inversion H; subst.
      destruct (IH ds' rest eq_refl) as [-> Hds]. split; [reflexivity|].
      simpl. by rewrite Hc.
    + inversion H; subst. auto.
Qed.

(** The value of a well-formed specification. *)
Lemma parse_max_age_digits_unit (ds : string) (u : ascii) :
  ds <> "" -> all_digits ds = true -> is_unit u = true ->
  (String.length ds <= int_max_str_digits)%nat ->
  parse_max_age_to_seconds (ds ++ String u "")
  = Some (int_of_digits 0 ds * unit_seconds u).
Proof.
  intros Hne Hds Hu Hlen.
  unfold parse_max_age_to_seconds, max_age_pattern_match.
  rewrite (span_digits_app ds "" u Hds (is_unit_not_digit u Hu)).
  destruct ds as [|c ds]; [congruence|].
  rewrite Hu. change (at_dollar "") with true. cbn [andb]. cbv beta iota.
  unfold py_int. apply Nat.ltb_ge in Hlen. rewrite Hlen.
  unfold unit_seconds. unfold is_unit in Hu.
  destruct (Ascii.eqb u "m"); [reflexivity|].
  destruct (Ascii.eqb u "h"); [reflexivity|].
  destruct (Ascii.eqb u "d"); [reflexivity|discriminate].
Qed.

(** Every string that the parser accepts is digits and a unit, with or
    without a newline after the unit. *)
Lemma parse_max_age_accepts (s : string) (v : Z) :
  parse_max_age_to_seconds s = Some v ->
  exists ds u,
    ds <> "" /\ all_digits ds = true /\ is_unit u = true
    /\ (s = (ds ++ String u "")%string
        \/ s = (ds ++ String u newline)%string)
    /\ v = int_of_digits 0 ds * unit_seconds u
    /\ (String.length ds <= int_max_str_digits)%nat.
Proof.
  unfold parse_max_age_to_seconds, max_age_pattern_match. intros H.
  destruct (span_digits s) as [ds rest] eqn:E.
  destruct (span_digits_spec _ _ _ E) as [-> Hds].
  destruct ds as [|c ds]; [discriminate|].
  destruct rest as [|u rest]; [discriminate|].
  destruct (is_unit u) eqn:Hu; [|discriminate].
  destruct (at_dollar rest) eqn:Hend; [|discriminate].
  cbn [andb] in H. cbv beta iota in H. unfold py_int in H.
  destruct (Nat.ltb_spec int_max_str_digits (String.length (String c ds)))
    as [?|Hlen]; [discriminate|].
  exists (String c ds), u.
  repeat split; try assumption; try discriminate.
  - unfold at_dollar in Hend. apply orb_true_iff in Hend as [Hend|Hend];
      apply String.eqb_eq in Hend; subst; auto.
  - unfold unit_seconds. unfold is_unit in Hu.
    destruct (Ascii.eqb u "m"); [by inversion H|].
    destruct (Ascii.eqb u "h"); [by inversion H|].
    destruct (Ascii.eqb u "d"); [by inversion H|discriminate].
Qed.

(** C9, at the failing input: ["5m"] followed by a newline is not of the
    form [<N><unit>], and the parser answers 300 seconds for it, as the
    validator accepts it; [$] of the pattern matches before a final
    newline. *)
Theorem parse_max_age_trailing_newline :
  parse_max_age_to_seconds ("5m" ++ newline) = Some 300
  /\ validate_max_age ("5m" ++ newline) = true
  /\ parse_max_age_to_seconds "5m" = Some 300
  /\ parse_max_age_to_seconds "24h" = Some 86400
  /\ parse_max_age_to_seconds "2d" = Some 172800
  /\ parse_max_age_to_seconds "5" = None
  /\ parse_max_age_to_seconds "m" = None
  /\ parse_max_age_to_seconds "5w" = None
  /\ parse_max_age_to_seconds " 5m" = None.
Proof. vm_compute. repeat split. Qed.

(** ** Jobs without a summary *)

Section NoSummary.

Variable fromisoformat : string -> option datetime.
Variable now : datetime.
Variable relative_time : datetime -> string.
Variable coerce_int : json -> option Z.
Variable fresh_key : nat -> string.

(** Without [job_summary.json], a job that [load_job] builds has the
    status ["no-data"] and the placeholder statistics. *)
Lemma load_job_no_summary (id : string) (cfg : job_config)
    (d : option job_dir) (j : job_summary_model) :
  match d with Some x => job_summary x = None | None => True end ->
  load_job fromisoformat now relative_time coerce_int id cfg d = Some j ->
  jobId j = id /\ job_status j = "no-data" /\ stats j = placeholder_stats.
Proof.
  intros Hnone H. unfold load_job in H.
  assert (Hc : default ∅ (match d with
                          | Some x => job_summary x
                          | None => None
                          end) = (∅ : gmap string json)).
  { destruct d as [x|]; [by rewrite Hnone|reflexivity]. }
  rewrite Hc in H. rewrite !lookup_empty in H. simpl in H.
  destruct (_calculate_schedule_status _ _ _ _) as [ss|];
    simpl in H; [|discriminate].
  match type of H with
  | context [mbind _ ?lb] => destruct lb as [lb'|]; simpl in H; [|discriminate]
  end.
  inversion H; subst. auto.
Qed.

(** Without any stored file the job is built, with schedule status
    ["unknown"]. *)
Lemma load_job_no_data (id : string) (cfg : job_config) :
  load_job fromisoformat now relative_time coerce_int id cfg None
  = Some {| jobId := id; name := default id (display_name cfg);
            job_status := "no-data"; scheduleStatus := "unknown";
            lastBackup := None; lastBackupRelative := None;
            lastSuccessfulBackup := None;
            lastSuccessfulBackupRelative := None;
            job_tags := default [] (tags cfg);
            stats := placeholder_stats |}.
Proof. reflexivity. Qed.

End NoSummary.

Lemma insert_by_name_Permutation (x : job_summary_model)
    (l : list job_summary_model) :
  Permutation (insert_by_name x l) (x :: l).
Proof.
  induction l as [|y l IH]; simpl; [reflexivity|].
  destruct (String.ltb (name y) (name x)); [|reflexivity].
  rewrite IH. apply perm_swap.
Qed.

Lemma sort_by_name_Permutation (l : list job_summary_model) :
  Permutation (sort_by_name l) l.
Proof.
  induction l as [|x l IH]; simpl; [reflexivity|].
  rewrite insert_by_name_Permutation. by constructor.
Qed.

Section Listing.

Variable fromisoformat : string -> option datetime.
Variable now : datetime.
Variable relative_time : datetime -> string.
Variable coerce_int : json -> option Z.

(** A configured job whose body did not raise is in the list. *)
Lemma load_jobs_In (job_configs : list (string * job_config))
    (st : gmap string job_dir) (id : string) (cfg : job_config)
    (j : job_summary_model) :
  In (id, cfg) job_configs ->
  load_job fromisoformat now relative_time coerce_int id cfg (st !! id) = Some j ->
  In j (sort_by_name (load_jobs fromisoformat now relative_time coerce_int job_configs st)).
Proof.
  intros Hin Hj.
  eapply Permutation_in; [symmetry; apply sort_by_name_Permutation|].
  induction job_configs as [|[k c] rest IH]; [destruct Hin|].
  simpl. destruct Hin as [Heq|Hin].
  - inversion Heq; subst. rewrite Hj. by left.
  - destruct (load_job _ _ _ _ k c (st !! k)); [right|]; by apply IH.
Qed.

(** A configured job without a job directory is listed with the status
    ["no-data"] and the placeholder statistics. *)
Lemma fresh_job_listed (job_configs : list (string * job_config))
    (st : gmap string job_dir) (id : string) (cfg : job_config) :
  In (id, cfg) job_configs -> st !! id = None ->
  exists j,
    In j (sort_by_name (load_jobs fromisoformat now relative_time coerce_int job_configs st))
    /\ jobId j = id /\ job_status j = "no-data"
    /\ stats j = placeholder_stats.
Proof.
  intros Hin Hnone. eexists. split.
  - eapply load_jobs_In; [exact Hin|]. rewrite Hnone. apply load_job_no_data.
  - auto.
Qed.

End Listing.

(** C10, at the failing input: the job is configured with
    [max_age = "1000000d"], its directory holds an archive list and no
    summary.  The cutoff [now - max_age] lies before [datetime.min]; the
    [OverflowError] is not among the exceptions that the schedule
    computation catches, and the job is left out of [get_all_jobs] and
    not found by [get_job_details].  With [max_age = "24h"] the same job
    is listed with the status ["no-data"]. *)
Theorem job_without_summary_dropped :
  let dir (age : string) := Some [("job.toml", Parsed (config_job age))] in
  summary_of "job" archives_only = None
  /\ snd (get_all_job_configs constant_key (dir "1000000d") 0)
     = [("job", config_job "1000000d")]
  /\ snd (get_all_jobs read_2024 noon_2026_11_04 no_relative_time
            no_int_coercion constant_key
            (dir "1000000d") 0 archives_only) = []
  /\ snd (get_job_details read_2024 noon_2026_11_04 no_relative_time
            no_int_coercion
            constant_key (dir "1000000d") 0 "job" archives_only) = None
  /\ map (fun j => (jobId j, job_status j, scheduleStatus j, stats j))
       (snd (get_all_jobs read_2024 noon_2026_11_04 no_relative_time
               no_int_coercion
               constant_key (dir "24h") 0 archives_only))
     = [("job", "no-data", "overdue", placeholder_stats)].
Proof. vm_compute. repeat split. Qed.

(** * Further properties of the code *)

(** ** The validator's patterns *)

Lemma int_of_digits_nonneg (s : string) (acc : Z) :
  all_digits s = true -> 0 <= acc -> 0 <= int_of_digits acc s.
Proof.
  revert acc. induction s as [|c s IH]; intros acc Hs Hacc; simpl; [exact Hacc|].
  simpl in Hs. apply andb_true_iff in Hs as [Hc Hs].
  apply IH; [exact Hs|].
  unfold is_digit in Hc. apply andb_true_iff in Hc as [Hlo _].
  apply N.leb_le in Hlo. lia.
Qed.

(** X1. The validator and the parser of [max_age]:
    [parse_max_age_to_seconds] returns a value exactly for the strings
    that [validate_max_age] accepts and whose number has at most 4300
    digits ([int] raises [ValueError] beyond, so that a validated
    [max_age] of more digits makes the parser raise); the value is never
    negative. *)
Theorem validate_max_age_iff_parse (s : string) :
  ((exists v, parse_max_age_to_seconds s = Some v)
   <-> validate_max_age s = true
       /\ (String.length (fst (span_digits s)) <= int_max_str_digits)%nat)
  /\ (forall v, parse_max_age_to_seconds s = Some v -> 0 <= v).
Proof.
  split.
  - unfold validate_max_age, parse_max_age_to_seconds.
    destruct (String.eqb_spec s "") as [->|Hne].
    { split; [intros [v Hv]; discriminate|intros [? _]; discriminate]. }
    destruct (max_age_pattern_match s) as [[value u]|] eqn:E.
    + unfold max_age_pattern_match in E.
      destruct (span_digits s) as [ds rest].
      destruct ds; [discriminate|]. destruct rest as [|u' rest]; [discriminate|].
      destruct (is_unit u') eqn:Hu; [|discriminate].
      destruct (at_dollar rest); [|discriminate].
      inversion E; subst. cbn [fst]. unfold py_int.
      destruct (Nat.ltb_spec int_max_str_digits (String.length (String a ds)))
        as [Hlong|Hlen].
      * split; [intros [v Hv]; discriminate|intros [_ Hle]; lia].
      * split; [intros _; split; [reflexivity|exact Hlen]|intros _].
        unfold is_unit in Hu.
        destruct (Ascii.eqb u "m"); [eauto|].
        destruct (Ascii.eqb u "h"); [eauto|].
        destruct (Ascii.eqb u "d"); [eauto|discriminate].
    + split; [intros [v Hv]; discriminate|intros [? _]; discriminate].
  - intros v Hv.
    destruct (parse_max_age_accepts s v Hv)
      as (ds & u & _ & Hds & _ & _ & -> & _).
    apply Z.mul_nonneg_nonneg.
    + by apply int_of_digits_nonneg.
    + unfold unit_seconds. destruct (Ascii.eqb u "m"); [lia|].
      destruct (Ascii.eqb u "h"); lia.
Qed.

(** A [max_age] of 4301 digits passes the validator, and the parser
    raises on it; with 4300 digits it would not. *)
Example long_max_age_validated_not_parsed :
  validate_max_age (nines_4301 ++ "d") = true
  /\ parse_max_age_to_seconds (nines_4301 ++ "d") = None
  /\ is_Some (parse_max_age_to_seconds
                (String.substring 1 4300 nines_4301 ++ "d")).
Proof. vm_compute. repeat split. eauto. Qed.

Lemma at_dollar_not_job_id_char (c : ascii) (rest : string) :
  is_job_id_char c = false -> at_dollar (String c rest) = true ->
  String c rest = newline.
Proof.
  unfold at_dollar. intros _ H. apply orb_true_iff in H as [H|H];
    apply String.eqb_eq in H; [discriminate|exact H].
Qed.

Lemma job_id_tail_spec (s : string) :
  job_id_tail s = true <->
  exists body, all_job_id_chars body = true
               /\ (s = body \/ s = (body ++ newline)%string).
Proof.
  induction s as [|c s IH]; simpl.
  - split; [intros _; exists ""; auto|reflexivity].
  - destruct (is_job_id_char c) eqn:Hc.
    + rewrite IH. split.
      * intros (body & Hb & Hs). exists (String c body). simpl. rewrite Hc, Hb.
        split; [reflexivity|]. destruct Hs as [->| ->]; auto.
      * intros (body & Hb & Hs). destruct body as [|c' body].
        { destruct Hs as [Hs|Hs]; [discriminate|].
          inversion Hs; subst. discriminate. }
        simpl in Hb. apply andb_true_iff in Hb as [_ Hb].
        exists body. split; [exact Hb|].
        destruct Hs as [Hs|Hs]; inversion Hs; auto.
    + split.
      * intros H. apply at_dollar_not_job_id_char in H; [|exact Hc].
        exists "". split; [reflexivity|]. right. exact H.
      * intros (body & Hb & Hs). destruct body as [|c' body].
        { destruct Hs as [Hs|Hs]; [discriminate|]. rewrite Hs. reflexivity. }
        simpl in Hb. apply andb_true_iff in Hb as [Hc' _].
        destruct Hs as [Hs|Hs]; inversion Hs; subst; congruence.
Qed.

(** X2. [validate_job_id] accepts exactly the non-empty strings of
    letters, digits, [_] and [-], and those strings followed by one final
    newline. *)
Theorem validate_job_id_spec (s : string) :
  validate_job_id s = true <->
  exists body, body <> "" /\ all_job_id_chars body = true
               /\ (s = body \/ s = (body ++ newline)%string).
Proof.
  unfold validate_job_id, job_id_pattern_match.
  destruct s as [|c s].
  - simpl. split; [discriminate|].
    intros (body & Hne & _ & [Hs|Hs]); destruct body; try congruence;
      discriminate.
  - change (String.eqb (String c s) "") with false. cbv iota.
    rewrite andb_true_iff, job_id_tail_spec. split.
    + intros (Hc & body & Hb & Hs). exists (String c body).
      split; [discriminate|]. simpl. rewrite Hc, Hb. split; [reflexivity|].
      destruct Hs as [->| ->]; auto.
    + intros (body & Hne & Hb & Hs). destruct body as [|c' body]; [congruence|].
      simpl in Hb. apply andb_true_iff in Hb as [Hc' Hb].
      destruct Hs as [Hs|Hs]; inversion Hs; subst; split; eauto.
Qed.

(** ** Repairing a configuration *)

Section Repair.

Variable fresh_key : nat -> string.

(** The loop over the keys keeps their number, leaves every key of 16
    characters or more where it is, draws one key for each shorter one and
    reports a modification exactly when it drew. *)
Lemma fix_keys_spec (keys : list string) (n : nat) :
  let '(ks, m, n') := fix_keys fresh_key keys n in
  List.length ks = List.length keys
  /\ (forall i key, keys !! i = Some key ->
        16 <= Z.of_nat (String.length key) -> ks !! i = Some key)
  /\ (forall i key, ks !! i = Some key ->
        keys !! i = Some key \/ exists j, key = fresh_key j)
  /\ (m = false -> ks = keys /\ n' = n)
  /\ (Forall (fun key => 16 <= Z.of_nat (String.length key)) keys -> m = false).
Proof.
  revert n. induction keys as [|key keys IH]; intros n; simpl.
  - repeat split; auto; intros i key H; discriminate.
  - destruct (16 <=? Z.of_nat (String.length key)) eqn:Hlen.
    + specialize (IH n). destruct (fix_keys fresh_key keys n) as [[ks m] n'].
      destruct IH as (Hl & Hkeep & Hfrom & Hsame & Hall).
      repeat split.
      * simpl. by rewrite Hl.
      * intros [|i] k Hk Hk16; simpl in *; [exact Hk|by apply Hkeep].
      * intros [|i] k Hk; simpl in *; [by left|by apply Hfrom].
      * destruct (Hsame H) as [-> _]. reflexivity.
      * by destruct (Hsame H) as [_ ->].
      * intros Hf. inversion Hf; subst. by apply Hall.
    + specialize (IH (S n)).
      destruct (fix_keys fresh_key keys (S n)) as [[ks m] n'].
      destruct IH as (Hl & Hkeep & Hfrom & Hsame & Hall).
      repeat split; try discriminate.
      * simpl. by rewrite Hl.
      * intros [|i] k Hk Hk16; simpl in *; [|by apply Hkeep].
        inversion Hk; subst. apply Z.leb_gt in Hlen. lia.
      * intros [|i] k Hk; simpl in *; [|by apply Hfrom].
        inversion Hk; subst. right. eauto.
      * intros Hf. inversion Hf; subst. apply Z.leb_gt in Hlen. lia.
Qed.

Lemma fix_keys_long (keys : list string) (n : nat) :
  (forall j, 16 <= Z.of_nat (String.length (fresh_key j))) ->
  Forall (fun key => 16 <= Z.of_nat (String.length key))
         (fst (fst (fix_keys fresh_key keys n))).
Proof.
  intros Hfresh. revert n. induction keys as [|key keys IH]; intros n; simpl.
  - constructor.
  - destruct (16 <=? Z.of_nat (String.length key)) eqn:Hlen.
    + specialize (IH n). destruct (fix_keys fresh_key keys n) as [[ks m] n'].
      simpl in *. constructor; [by apply Z.leb_le|exact IH].
    + specialize (IH (S n)).
      destruct (fix_keys fresh_key keys (S n)) as [[ks m] n'].
      simpl in *. constructor; [apply Hfresh|exact IH].
Qed.

(** X3. When the generated keys have 16 characters or more (they have
    32), a configuration that [validate_and_fix_job_config] returns is
    well formed: its job id is the valid one it came with, backup type and
    max age are valid, there is at least one API key and none is shorter
    than 16 characters, display name and tags are there; the description
    is untouched. *)
Theorem validate_and_fix_well_formed (c fixed : job_config) (n n' : nat)
    (modified : bool) :
  (forall j, 16 <= Z.of_nat (String.length (fresh_key j))) ->
  validate_and_fix_job_config fresh_key c n = inr (fixed, modified, n') ->
  well_formed_config fixed
  /\ job_id fixed = job_id c
  /\ description fixed = description c.
Proof.
  intros Hfresh H. unfold validate_and_fix_job_config in H.
  destruct (validate_job_id (default "" (job_id c))) eqn:Hid;
    cbn [negb] in H; cbv beta iota zeta in H; [|discriminate].
  destruct (validate_backup_type (default "borgmatic" (backup_type c))) eqn:Hbt;
    destruct (validate_max_age (default "24h" (max_age c))) eqn:Hma;
    destruct (default [] (api_keys c)) as [|k ks] eqn:Hk;
    cbv beta iota zeta in H;
    try (pose proof (fix_keys_long (k :: ks) n Hfresh) as Hlong;
         pose proof (fix_keys_spec (k :: ks) n) as Hspec;
         destruct (fix_keys fresh_key (k :: ks) n) as [[ks' m3] n3];
         destruct Hspec as (Hlen & _); simpl in Hlong;
         destruct ks' as [|k' ks']; [simpl in Hlen; lia|]);
    destruct (display_name c) eqn:Hdn; destruct (tags c) eqn:Htg;
    cbv beta iota zeta in H;
    inversion H; subst; clear H;
    (split; [|split; reflexivity]);
    unfold well_formed_config; simpl;
    repeat split; eauto; try (rewrite Hid; reflexivity);
    try (eexists _, _; split; [reflexivity|]; repeat constructor; apply Hfresh).
Qed.

(** X4. A well-formed configuration passes unchanged: it is returned as
    it is, not marked modified (so the file is not rewritten), and no key
    is drawn.  With X3, validating a repaired configuration again changes
    nothing. *)
Theorem validate_and_fix_unchanged (c : job_config) (n : nat) :
  well_formed_config c ->
  validate_and_fix_job_config fresh_key c n = inr (c, false, n).
Proof.
  intros (Hid & Hbt & Hma & (k & ks & Hkeys & Hlong) & [dn Hdn] & [tg Htg]).
  unfold validate_and_fix_job_config.
  rewrite Hid, Hbt, Hma, Hkeys, Hdn, Htg. simpl default. cbv iota. simpl negb.
  cbv iota.
  pose proof (fix_keys_spec (k :: ks) n) as Hspec.
  destruct (fix_keys fresh_key (k :: ks) n) as [[ks' m] n'].
  destruct Hspec as (_ & _ & _ & Hsame & Hall).
  specialize (Hall Hlong). subst m. destruct (Hsame eq_refl) as [-> ->].
  simpl. destruct c; simpl in *. subst. reflexivity.
Qed.

Lemma fix_keys_short (keys : list string) (n : nat) :
  let '(ks, m, n') := fix_keys fresh_key keys n in
  (n <= n')%nat
  /\ forall i key, keys !! i = Some key ->
       Z.of_nat (String.length key) < 16 ->
       exists j, (n <= j < n')%nat /\ ks !! i = Some (fresh_key j).
Proof.
  revert n. induction keys as [|key keys IH]; intros n; simpl.
  - split; [lia|]. intros i key H; discriminate.
  - destruct (16 <=? Z.of_nat (String.length key)) eqn:Hlen.
    + specialize (IH n). destruct (fix_keys fresh_key keys n) as [[ks m] n'].
      destruct IH as [Hle Hshort]. split; [exact Hle|].
      intros [|i] k Hk Hk16; simpl in *; [|by apply (Hshort i k)].
      inversion Hk; subst. apply Z.leb_le in Hlen. lia.
    + specialize (IH (S n)).
      destruct (fix_keys fresh_key keys (S n)) as [[ks m] n'].
      destruct IH as [Hle Hshort]. split; [lia|].
      intros [|i] k Hk Hk16; simpl in *.
      * exists n. split; [lia|reflexivity].
      * destruct (Hshort i k Hk Hk16) as (j & Hj & Hks).
        exists j. split; [lia|exact Hks].
Qed.


(** X5. Repair of the key list: when a configuration comes with API keys,
    the repaired configuration has as many keys; every key of 16
    characters or more is where it was, and at the position of every
    shorter key stands a key generated during this call; no other key
    appears. *)
Theorem validate_and_fix_keeps_keys (c fixed : job_config) (n n' : nat)
    (modified : bool) (k : string) (ks : list string) :
  api_keys c = Some (k :: ks) ->
  validate_and_fix_job_config fresh_key c n = inr (fixed, modified, n') ->
  exists ks' : list string,
    api_keys fixed = Some ks'
    /\ List.length ks' = List.length (k :: ks)
    /\ (forall i key, (k :: ks) !! i = Some key ->
          16 <= Z.of_nat (String.length key) -> ks' !! i = Some key)
    /\ (forall i key, (k :: ks) !! i = Some key ->
          Z.of_nat (String.length key) < 16 ->
          exists j, (n <= j < n')%nat /\ ks' !! i = Some (fresh_key j))
    /\ (forall i key, ks' !! i = Some key ->
          (k :: ks) !! i = Some key \/ exists j, key = fresh_key j).
Proof.
  intros Hkeys H. unfold validate_and_fix_job_config in H.
  destruct (validate_job_id (default "" (job_id c)));
    cbn [negb] in H; cbv beta iota zeta in H; [|discriminate].
  rewrite Hkeys in H. change (default [] (Some (k :: ks))) with (k :: ks) in H.
  cbv beta iota zeta in H.
  pose proof (fix_keys_spec (k :: ks) n) as Hspec.
  pose proof (fix_keys_short (k :: ks) n) as Hshort.
  destruct (validate_backup_type _); destruct (validate_max_age _);
    destruct (fix_keys fresh_key (k :: ks) n) as [[ks' m3] n3];
    destruct Hspec as (Hlen & Hkeep & Hfrom & _);
    destruct Hshort as [_ Hshort];
    destruct (display_name c); destruct (tags c);
    cbv beta iota zeta in H;
    inversion H; subst; simpl; eexists;
    (split; [reflexivity|]); (split; [exact Hlen|]);
    (split; [assumption|]); split; assumption.
Qed.

End Repair.

Lemma validate_and_fix_well_formed_witness :
  exists fixed,
    validate_and_fix_job_config constant_key config_db 0
    = inr (fixed, true, 1%nat)
    /\ well_formed_config fixed.
Proof.
  eexists. split; [reflexivity|].
  exact (proj1 (validate_and_fix_well_formed constant_key config_db _ 0 _ _
                  (fun j => ltac:(vm_compute; discriminate)) eq_refl)).
Defined.

Lemma validate_and_fix_unchanged_witness :
  validate_and_fix_job_config constant_key (config_job "24h") 0
  = inr (config_job "24h", false, 0%nat).
Proof.
  apply (validate_and_fix_unchanged constant_key (config_job "24h") 0).
  unfold well_formed_config. simpl.
  repeat split; eauto.
  exists "0123456789abcdef0123456789abcdef", [].
  split; [reflexivity|]. repeat constructor. vm_compute. discriminate.
Defined.

Lemma validate_and_fix_keeps_keys_witness :
  exists ks' : list string,
    ks' !! 0%nat = Some (constant_key 3)
    /\ ks' !! 1%nat = Some "0123456789abcdef".
Proof.
  destruct (validate_and_fix_keeps_keys constant_key
              {| job_id := Some "job"; backup_type := Some "borg";
                 max_age := Some "24h";
                 api_keys := Some ["short"; "0123456789abcdef"];
                 display_name := Some "Job"; tags := Some [];
                 description := None |}
              {| job_id := Some "job"; backup_type := Some "borg";
                 max_age := Some "24h";
                 api_keys := Some [constant_key 3; "0123456789abcdef"];
                 display_name := Some "Job"; tags := Some [];
                 description := None |}
              3 4 true "short" ["0123456789abcdef"] eq_refl eq_refl)
    as (ks' & _ & _ & Hkeep & Hshort & _).
  exists ks'. split.
  - destruct (Hshort 0%nat "short" eq_refl ltac:(vm_compute; reflexivity))
      as (j & Hj & Hk).
    replace j with 3%nat in Hk by lia. exact Hk.
  - apply (Hkeep 1%nat "0123456789abcdef" eq_refl).
    vm_compute. discriminate.
Defined.

(** ** A batch of configuration files *)

Section Batch.

Variable fresh_key : nat -> string.

Lemma valid_job_id_default (c : job_config) :
  validate_job_id (default "" (job_id c)) = true ->
  job_id c = Some (default "" (job_id c)).
Proof. destruct (job_id c); [reflexivity|discriminate]. Qed.

Lemma validate_file_invariant (b : batch) (file : string * toml_file) :
  batch_invariant b -> batch_invariant (validate_file fresh_key b file).
Proof.
  intros (Hnd & Hseen & Hall & Hlen).
  destruct file as [name [c|msg]]; simpl.
  2:{ unfold batch_invariant. simpl. rewrite !length_app. simpl.
      repeat split; try assumption; try apply Hseen; lia. }
  destruct (validate_and_fix_job_config fresh_key c (draws b))
    as [msg|[[fixed modified] n']] eqn:E.
  { unfold batch_invariant. simpl. rewrite !length_app. simpl.
    repeat split; try assumption; try apply Hseen; lia. }
  assert (Hid : validate_job_id (default "" (job_id fixed)) = true
                /\ job_id fixed = Some (default "" (job_id fixed))).
  { unfold validate_and_fix_job_config in E.
    destruct (validate_job_id (default "" (job_id c))) eqn:Hv;
      cbn [negb] in E; cbv beta iota zeta in E; [|discriminate].
    assert (job_id fixed = job_id c) as ->.
    { destruct (validate_backup_type _); destruct (validate_max_age _);
        destruct (default [] (api_keys c)) as [|k ks];
        cbv beta iota zeta in E;
        try destruct (fix_keys fresh_key (k :: ks) (draws b)) as [[? ?] ?];
        destruct (display_name c); destruct (tags c);
        cbv beta iota zeta in E; inversion E; reflexivity. }
    split; [exact Hv|by apply valid_job_id_default]. }
  destruct Hid as [Hvalid Hjob].
  destruct (decide (default "" (job_id fixed) ∈ seen_job_ids b)) as [Hin|Hnin].
  { unfold batch_invariant. simpl. rewrite !length_app. simpl.
    repeat split; try assumption; try apply Hseen; lia. }
  unfold batch_invariant. simpl. rewrite map_app, !length_app. simpl.
  repeat split.
  - apply NoDup_app. repeat split; [exact Hnd| |apply NoDup_singleton].
    intros x Hx Hx'. apply list_elem_of_singleton in Hx'. subst.
    apply Hnin, Hseen. by apply list_elem_of_In.
  - intros Hin. apply elem_of_union.
    apply in_app_or in Hin as [Hin|[<-|[]]].
    + right. by apply Hseen.
    + left. by apply elem_of_singleton.
  - intros Hin. apply in_or_app.
    apply elem_of_union in Hin as [Hin|Hin].
    + apply elem_of_singleton in Hin. subst. right. by left.
    + left. by apply Hseen.
  - apply Forall_app. split; [exact Hall|]. repeat constructor; assumption.
  - lia.
Qed.

Lemma fold_validate_invariant (files : list (string * toml_file)) (b : batch) :
  batch_invariant b ->
  batch_invariant (fold_left (validate_file fresh_key) files b)
  /\ List.length (files_done (fold_left (validate_file fresh_key) files b))
     = (List.length (files_done b) + List.length files)%nat.
Proof.
  revert b. induction files as [|f files IH]; intros b Hb; simpl.
  - split; [exact Hb|lia].
  - destruct (IH _ (validate_file_invariant b f Hb)) as [Hinv Hlen].
    split; [exact Hinv|]. rewrite Hlen.
    destruct f as [name [c|msg]]; simpl; [|rewrite length_app; simpl; lia].
    destruct (validate_and_fix_job_config fresh_key c (draws b))
      as [msg|[[fixed modified] n']]; simpl;
      [rewrite length_app; simpl; lia|].
    destruct (decide (_ ∈ _)); simpl; rewrite length_app; simpl; lia.
Qed.

(** X6. A batch that [validate_all_configs] accepts: the job ids of the
    returned configurations are pairwise distinct and valid, each
    configuration carries the id it is filed under, and every file of the
    directory gave one configuration. *)
Theorem validate_all_configs_accepted (files : list (string * toml_file))
    (n : nat) (configs : list (string * job_config)) :
  snd (validate_all_configs fresh_key (Some files) n) = inl configs ->
  NoDup (map fst configs)
  /\ Forall (fun p => validate_job_id (fst p) = true
                      /\ job_id (snd p) = Some (fst p)) configs
  /\ List.length configs = List.length files.
Proof.
  unfold validate_all_configs. simpl. intros H.
  set (b0 := {| valid_configs := []; seen_job_ids := ∅; errors := [];
                files_done := []; draws := n |}) in *.
  assert (Hb0 : batch_invariant b0).
  { unfold batch_invariant, b0. simpl. split; [apply NoDup_nil_2|].
    split; [|split; [constructor|reflexivity]].
    intros id. split; [intros []|]. intros Hin.
    by apply not_elem_of_empty in Hin. }
  destruct (fold_validate_invariant files b0 Hb0)
    as [(Hnd & _ & Hall & Hlen) Hdone].
  destruct (errors (fold_left (validate_file fresh_key) files b0)) eqn:E;
    [|discriminate].
  inversion H; subst. simpl in Hlen, Hdone.
  repeat split; try assumption. lia.
Qed.

Lemma validate_file_error (b : batch) (file : string * toml_file)
    (line : string) :
  file_error file = Some line ->
  errors (validate_file fresh_key b file) = (errors b ++ [line])%list.
Proof.
  destruct file as [name [c|msg]]; unfold file_error; simpl; intros H.
  - unfold validate_and_fix_job_config.
    destruct (validate_job_id (default "" (job_id c))); [discriminate|].
    simpl. inversion H. reflexivity.
  - inversion H. reflexivity.
Qed.

(** X7. Errors are collected, not cut at the first: every file of the
    directory that [toml.load] cannot read or whose job id is invalid has
    its error line in the message of the [ConfigValidationError], whatever
    the other files are; and the batch then returns no configuration. *)
Theorem validate_all_configs_collects (files : list (string * toml_file))
    (n : nat) (file : string * toml_file) (line : string) :
  In file files -> file_error file = Some line ->
  exists errs,
    snd (validate_all_configs fresh_key (Some files) n)
    = inr (failed_header ++ join_lines errs)%string
    /\ In line errs.
Proof.
  intros Hin Hline. apply in_split in Hin as (pre & post & ->).
  unfold validate_all_configs. cbn [snd].
  set (b0 := {| valid_configs := []; seen_job_ids := ∅; errors := [];
                files_done := []; draws := n |}).
  rewrite fold_left_app. cbn [fold_left].
  set (b1 := fold_left (validate_file fresh_key) pre b0).
  pose proof (validate_file_error b1 file line Hline) as Herr.
  pose proof (fold_validate_grows fresh_key post
                (validate_file fresh_key b1 file)) as [[more Hm] _].
  rewrite Herr in Hm.
  set (final := fold_left (validate_file fresh_key) post
                  (validate_file fresh_key b1 file)) in *.
  assert (Hin : In line (errors final)).
  { rewrite Hm. apply in_or_app. left. apply in_or_app. right. by left. }
  destruct (errors final) as [|e errs]; [destruct Hin|].
  exists (e :: errs). split; [|exact Hin].
  unfold failed_header. by rewrite <- string_append_assoc.
Qed.

End Batch.

Lemma validate_all_configs_accepted_witness :
  NoDup (map fst [("job", config_job "24h")]).
Proof.
  exact (proj1 (validate_all_configs_accepted constant_key
                  [("job.toml", Parsed (config_job "24h"))] 0
                  [("job", config_job "24h")] eq_refl)).
Defined.

Lemma validate_all_configs_collects_witness :
  exists errs,
    snd (validate_all_configs constant_key
           (Some [("bad.toml", Unparsable "Invalid date or number");
                  ("job.toml", Parsed (config_job "24h"))]) 0)
    = inr (failed_header ++ join_lines errs)%string
    /\ In "Error in bad.toml: Invalid date or number" errs.
Proof.
  exact (validate_all_configs_collects constant_key
           [("bad.toml", Unparsable "Invalid date or number");
            ("job.toml", Parsed (config_job "24h"))] 0
           ("bad.toml", Unparsable "Invalid date or number") _
           (or_introl eq_refl) eq_refl).
Defined.

(** ** API tokens and job keys *)

Lemma add_job_keys_lookup (c : auth_cache) (id : string) (keys : list string)
    (t : string) :
  (In t keys ->
   api_key_to_job_mapping (add_job_keys c id keys) !! t = Some id)
  /\ (~ In t keys ->
      api_key_to_job_mapping (add_job_keys c id keys) !! t
      = api_key_to_job_mapping c !! t)
  /\ (t ∈ job_api_keys (add_job_keys c id keys)
      <-> In t keys \/ t ∈ job_api_keys c).
Proof.
  revert c. induction keys as [|k keys IH]; intros c.
  - simpl. repeat split; tauto.
  - unfold add_job_keys in *. cbn [fold_left].
    set (c' := {| job_api_keys := {[ k ]} ∪ job_api_keys c;
                  api_key_to_job_mapping :=
                    <[k := id]> (api_key_to_job_mapping c) |}).
    destruct (IH c') as (Hin & Hout & Hset).
    destruct (In_dec string_dec t keys) as [Hk|Hk].
    + repeat split.
      * intros _. by apply Hin.
      * intros Hn. exfalso. apply Hn. by right.
      * intros _. left. by right.
      * intros _. apply Hset. by left.
    + repeat split.
      * intros [->|H]; [|contradiction].
        rewrite (Hout Hk). unfold c'. simpl. apply lookup_insert_eq.
      * intros Hn. rewrite (Hout Hk). unfold c'. simpl.
        apply lookup_insert_ne. intros ->. apply Hn. by left.
      * intros H. apply Hset in H as [H|H]; [contradiction|].
        unfold c' in H. simpl in H. apply elem_of_union in H as [H|H].
        -- apply elem_of_singleton in H. left. left. by symmetry.
        -- by right.
      * intros H. apply Hset. right. unfold c'. simpl.
        apply elem_of_union. destruct H as [[->|H]|H].
        -- left. by apply elem_of_singleton.
        -- contradiction.
        -- by right.
Qed.

(** The keys are the domain of the mapping. *)
Lemma add_job_keys_domain (c : auth_cache) (id : string) (keys : list string) :
  (forall t, t ∈ job_api_keys c <-> is_Some (api_key_to_job_mapping c !! t)) ->
  forall t, t ∈ job_api_keys (add_job_keys c id keys)
            <-> is_Some (api_key_to_job_mapping (add_job_keys c id keys) !! t).
Proof.
  intros Hc t. destruct (add_job_keys_lookup c id keys t) as (Hin & Hout & Hset).
  rewrite Hset. destruct (In_dec string_dec t keys) as [Hk|Hk].
  - rewrite (Hin Hk). split; eauto.
  - rewrite (Hout Hk), <- Hc. tauto.
Qed.

Lemma build_auth_cache_snoc (api_tokens : list string)
    (job_configs : list (string * job_config)) (p : string * job_config) :
  build_auth_cache api_tokens (job_configs ++ [p])
  = match api_keys (snd p) with
    | Some keys => add_job_keys (build_auth_cache api_tokens job_configs)
                     (fst p) keys
    | None => build_auth_cache api_tokens job_configs
    end.
Proof. unfold build_auth_cache. by rewrite fold_left_app. Qed.

Lemma build_auth_cache_domain (api_tokens : list string)
    (job_configs : list (string * job_config)) (t : string) :
  t ∈ job_api_keys (build_auth_cache api_tokens job_configs)
  <-> is_Some (api_key_to_job_mapping
                 (build_auth_cache api_tokens job_configs) !! t).
Proof.
  revert t. induction job_configs as [|p cs IH] using rev_ind.
  - unfold build_auth_cache. simpl. apply add_job_keys_domain.
    intros t. simpl. rewrite lookup_empty. split.
    + intros H. by apply not_elem_of_empty in H.
    + intros [x Hx]. discriminate.
  - rewrite build_auth_cache_snoc.
    destruct (api_keys (snd p)); [by apply add_job_keys_domain|exact IH].
Qed.

(** The mapping of a key that no job lists. *)
Lemma build_auth_cache_unlisted (api_tokens : list string)
    (job_configs : list (string * job_config)) (t : string) :
  Forall (fun p => ~ lists_key t p) job_configs ->
  api_key_to_job_mapping (build_auth_cache api_tokens job_configs) !! t
  = if In_dec string_dec t api_tokens then Some "*" else None.
Proof.
  induction job_configs as [|p cs IH] using rev_ind; intros Hall.
  - unfold build_auth_cache. simpl.
    destruct (add_job_keys_lookup
                {| job_api_keys := ∅; api_key_to_job_mapping := ∅ |} "*"
                api_tokens t) as (Hin & Hout & _).
    destruct (In_dec string_dec t api_tokens) as [Hk|Hk].
    + by apply Hin.
    + rewrite (Hout Hk). apply lookup_empty.
  - apply Forall_app in Hall as [Hcs Hp]. inversion Hp as [|? ? Hnot _]; subst.
    rewrite build_auth_cache_snoc.
    destruct (api_keys (snd p)) as [keys|] eqn:Hkeys; [|by apply IH].
    destruct (add_job_keys_lookup (build_auth_cache api_tokens cs) (fst p)
                keys t) as (_ & Hout & _).
    rewrite Hout; [by apply IH|].
    intros Hin. apply Hnot. exists keys. auto.
Qed.

(** The mapping of a key after the last job that lists it. *)
Lemma build_auth_cache_listed (api_tokens : list string)
    (pre post : list (string * job_config)) (p : string * job_config)
    (t : string) :
  lists_key t p -> Forall (fun q => ~ lists_key t q) post ->
  api_key_to_job_mapping
    (build_auth_cache api_tokens (pre ++ p :: post)) !! t
  = Some (fst p).
Proof.
  intros (keys & Hkeys & Hin).
  induction post as [|q post IH] using rev_ind; intros Hpost.
  - rewrite build_auth_cache_snoc, Hkeys.
    by apply add_job_keys_lookup.
  - apply Forall_app in Hpost as [Hpost Hq].
    inversion Hq as [|? ? Hnot _]; subst.
    replace (pre ++ p :: post ++ [q])%list
      with ((pre ++ p :: post) ++ [q])%list
      by (by rewrite <- app_assoc).
    rewrite build_auth_cache_snoc.
    destruct (api_keys (snd q)) as [kq|] eqn:Hkq; [|by apply IH].
    destruct (add_job_keys_lookup
                (build_auth_cache api_tokens (pre ++ p :: post)) (fst q) kq t)
      as (_ & Hout & _).
    rewrite Hout; [by apply IH|].
    intros Hin'. apply Hnot. exists kq. auto.
Qed.

Lemma verify_api_token_for_job_mapping (c : auth_cache) (token id : string) :
  (forall t, t ∈ job_api_keys c <-> is_Some (api_key_to_job_mapping c !! t)) ->
  verify_api_token_for_job c token id
  = match api_key_to_job_mapping c !! token with
    | Some allowed_job => String.eqb allowed_job "*" || String.eqb allowed_job id
    | None => false
    end.
Proof.
  intros Hdom. unfold verify_api_token_for_job, verify_api_token.
  destruct (api_key_to_job_mapping c !! token) as [a|] eqn:E.
  - rewrite bool_decide_eq_true_2; [reflexivity|]. apply Hdom. rewrite E. eauto.
  - by destruct (bool_decide _).
Qed.

(** X8. A job key opens its own job only: for a key listed by the job [J]
    and by no job read after it, [verify_api_token_for_job] accepts the
    key for a job id exactly when that id is [J] (also when the key is one
    of the global tokens, whose wildcard the job entry replaces). *)
Theorem job_key_opens_own_job_only (api_tokens : list string)
    (pre post : list (string * job_config)) (J : string) (cfg : job_config)
    (token id : string) :
  J <> "*" ->
  lists_key token (J, cfg) ->
  Forall (fun q => ~ lists_key token q) post ->
  verify_api_token_for_job
    (build_auth_cache api_tokens (pre ++ (J, cfg) :: post)) token id = true
  <-> id = J.
Proof.
  intros HJ Hlists Hpost.
  rewrite verify_api_token_for_job_mapping
    by (intros t; apply build_auth_cache_domain).
  rewrite (build_auth_cache_listed api_tokens pre post (J, cfg) token Hlists Hpost).
  simpl. destruct (String.eqb_spec J "*") as [?|_]; [contradiction|]. simpl.
  rewrite String.eqb_eq. split; congruence.
Qed.

(** X9. A global token that no job lists opens every job id, and a token
    that is neither global nor listed by a job opens none. *)
Theorem global_token_opens_every_job (api_tokens : list string)
    (job_configs : list (string * job_config)) (token : string) :
  Forall (fun p => ~ lists_key token p) job_configs ->
  forall id,
    verify_api_token_for_job (build_auth_cache api_tokens job_configs) token id
    = if In_dec string_dec token api_tokens then true else false.
Proof.
  intros Hall id.
  rewrite verify_api_token_for_job_mapping
    by (intros t; apply build_auth_cache_domain).
  rewrite (build_auth_cache_unlisted api_tokens job_configs token Hall).
  by destruct (In_dec string_dec token api_tokens).
Qed.

Lemma job_key_opens_own_job_only_witness :
  verify_api_token_for_job
    (build_auth_cache ["global-token-0123456789"]
       ([] ++ ("job", config_job "24h") :: []))
    "0123456789abcdef0123456789abcdef" "job" = true.
Proof.
  apply (job_key_opens_own_job_only ["global-token-0123456789"] [] []
           "job" (config_job "24h") "0123456789abcdef0123456789abcdef" "job").
  - discriminate.
  - exists ["0123456789abcdef0123456789abcdef"]. split; [reflexivity|by left].
  - constructor.
  - reflexivity.
Defined.

Lemma global_token_opens_every_job_witness :
  verify_api_token_for_job
    (build_auth_cache ["global-token-0123456789"] [("job", config_job "24h")])
    "global-token-0123456789" "another-job" = true.
Proof.
  rewrite (global_token_opens_every_job ["global-token-0123456789"]
             [("job", config_job "24h")] "global-token-0123456789").
  - reflexivity.
  - repeat constructor. intros (keys & Hk & Hin). inversion Hk; subst.
    destruct Hin as [Hin|[]]. discriminate.
Defined.

(** ** Pages of lines *)

(** For the offsets and limits that the routes let through, the slice is
    [limit] elements after the first [offset]. *)
Lemma py_slice_nonneg {A : Type} (l : list A) (offset limit : Z) :
  0 <= offset -> 0 <= limit ->
  py_slice l offset limit
  = firstn (Z.to_nat limit) (skipn (Z.to_nat offset) l).
Proof.
  intros Ho Hl. unfold py_slice, slice_index.
  destruct (Z.ltb_spec offset 0) as [?|_]; [lia|].
  destruct (Z.ltb_spec (offset + limit) 0) as [?|_]; [lia|].
  set (len := Z.of_nat (List.length l)).
  destruct (Z.le_gt_cases len offset) as [Hge|Hlt].
  - rewrite (Z.min_r offset len) by lia.
    rewrite (Z.min_r (offset + limit) len) by lia.
    rewrite !skipn_all2 by (unfold len in *; lia).
    by rewrite !firstn_nil.
  - rewrite (Z.min_l offset len) by lia.
    destruct (Z.le_gt_cases (offset + limit) len) as [Hin|Hout].
    + rewrite (Z.min_l (offset + limit) len) by lia. f_equal. lia.
    + rewrite (Z.min_r (offset + limit) len) by lia.
      rewrite !firstn_all2; [reflexivity| |];
        rewrite length_skipn; unfold len in *; lia.
Qed.

Lemma py_slice_length {A : Type} (l : list A) (offset limit : Z) :
  0 <= offset -> 0 <= limit ->
  Z.of_nat (List.length (py_slice l offset limit))
  = Z.min limit (Z.max 0 (Z.of_nat (List.length l) - offset)).
Proof.
  intros Ho Hl. rewrite py_slice_nonneg by assumption.
  rewrite length_firstn, length_skipn. lia.
Qed.

Lemma page_of_lines_law (all_lines : list string) (offset limit : Z) :
  0 <= offset -> 0 <= limit ->
  page_law offset limit (page_of_lines all_lines offset limit).
Proof.
  intros Ho Hl. unfold page_law, page_of_lines. simpl.
  rewrite length_map, py_slice_length by assumption.
  repeat split; try apply Z.ltb_lt.
  intros H. apply Z.ltb_lt in H. lia.
Qed.

(** X10. The pages of [get_event_info] and of the log of
    [get_run_details], for an offset and a limit that are not negative:
    the page holds [min(limit, total - offset)] lines (none beyond the
    end), [hasMore] says whether lines follow the page, [nextOffset] is
    [offset + limit] exactly when they do, and a page with [hasMore] is
    full. *)
Theorem paged_reads_law (fromisoformat : string -> option datetime)
    (id key : string) (offset limit : Z) (st : gmap string job_dir) :
  0 <= offset -> 0 <= limit ->
  (forall p, get_event_info id key offset limit st = Some p ->
             page_law offset limit p)
  /\ (forall r, get_run_details fromisoformat id key offset limit st = Some r ->
                page_law offset limit (rd_log r)).
Proof.
  intros Ho Hl. split.
  - intros p H. unfold get_event_info in H.
    destruct (st !! id) as [d|]; [|discriminate].
    destruct (event_infos d !! key); [|discriminate].
    inversion H; subst. by apply page_of_lines_law.
  - intros r H. unfold get_run_details in H.
    destruct (st !! id) as [d|]; [|discriminate].
    destruct (runs d) as [runs_list|]; [|discriminate].
    destruct (find_run key runs_list) as [run_info|]; [|discriminate].
    destruct (parse_if_present fromisoformat (Some (re_timestamp run_info)));
      [|discriminate].
    destruct (parse_if_present fromisoformat (re_end_timestamp run_info));
      [|discriminate].
    inversion H; subst. simpl.
    destruct (run_logs d !! key); [by apply page_of_lines_law|].
    unfold page_law. simpl.
    destruct (Z.ltb_spec (offset + limit) 0); [lia|].
    repeat split; try discriminate; lia.
Qed.

Lemma paged_reads_law_witness :
  page_law 1 5
    (page_of_lines (readlines (write_lines ["a"; "b"; "c"])) 1 5).
Proof.
  apply (proj1 (paged_reads_law (fun _ => None) "job" "e1" 1 5
                  {[ "job" := set_event_info "e1" (write_lines ["a"; "b"; "c"])
                                empty_dir ]}
                  ltac:(lia) ltac:(lia))).
  reflexivity.
Defined.

Lemma page_of_lines_tile (all_lines : list string) (offset a b : Z) :
  0 <= offset -> 0 <= a -> 0 <= b ->
  (lines (page_of_lines all_lines offset a)
     ++ lines (page_of_lines all_lines (offset + a) b))%list
  = lines (page_of_lines all_lines offset (a + b)).
Proof.
  intros Ho Ha Hb. unfold page_of_lines. simpl.
  rewrite <- map_app. f_equal.
  rewrite !py_slice_nonneg by lia.
  rewrite !Z2Nat.inj_add by lia.
  set (n := Z.to_nat offset). set (x := Z.to_nat a). set (y := Z.to_nat b).
  replace (skipn (n + x) all_lines) with (skipn x (skipn n all_lines))
    by (rewrite skipn_skipn; f_equal; lia).
  generalize (skipn n all_lines). intros l.
  rewrite <- (firstn_skipn x (firstn (x + y) l)).
  f_equal.
  - rewrite firstn_firstn. f_equal. lia.
  - rewrite skipn_firstn_comm. f_equal. lia.
Qed.

(** X11. Pages tile the file: for [get_event_info], the page at [offset]
    with limit [a] followed by the page at [offset + a] with limit [b] is
    the page at [offset] with limit [a + b]; read page after page, every
    line comes once and in order. *)
Theorem event_info_pages_tile (id event_id : string) (offset a b : Z)
    (st : gmap string job_dir) (p1 p2 p12 : line_page) :
  0 <= offset -> 0 <= a -> 0 <= b ->
  get_event_info id event_id offset a st = Some p1 ->
  get_event_info id event_id (offset + a) b st = Some p2 ->
  get_event_info id event_id offset (a + b) st = Some p12 ->
  (lines p1 ++ lines p2)%list = lines p12.
Proof.
  intros Ho Ha Hb H1 H2 H12. unfold get_event_info in *.
  destruct (st !! id) as [d|]; [|discriminate].
  destruct (event_infos d !! event_id); [|discriminate].
  inversion H1; inversion H2; inversion H12; subst.
  by apply page_of_lines_tile.
Qed.

Lemma event_info_pages_tile_witness :
  (["a"; "b"] ++ ["c"])%list = ["a"; "b"; "c"].
Proof.
  exact (event_info_pages_tile "job" "e1" 0 2 2
           {[ "job" := set_event_info "e1" (write_lines ["a"; "b"; "c"])
                         empty_dir ]}
           _ _ _ ltac:(lia) ltac:(lia) ltac:(lia) eq_refl eq_refl eq_refl).
Defined.

(** ** Run logs *)

Lemma string_of_list_ascii_app (a b : list ascii) :
  string_of_list_ascii (a ++ b)
  = (string_of_list_ascii a ++ string_of_list_ascii b)%string.
Proof.
  induction a as [|x a IH]; [reflexivity|].
  change (String x (string_of_list_ascii (a ++ b))
          = String x (string_of_list_ascii a ++ string_of_list_ascii b)%string).
  by rewrite IH.
Qed.

(** Reading up to the end of a line that holds no line end. *)
Lemma readlines_from_line (current : list ascii) (line rest : string) :
  no_line_end line = true ->
  readlines_from current (line ++ String lf rest)
  = (string_of_list_ascii (rev current) ++ line ++ String lf "")%string
      :: readlines_from [] rest.
Proof.
  revert current. induction line as [|c line IH]; intros current Hline.
  - change (readlines_from current (String lf rest)
            = (string_of_list_ascii (rev current) ++ String lf "")%string
                :: readlines_from [] rest).
    simpl readlines_from. change (Ascii.eqb lf lf) with true. cbv iota.
    f_equal. simpl rev. apply string_of_list_ascii_app.
  - simpl in Hline. apply andb_true_iff in Hline as [Hc Hline].
    apply andb_true_iff in Hc as [Hlf Hcr].
    apply negb_true_iff in Hlf, Hcr.
    change (readlines_from current (String c (line ++ String lf rest))
            = (string_of_list_ascii (rev current)
                 ++ String c (line ++ String lf ""))%string
                :: readlines_from [] rest).
    simpl readlines_from. rewrite Hlf, Hcr. rewrite (IH (c :: current) Hline).
    f_equal. simpl rev. rewrite string_of_list_ascii_app.
    rewrite <- string_append_assoc. reflexivity.
Qed.

(** Lines without line ends are read back as they were written, each
    with its ["\n"]. *)
Lemma readlines_write_lines (log_lines : list string) :
  Forall (fun line => no_line_end line = true) log_lines ->
  readlines (write_lines log_lines)
  = map (fun line => (line ++ String lf "")%string) log_lines.
Proof.
  unfold readlines. induction log_lines as [|line rest IH]; intros Hall.
  - reflexivity.
  - inversion Hall; subst. simpl write_lines.
    rewrite readlines_from_line by assumption. simpl. f_equal. by apply IH.
Qed.

Lemma rstrip_line_end (line : string) :
  rstrip (line ++ String lf "") = rstrip line.
Proof.
  induction line as [|c line IH]; [reflexivity|].
  change (rstrip (String c (line ++ String lf "")) = rstrip (String c line)).
  simpl. by rewrite IH.
Qed.

Lemma upsert_run_In (e : run_entry) (l : list run_entry) :
  In e (upsert_run e l)
  /\ (List.length (upsert_run e l) <= S (List.length l))%nat.
Proof.
  unfold upsert_run. destruct (replace_first e l) as [l'|] eqn:E.
  - split; [eapply replace_first_In; eauto|].
    rewrite <- (length_map re_id l'), (replace_first_ids _ _ _ E), length_map.
    lia.
  - split; [apply in_or_app; right; by left|].
    rewrite length_app. simpl. lia.
Qed.

Lemma find_run_unique (e : run_entry) (l : list run_entry) :
  In e l -> (forall r, In r l -> re_id r = re_id e -> r = e) ->
  find_run (re_id e) l = Some e.
Proof.
  induction l as [|x l IH]; intros Hin Huniq; [destruct Hin|].
  simpl. destruct (String.eqb_spec (re_id x) (re_id e)) as [Heq|Hne].
  - f_equal. apply Huniq; [by left|exact Heq].
  - destruct Hin as [->|Hin]; [congruence|].
    apply IH; [exact Hin|]. intros r Hr. apply Huniq. by right.
Qed.

(** X12. The log of a run is read back as it was pushed: after a
    [store_backup_run] with log lines that hold no line end, on a job with
    fewer than 100 runs and one record per run id, [get_run_details] of
    that run finds it, with its status, and a page from offset 0 that
    holds all lines gives the pushed lines with their trailing white space
    stripped. *)
Theorem run_log_round_trip (fromisoformat : string -> option datetime)
    (id : string) (rd : run_data) (now1 now2 : string)
    (st : gmap string job_dir) (ts ets : option datetime) :
  snd (store_backup_run id rd now1 now2 st) = Returned ->
  NoDup (map re_id (default [] (runs_of id st))) ->
  (List.length (default [] (runs_of id st)) < max_runs)%nat ->
  log_lines rd <> [] ->
  Forall (fun line => no_line_end line = true) (log_lines rd) ->
  parse_if_present fromisoformat (Some (isoformat (start_time rd))) = Some ts ->
  parse_if_present fromisoformat (option_map isoformat (end_time rd)) = Some ets ->
  exists r,
    get_run_details fromisoformat id (run_id rd) 0
      (Z.of_nat (List.length (log_lines rd)))
      (fst (store_backup_run id rd now1 now2 st)) = Some r
    /\ rd_id r = run_id rd
    /\ rd_status r = status_str (status rd)
    /\ rd_timestamp r = ts
    /\ lines (rd_log r) = map rstrip (log_lines rd)
    /\ totalLines (rd_log r) = Z.of_nat (List.length (log_lines rd))
    /\ hasMore (rd_log r) = false.
Proof.
  intros Hret Hnd Hlen Hlog Hclean Hts Hets.
  destruct (store_backup_run_returned _ _ _ _ _ Hret) as [dur Hd].
  pose proof (runs_of_store_backup_run id rd now1 now2 st) as Hruns.
  rewrite Hd in Hruns.
  destruct (runs_after_invariant (entry_of rd) _ Hnd) as [_ Huniq].
  destruct (upsert_run_In (entry_of rd) (default [] (runs_of id st)))
    as [Hin Hle].
  assert (Hin' : In (entry_of rd)
                   (runs_after (entry_of rd) (default [] (runs_of id st)))).
  { unfold runs_after. rewrite firstn_all2.
    - eapply Permutation_in; [symmetry; apply sort_desc_Permutation|exact Hin].
    - rewrite (Permutation_length (sort_desc_Permutation _)). lia. }
  pose proof (find_run_unique _ _ Hin' Huniq) as Hfind.
  unfold get_run_details.
  unfold runs_of at 1 in Hruns.
  destruct (fst (store_backup_run id rd now1 now2 st) !! id) as [d|] eqn:Ed;
    [|discriminate].
  rewrite Hruns. change (re_id (entry_of rd)) with (run_id rd) in Hfind.
  rewrite Hfind.
  assert (Hlogs : run_logs d !! run_id rd = Some (log_lines rd)).
  { unfold store_backup_run in Ed. rewrite Hd in Ed. simpl in Ed.
    rewrite lookup_insert_eq in Ed. inversion Ed; subst.
    unfold _update_job_summary, _update_runs_from_run. rewrite Hd.
    destruct (log_lines rd) as [|l0 ls] eqn:El; [congruence|].
    simpl. apply lookup_insert_eq. }
  rewrite Hlogs.
  change (re_timestamp (entry_of rd)) with (isoformat (start_time rd)).
  rewrite Hts.
  change (re_end_timestamp (entry_of rd))
    with (option_map isoformat (end_time rd)).
  rewrite Hets.
  eexists. split; [reflexivity|]. unfold page_of_lines.
  cbn [rd_id rd_status rd_timestamp rd_log lines totalLines hasMore].
  rewrite readlines_write_lines by exact Hclean.
  rewrite length_map.
  repeat split.
  - rewrite py_slice_nonneg by lia. rewrite Nat2Z.id.
    change (Z.to_nat 0) with 0%nat. rewrite drop_0.
    rewrite firstn_all2 by (rewrite length_map; lia).
    rewrite map_map. apply map_ext. intros l. apply rstrip_line_end.
  - apply Z.ltb_ge. lia.
Qed.

Lemma run_log_round_trip_witness :
  exists r,
    get_run_details read_2024 "job" "run-b" 0 2
      (fst (store_backup_run "job"
              {| run_id := "run-b"; status := Failed;
                 start_time := {| dt_us := 63839664000000000; dt_aware := false;
                                  isoformat := "2024-01-01T00:00:00" |};
                 end_time := None; exit_code := Some 2;
                 log_lines := ["mount failed  "; "exit 2"];
                 error_message := Some "mount" |} "t1" "t2" ∅)) = Some r
    /\ lines (rd_log r) = ["mount failed"; "exit 2"].
Proof.
  destruct (run_log_round_trip read_2024 "job"
              {| run_id := "run-b"; status := Failed;
                 start_time := {| dt_us := 63839664000000000; dt_aware := false;
                                  isoformat := "2024-01-01T00:00:00" |};
                 end_time := None; exit_code := Some 2;
                 log_lines := ["mount failed  "; "exit 2"];
                 error_message := Some "mount" |} "t1" "t2" ∅
              (Some {| dt_us := 63839664000000000; dt_aware := false;
                       isoformat := "2024-01-01T00:00:00" |}) None)
    as (r & Hr & _ & _ & _ & Hlines & _).
  - reflexivity.
  - apply NoDup_nil_2.
  - change (0 < 100)%nat. lia.
  - discriminate.
  - repeat constructor.
  - reflexivity.
  - reflexivity.
  - exists r. split; [exact Hr|exact Hlines].
Defined.

(** ** Pushes and job directories *)

Section PushIsolation.

Variable float_of_str : string -> option spec_float.

(** Each store writes under [data_dir / job_id] only. *)
Lemma stores_write_own_dir (id other : string) (st : gmap string job_dir) :
  other <> id ->
  (forall event_type message info extra t s n,
      fst (store_event id event_type message info extra t s n st) !! other
      = st !! other)
  /\ (forall rd n1 n2,
         fst (store_backup_run id rd n1 n2 st) !! other = st !! other)
  /\ (forall n ri al,
         fst (store_borg_info float_of_str id n ri al st) !! other = st !! other)
  /\ (forall n data,
         fst (store_borgmatic_info float_of_str id n data st) !! other
         = st !! other)
  /\ (forall n data,
         fst (store_borgmatic_rinfo float_of_str id n data st) !! other
         = st !! other).
Proof.
  intros Hne. repeat split; intros.
  - unfold store_event. simpl. by rewrite lookup_insert_ne.
  - unfold store_backup_run. destruct (run_duration rd); simpl;
      by rewrite lookup_insert_ne.
  - unfold store_borg_info. simpl. by rewrite lookup_insert_ne.
  - unfold store_borgmatic_info.
    destruct data as [d|[|first rest]]; simpl;
      try destruct (repository_get "location" _); simpl;
      by rewrite lookup_insert_ne.
  - unfold store_borgmatic_rinfo.
    destruct data as [d|l]; simpl.
    + destruct (repository_get "location" d); simpl;
        by rewrite lookup_insert_ne.
    + destruct (rinfo_loop l [] [] (JStr "")) as [[[ri ar] p]|]; simpl;
        by rewrite lookup_insert_ne.
Qed.

(** X13. A push changes a job directory only if its token opens that job:
    whatever the route, the request and the job id it names, the
    directory of every job for which [verify_api_token_for_job] rejects
    the token is after the call what it was before. *)
Theorem push_needs_token_for_job (c : auth_cache) (token id : string)
    (req : push_request) (r : readings) (st : gmap string job_dir)
    (other : string) :
  verify_api_token_for_job c token other = false ->
  fst (handle_push float_of_str c token id req r st) !! other = st !! other.
Proof.
  intros Hother. unfold handle_push.
  destruct (verify_api_token c token); simpl; [|reflexivity].
  destruct (verify_api_token_for_job c token id) eqn:Hid; simpl; [|reflexivity].
  assert (Hne : other <> id) by congruence.
  destruct (stores_write_own_dir id other st Hne)
    as (Hev & Hrun & Hborg & Hinfo & Hrinfo).
  destruct req as [et msg info extra|rd|ri al|data label|data label].
  - apply Hev.
  - specialize (Hrun rd (clock1 r) (clock2 r)).
    destruct (store_backup_run id rd (clock1 r) (clock2 r) st) as [st' []];
      exact Hrun.
  - apply Hborg.
  - unfold push_borgmatic_info.
    destruct (select_repository data label) as [filtered|resp];
      [|reflexivity].
    specialize (Hinfo (clock1 r) filtered).
    destruct (store_borgmatic_info float_of_str id (clock1 r) filtered st)
      as [st' []]; exact Hinfo.
  - unfold push_borgmatic_rinfo.
    destruct (select_repository data label) as [filtered|resp];
      [|reflexivity].
    specialize (Hrinfo (clock1 r) filtered).
    destruct (store_borgmatic_rinfo float_of_str id (clock1 r) filtered st)
      as [st' []]; exact Hrinfo.
Qed.

End PushIsolation.

Lemma push_needs_token_for_job_witness :
  fst (handle_push no_float_of_str
         (build_auth_cache ["global-token-0123456789"]
            [("job", config_job "24h")])
         "0123456789abcdef0123456789abcdef" "other"
         (PushStatus run_a)
         {| clock1 := "t1"; clock2 := "t2"; uuid_suffix := "0a1b2c3d" |}
         archives_only) !! "other"
  = archives_only !! "other".
Proof.
  apply push_needs_token_for_job. reflexivity.
Defined.

(** ** Events *)

(** X14. Events are only added: [store_event] returns the id
    [<timestamp>_<suffix>] and leaves under it an event with the pushed
    type, message and extra data; every event file with another id, the
    run list, the run files and logs, the archive list and the repository
    info are what they were. *)
Theorem store_event_appends (id event_type message : string)
    (info : option string) (extra : option (list (string * json)))
    (timestamp suffix now' : string) (st : gmap string job_dir) :
  let r := store_event id event_type message info extra timestamp suffix now' st in
  snd r = (timestamp ++ "_" ++ suffix)%string
  /\ (exists ev, event_of id (snd r) (fst r) = Some ev
                 /\ ev_id ev = snd r /\ ev_type ev = event_type
                 /\ ev_message ev = message /\ ev_timestamp ev = timestamp
                 /\ ev_extra ev = default [] extra)
  /\ (forall other, other <> snd r ->
        event_of id other (fst r) = event_of id other st)
  /\ (forall d', fst r !! id = Some d' ->
        runs d' = runs (the_dir id st)
        /\ archives d' = archives (the_dir id st)
        /\ repository_info d' = repository_info (the_dir id st)
        /\ run_files d' = run_files (the_dir id st)
        /\ run_logs d' = run_logs (the_dir id st)).
Proof.
  intros r. unfold r, store_event, event_of. simpl.
  rewrite !lookup_insert_eq. simpl.
  split; [reflexivity|]. split; [|split].
  - destruct info as [i|]; [destruct (String.eqb i "")|]; simpl;
      (eexists; split; [apply lookup_insert_eq|]); simpl; repeat split;
      destruct extra as [[|kv kvs]|]; reflexivity.
  - intros other Hne. unfold the_dir.
    destruct info as [i|]; [destruct (String.eqb i "")|]; simpl;
      rewrite lookup_insert_ne by congruence;
      destruct (st !! id); simpl; try reflexivity; apply lookup_empty.
  - intros d' Hd'. inversion Hd'; subst.
    destruct info as [i|]; [destruct (String.eqb i "")|]; simpl; auto.
Qed.

(** X15. The [has_info] flag and the info file: an event stored with an
    info text, also an empty one, is flagged [has_info]; its info can be
    read with [get_event_info] exactly when the text is not empty (for an
    event id that had no info file before), and is then the page of the
    lines of that text. *)
Theorem event_info_flag_and_file (id event_type message : string)
    (info : option string) (extra : option (list (string * json)))
    (timestamp suffix now' : string) (offset limit : Z)
    (st : gmap string job_dir) :
  (forall d, st !! id = Some d ->
             event_infos d !! (timestamp ++ "_" ++ suffix)%string = None) ->
  let r := store_event id event_type message info extra timestamp suffix now' st in
  (ev_has_info <$> event_of id (snd r) (fst r)) = Some (bool_decide (info <> None))
  /\ get_event_info id (snd r) offset limit (fst r)
     = match info with
       | Some text =>
           if String.eqb text "" then None
           else Some (page_of_lines (readlines text) offset limit)
       | None => None
       end.
Proof.
  intros Hfresh r. unfold r, store_event, event_of, get_event_info. simpl.
  rewrite !lookup_insert_eq. simpl.
  assert (Hold : event_infos (the_dir id st) !! (timestamp ++ "_" ++ suffix)%string
                 = None).
  { unfold the_dir. destruct (st !! id) as [d|] eqn:E; simpl;
      [by apply Hfresh|apply lookup_empty]. }
  destruct info as [i|]; [destruct (String.eqb i "") eqn:Ei|]; simpl;
    rewrite ?lookup_insert_eq; simpl; rewrite ?Hold; auto.
Qed.

Lemma event_info_flag_and_file_witness :
  let r := store_event "job" "log" "rotated" (Some "") None
             "2024-01-01T00:00:00" "0a1b2c3d" "t2" ∅ in
  (ev_has_info <$> event_of "job" (snd r) (fst r)) = Some true
  /\ get_event_info "job" (snd r) 0 50 (fst r) = None.
Proof.
  exact (event_info_flag_and_file "job" "log" "rotated" (Some "") None
           "2024-01-01T00:00:00" "0a1b2c3d" "t2" 0 50 ∅
           (fun d H => ltac:(rewrite lookup_empty in H; discriminate))).
Defined.

Lemma string_length_append (a b : string) :
  String.length (a ++ b)%string = (String.length a + String.length b)%nat.
Proof.
  induction a as [|c a IH]; [reflexivity|].
  change (S (String.length (a ++ b)%string)
          = S (String.length a + String.length b)).
  by rewrite IH.
Qed.

Lemma string_append_inj_r (a b x y : string) :
  String.length x = String.length y ->
  (a ++ x = b ++ y)%string -> a = b /\ x = y.
Proof.
  revert b. induction a as [|c a IH]; intros b Hlen H.
  - destruct b as [|c' b]; [auto|].
    exfalso. apply (f_equal String.length) in H.
    rewrite !string_length_append in H. simpl in H. lia.
  - destruct b as [|c' b].
    + exfalso. apply (f_equal String.length) in H.
      rewrite !string_length_append in H. simpl in H. lia.
    + change (String c (a ++ x)%string = String c' (b ++ y)%string) in H.
      inversion H; subst. destruct (IH b Hlen) as [-> ->]; auto.
Qed.

(** X16. Event ids tell events apart: with suffixes of the same length
    (they have eight characters), two [store_event] calls return the same
    id only if they read the same timestamp and drew the same suffix. *)
Theorem event_ids_distinct (id1 id2 t1 t2 m1 m2 : string)
    (i1 i2 : option string) (e1 e2 : option (list (string * json)))
    (ts1 ts2 s1 s2 n1 n2 : string) (st1 st2 : gmap string job_dir) :
  String.length s1 = String.length s2 ->
  snd (store_event id1 t1 m1 i1 e1 ts1 s1 n1 st1)
  = snd (store_event id2 t2 m2 i2 e2 ts2 s2 n2 st2) ->
  ts1 = ts2 /\ s1 = s2.
Proof.
  intros Hlen H. unfold store_event in H. cbn [snd] in H.
  rewrite !string_append_assoc in H.
  apply string_append_inj_r in H as [H ->]; [|exact Hlen].
  apply string_append_inj_r in H as [-> _]; auto.
Qed.

Lemma event_ids_distinct_witness :
  "2024-01-01T00:00:00" = "2024-01-01T00:00:00" /\ "0a1b2c3d" = "0a1b2c3d".
Proof.
  apply (event_ids_distinct "job" "job" "log" "log" "a" "b" None None None None
           "2024-01-01T00:00:00" "2024-01-01T00:00:00" "0a1b2c3d" "0a1b2c3d"
           "t2" "t3" ∅ ∅); [reflexivity|vm_compute; reflexivity].
Defined.

(** ** A second start on a repaired directory *)

Section Settled.

Variable fresh_key : nat -> string.
Hypothesis fresh_key_long : forall j, 16 <= Z.of_nat (String.length (fresh_key j)).

Lemma fix_keys_settled (keys : list string) (m : nat) :
  Forall (fun key => 16 <= Z.of_nat (String.length key)) keys ->
  fix_keys fresh_key keys m = (keys, false, m).
Proof.
  intros Hlong. pose proof (fix_keys_spec fresh_key keys m) as Hspec.
  destruct (fix_keys fresh_key keys m) as [[ks' b] n'].
  destruct Hspec as (_ & _ & _ & Hsame & Hall).
  specialize (Hall Hlong). subst b. by destruct (Hsame eq_refl) as [-> ->].
Qed.

Lemma validate_and_fix_settled (c fixed : job_config) (modified : bool)
    (n n' : nat) :
  validate_and_fix_job_config fresh_key c n = inr (fixed, modified, n') ->
  (modified = false -> fixed = c)
  /\ job_id fixed = job_id c
  /\ forall m, validate_and_fix_job_config fresh_key fixed m
               = inr (fixed, false, m).
Proof.
  unfold validate_and_fix_job_config at 1. intros E.
  destruct (validate_job_id (default "" (job_id c))) eqn:Hv;
    cbn [negb] in E; cbv beta iota zeta in E; [|discriminate].
  pose proof (fix_keys_spec fresh_key (default [] (api_keys c)) n) as Hk.
  pose proof (fix_keys_long fresh_key (default [] (api_keys c)) n
                fresh_key_long) as Hl.
  destruct c as [ji bt ma ak dn tg de]. cbn [job_id backup_type max_age api_keys
    display_name tags description] in *.
  destruct (validate_backup_type (default "borgmatic" bt)) eqn:Hbt;
    destruct (validate_max_age (default "24h" ma)) eqn:Hma;
    cbv beta iota zeta in E.
  all: destruct (default [] ak) as [|k ks] eqn:Hkeys; cbv beta iota zeta in E.
  all: try (destruct (fix_keys fresh_key (k :: ks) n) as [[[|k' ks'] b] n3];
            destruct Hk as (Hlen & _ & _ & Hsame & _);
            [simpl in Hlen; lia|]; cbn [fst] in Hl).
  all: destruct dn; destruct tg; cbv beta iota zeta in E; inversion E; subst.
  all: split;
    [intros Hb; repeat (apply orb_false_elim in Hb as [Hb ?]);
     try discriminate;
     try (destruct (Hsame Hb) as [Hs _]; destruct ak; simpl in Hkeys;
          congruence)|].
  all: split; [reflexivity|].
  all: intros m; unfold validate_and_fix_job_config;
    cbn [job_id backup_type max_age api_keys display_name tags description];
    rewrite Hv; cbn [negb]; cbv beta iota zeta;
    rewrite ?Hbt, ?Hma.
  all: try change (validate_backup_type (default "borgmatic" (Some "borgmatic")))
         with true.
  all: try change (validate_max_age (default "24h" (Some "24h"))) with true.
  all: cbv beta iota zeta.
  all: try (change (default [] (Some (k' :: ks'))) with (k' :: ks');
            cbv beta iota;
            rewrite (fix_keys_settled (k' :: ks') m Hl); reflexivity).
  all: change (default [] (Some [fresh_key n])) with [fresh_key n];
    cbv beta iota.
  all: rewrite (fix_keys_settled [fresh_key n] m);
    [reflexivity|repeat constructor; apply fresh_key_long].
Qed.

Lemma validate_file_accepted (b : batch) (file : string * toml_file) :
  errors (validate_file fresh_key b file) = [] ->
  exists fixed,
    validate_file fresh_key b file
    = {| valid_configs := valid_configs b ++ [(default "" (job_id fixed), fixed)];
         seen_job_ids := {[ default "" (job_id fixed) ]} ∪ seen_job_ids b;
         errors := errors b;
         files_done := files_done b ++ [(fst file, Parsed fixed)];
         draws := draws (validate_file fresh_key b file) |}
    /\ (default "" (job_id fixed) ∉ seen_job_ids b)
    /\ forall m, validate_and_fix_job_config fresh_key fixed m
                 = inr (fixed, false, m).
Proof.
  destruct file as [name [c|msg]]; unfold validate_file; cbv beta iota zeta.
  2:{ cbn [errors]. intros H. by apply app_eq_nil in H as [_ H]. }
  destruct (validate_and_fix_job_config fresh_key c (draws b))
    as [msg|[[fixed modified] n']] eqn:E.
  { cbn [errors]. intros H. by apply app_eq_nil in H as [_ H]. }
  destruct (validate_and_fix_settled _ _ _ _ _ E) as (Hsame & _ & Hagain).
  destruct (decide (default "" (job_id fixed) ∈ seen_job_ids b)) as [Hin|Hnin].
  { cbn [errors]. intros H. by apply app_eq_nil in H as [_ H]. }
  intros _. exists fixed. split; [|split; assumption].
  cbn [fst draws]. destruct modified; [reflexivity|].
  by rewrite (Hsame eq_refl).
Qed.

Lemma fold_validate_again (files : list (string * toml_file)) (b b' : batch) :
  errors (fold_left (validate_file fresh_key) files b) = [] ->
  valid_configs b' = valid_configs b ->
  seen_job_ids b' = seen_job_ids b ->
  errors b' = [] ->
  exists written,
    files_done (fold_left (validate_file fresh_key) files b)
    = (files_done b ++ written)%list
    /\ valid_configs (fold_left (validate_file fresh_key) written b')
       = valid_configs (fold_left (validate_file fresh_key) files b)
    /\ errors (fold_left (validate_file fresh_key) written b') = []
    /\ files_done (fold_left (validate_file fresh_key) written b')
       = (files_done b' ++ written)%list
    /\ draws (fold_left (validate_file fresh_key) written b') = draws b'.
Proof.
  revert b b'. induction files as [|f files IH]; intros b b' Herr Hv Hs He.
  - exists []. cbn [fold_left]. rewrite !app_nil_r. auto.
  - cbn [fold_left] in *.
    assert (Hf : errors (validate_file fresh_key b f) = []).
    { destruct (fold_validate_grows fresh_key files
                  (validate_file fresh_key b f)) as [[more Hm] _].
      rewrite Herr in Hm. symmetry in Hm. by apply app_eq_nil in Hm as [Hm _]. }
    destruct (validate_file_accepted b f Hf) as (fixed & Hstep & Hnin & Hagain).
    set (b1 := validate_file fresh_key b f) in *.
    set (b1' := validate_file fresh_key b' (fst f, Parsed fixed)).
    assert (Hstep' : b1' = {| valid_configs := valid_configs b' ++ [(default "" (job_id fixed), fixed)];
         seen_job_ids := {[ default "" (job_id fixed) ]} ∪ seen_job_ids b';
         errors := errors b';
         files_done := files_done b' ++ [(fst f, Parsed fixed)];
         draws := draws b' |}).
    { unfold b1', validate_file. cbv beta iota zeta. rewrite Hagain.
      rewrite Hs. destruct (decide _) as [Hin|_]; [contradiction|reflexivity]. }
    destruct (IH b1 b1') as (written & Hd & Hvc & Her & Hfd & Hdr).
    + exact Herr.
    + rewrite Hstep', Hstep. cbn [valid_configs]. by rewrite Hv.
    + rewrite Hstep', Hstep. cbn [seen_job_ids]. by rewrite Hs.
    + rewrite Hstep'. exact He.
    + exists ((fst f, Parsed fixed) :: written). cbn [fold_left].
      fold b1'. rewrite Hd, Hvc, Her, Hfd, Hdr.
      rewrite Hstep', Hstep. cbn [files_done draws].
      rewrite <- !app_assoc. auto.
Qed.

(** X17. A second start finds nothing to repair: when the generated keys
    have 16 characters or more and [validate_all_configs] accepted a
    directory, running it again on the directory it left behind returns
    the same configurations, rewrites no file and generates no key. *)
Theorem validate_all_configs_settles (files dir : list (string * toml_file))
    (n n' m : nat) (configs : list (string * job_config)) :
  validate_all_configs fresh_key (Some files) n = (dir, n', inl configs) ->
  validate_all_configs fresh_key (Some dir) m = (dir, m, inl configs).
Proof.
  unfold validate_all_configs.
  set (b0 := {| valid_configs := []; seen_job_ids := ∅; errors := [];
                files_done := []; draws := n |}).
  set (b0' := {| valid_configs := []; seen_job_ids := ∅; errors := [];
                 files_done := []; draws := m |}).
  intros H.
  destruct (errors (fold_left (validate_file fresh_key) files b0)) eqn:Herr;
    [|discriminate].
  inversion H; subst; clear H.
  destruct (fold_validate_again files b0 b0' Herr eq_refl eq_refl eq_refl)
    as (written & Hd & Hvc & Her & Hfd & Hdr).
  subst b0 b0'. cbn [files_done draws app] in Hd, Hfd, Hdr.
  cbv zeta. rewrite Hd, Hfd, Hdr, Her, Hvc. reflexivity.
Qed.

End Settled.

Lemma validate_all_configs_settles_witness :
  exists dir configs,
    validate_all_configs constant_key (Some [("db.toml", Parsed config_db)]) 0
    = (dir, 1%nat, inl configs)
    /\ validate_all_configs constant_key (Some dir) 7
       = (dir, 7%nat, inl configs).
Proof.
  eexists _, _. split; [reflexivity|].
  apply (validate_all_configs_settles constant_key
           (fun j => ltac:(vm_compute; discriminate))
           [("db.toml", Parsed config_db)] _ 0 1 7).
  reflexivity.
Defined.

(** ** The list of jobs and the details of one *)

Lemma insert_by_name_sorted (x : job_summary_model) (l : list job_summary_model) :
  StronglySorted (fun a b => String.leb (name a) (name b) = true) l ->
  StronglySorted (fun a b => String.leb (name a) (name b) = true)
                 (insert_by_name x l).
Proof.
  induction l as [|y l IH]; intros Hs; simpl.
  - repeat constructor.
  - inversion Hs as [|? ? Hs' Hall]; subst.
    destruct (String.ltb (name y) (name x)) eqn:Hlt.
    + constructor; [by apply IH|].
      eapply Permutation_Forall; [symmetry; apply insert_by_name_Permutation|].
      constructor; [by apply string_ltb_leb|exact Hall].
    + apply string_ltb_false_leb in Hlt.
      constructor; [exact Hs|]. constructor; [exact Hlt|].
      eapply Forall_impl; [exact Hall|].
      intros z Hz. simpl in Hz. eapply string_leb_trans; eassumption.
Qed.

Lemma sort_by_name_sorted (l : list job_summary_model) :
  StronglySorted (fun a b => String.leb (name a) (name b) = true)
                 (sort_by_name l).
Proof.
  induction l as [|x l IH]; simpl; [constructor|by apply insert_by_name_sorted].
Qed.

Lemma configs_get_In (id : string) (job_configs : list (string * job_config))
    (cfg : job_config) :
  configs_get id job_configs = Some cfg -> In (id, cfg) job_configs.
Proof.
  induction job_configs as [|[k c] rest IH]; simpl; [discriminate|].
  destruct (String.eqb k id) eqn:E.
  - apply String.eqb_eq in E. intros H. inversion H; subst. by left.
  - intros H. right. by apply IH.
Qed.

Lemma configs_get_None (id : string) (job_configs : list (string * job_config)) :
  configs_get id job_configs = None -> ~ In id (map fst job_configs).
Proof.
  induction job_configs as [|[k c] rest IH]; simpl; [tauto|].
  destruct (String.eqb k id) eqn:E; [discriminate|].
  apply String.eqb_neq in E. intros H [Hk|Hin]; [contradiction|by apply IH].
Qed.

Lemma NoDup_keys_functional {A : Type} (l : list (string * A)) (k : string)
    (a b : A) :
  NoDup (map fst l) -> In (k, a) l -> In (k, b) l -> a = b.
Proof.
  induction l as [|[k' c] l IH]; simpl; [tauto|].
  intros Hnd. apply NoDup_cons in Hnd as [Hnin Hnd].
  assert (Hkey : forall x, In (k', x) l -> False).
  { intros x Hx. apply Hnin, list_elem_of_In.
    change k' with (fst (k', x)). by apply in_map. }
  intros [Ha|Ha] [Hb|Hb].
  - congruence.
  - inversion Ha; subst. destruct (Hkey _ Hb).
  - inversion Hb; subst. destruct (Hkey _ Ha).
  - by apply IH.
Qed.

Section JobViews.

Variable fromisoformat : string -> option datetime.
Variable now : datetime.
Variable relative_time : datetime -> string.
Variable coerce_int : json -> option Z.
Variable fresh_key : nat -> string.

Lemma load_job_identity (id : string) (cfg : job_config) (d : option job_dir)
    (j : job_summary_model) :
  load_job fromisoformat now relative_time coerce_int id cfg d = Some j ->
  jobId j = id /\ name j = default id (display_name cfg)
  /\ job_tags j = default [] (tags cfg).
Proof.
  unfold load_job. intros H.
  repeat match type of H with
         | mbind _ ?x = Some _ =>
             destruct x; cbn [mbind option_bind] in H; [|discriminate]
         end.
  inversion H; subst. auto.
Qed.

Lemma load_jobs_from (job_configs : list (string * job_config))
    (st : gmap string job_dir) (j : job_summary_model) :
  In j (load_jobs fromisoformat now relative_time coerce_int job_configs st) ->
  exists cfg, In (jobId j, cfg) job_configs
              /\ load_job fromisoformat now relative_time coerce_int (jobId j) cfg
                   (st !! jobId j) = Some j.
Proof.
  induction job_configs as [|[k c] rest IH]; simpl; [tauto|].
  destruct (load_job fromisoformat now relative_time coerce_int k c (st !! k))
    as [j'|] eqn:E.
  - intros [->|Hin].
    + destruct (load_job_identity _ _ _ _ E) as [Hid _]. subst k.
      exists c. auto.
    + destruct (IH Hin) as (cfg & H1 & H2). eauto.
  - intros Hin. destruct (IH Hin) as (cfg & H1 & H2). eauto.
Qed.

Lemma load_jobs_NoDup (job_configs : list (string * job_config))
    (st : gmap string job_dir) :
  NoDup (map fst job_configs) ->
  NoDup (map jobId (load_jobs fromisoformat now relative_time coerce_int job_configs st)).
Proof.
  induction job_configs as [|[k c] rest IH]; simpl; [constructor|].
  intros Hnd. apply NoDup_cons in Hnd as [Hnin Hnd].
  destruct (load_job fromisoformat now relative_time coerce_int k c (st !! k))
    as [j'|] eqn:E; [|by apply IH].
  simpl. apply NoDup_cons. split; [|by apply IH].
  intros Hin. apply Hnin. apply list_elem_of_In in Hin.
  apply in_map_iff in Hin as (m & Hm & Hin).
  destruct (load_jobs_from _ _ _ Hin) as (cfg & Hcfg & _).
  destruct (load_job_identity _ _ _ _ E) as [Hid _].
  apply list_elem_of_In. rewrite <- Hid, <- Hm.
  change (jobId m) with (fst (jobId m, cfg)). by apply in_map.
Qed.

Lemma get_all_job_configs_NoDup
    (config_dir : option (list (string * toml_file))) (n : nat) :
  NoDup (map fst (snd (get_all_job_configs fresh_key config_dir n))).
Proof.
  unfold get_all_job_configs, validate_all_configs.
  destruct config_dir as [files|]; [|constructor].
  set (b0 := {| valid_configs := []; seen_job_ids := ∅; errors := [];
                files_done := []; draws := n |}).
  assert (Hb0 : batch_invariant b0).
  { unfold batch_invariant, b0. simpl. split; [apply NoDup_nil_2|].
    split; [|split; [constructor|reflexivity]].
    intros id. split; [intros []|]. intros Hin.
    by apply not_elem_of_empty in Hin. }
  destruct (fold_validate_invariant fresh_key files b0 Hb0)
    as [(Hnd & _) _].
  cbv zeta. cbn [snd].
  destruct (errors (fold_left (validate_file fresh_key) files b0));
    [exact Hnd|constructor].
Qed.

(** X18. The list of jobs: [get_all_jobs] returns the jobs in the order
    of their names, no job id twice, and every job in it is a configured
    one, under the display name of its configuration (or its id). *)
Theorem get_all_jobs_listing (config_dir : option (list (string * toml_file)))
    (n : nat) (st : gmap string job_dir) :
  let jobs := snd (get_all_jobs fromisoformat now relative_time coerce_int fresh_key
                     config_dir n st) in
  StronglySorted (fun a b => String.leb (name a) (name b) = true) jobs
  /\ NoDup (map jobId jobs)
  /\ forall j, In j jobs ->
       exists cfg,
         In (jobId j, cfg) (snd (get_all_job_configs fresh_key config_dir n))
         /\ name j = default (jobId j) (display_name cfg).
Proof.
  unfold get_all_jobs.
  pose proof (get_all_job_configs_NoDup config_dir n) as Hnd.
  destruct (get_all_job_configs fresh_key config_dir n) as [[dir n'] cfgs].
  cbn [snd] in *. split; [apply sort_by_name_sorted|]. split.
  - rewrite sort_by_name_Permutation. by apply load_jobs_NoDup.
  - intros j Hin.
    eapply Permutation_in in Hin; [|apply sort_by_name_Permutation].
    destruct (load_jobs_from _ _ _ Hin) as (cfg & Hcfg & Hload).
    exists cfg. split; [exact Hcfg|].
    by destruct (load_job_identity _ _ _ _ Hload) as (_ & Hname & _).
Qed.

(** X19. The list and the details agree: [get_job_details] returns a job
    for an id exactly when [get_all_jobs] lists that id and the
    [description] of its configuration is absent or a string (another
    value fails the validation of the [Job] model); the summary fields of
    the detailed job are then those of the list entry, and its description
    is that string. *)
Theorem job_details_agree_with_list
    (config_dir : option (list (string * toml_file))) (n : nat) (id : string)
    (st : gmap string job_dir) :
  let jobs := snd (get_all_jobs fromisoformat now relative_time coerce_int
                     fresh_key config_dir n st) in
  let configs := snd (get_all_job_configs fresh_key config_dir n) in
  let details := snd (get_job_details fromisoformat now relative_time
                        coerce_int fresh_key config_dir n id st) in
  (is_Some details
   <-> (exists j, In j jobs /\ jobId j = id)
       /\ forall cfg, In (id, cfg) configs ->
            is_Some (as_optional_str (description cfg)))
  /\ forall job, details = Some job ->
       In (job_base job) jobs /\ jobId (job_base job) = id
       /\ exists cfg, In (id, cfg) configs
                      /\ as_optional_str (description cfg)
                         = Some (job_description job).
Proof.
  unfold get_all_jobs, get_job_details.
  pose proof (get_all_job_configs_NoDup config_dir n) as Hnd.
  destruct (get_all_job_configs fresh_key config_dir n) as [[dir n'] cfgs].
  cbn [snd] in *.
  assert (Hlisted : forall j, In j (sort_by_name
                       (load_jobs fromisoformat now relative_time coerce_int
                          cfgs st)) -> jobId j = id ->
                    exists cfg, In (id, cfg) cfgs
                      /\ load_job fromisoformat now relative_time coerce_int
                           id cfg (st !! id) = Some j).
  { intros j Hin Hid.
    eapply Permutation_in in Hin; [|apply sort_by_name_Permutation].
    destruct (load_jobs_from _ _ _ Hin) as (cfg & Hcfg & Hload).
    rewrite Hid in Hcfg, Hload. eauto. }
  destruct (configs_get id cfgs) as [cfg|] eqn:Hget.
  - apply configs_get_In in Hget.
    destruct (load_job fromisoformat now relative_time coerce_int id cfg
                (st !! id)) as [base|] eqn:Hload.
    + destruct (as_optional_str (description cfg)) as [text|] eqn:Htext.
      * split.
        -- split; [intros _|intros _; eauto]. split.
           ++ exists base. split; [by eapply load_jobs_In|].
              by destruct (load_job_identity _ _ _ _ Hload).
           ++ intros cfg' Hcfg'.
              rewrite (NoDup_keys_functional _ _ _ _ Hnd Hcfg' Hget). eauto.
        -- intros job Hjob. inversion Hjob; subst. cbn [job_base job_description].
           split; [by eapply load_jobs_In|].
           split; [by destruct (load_job_identity _ _ _ _ Hload)|eauto].
      * split; [|discriminate].
        split; [intros [? H]; discriminate|].
        intros [_ Hall]. destruct (Hall cfg Hget) as [? H]. congruence.
    + split; [|discriminate].
      split; [intros [? H]; discriminate|].
      intros [(j & Hin & Hid) _].
      destruct (Hlisted j Hin Hid) as (cfg' & Hcfg & Hload').
      rewrite (NoDup_keys_functional _ _ _ _ Hnd Hcfg Hget) in Hload'.
      congruence.
  - apply configs_get_None in Hget. split; [|discriminate].
    split; [intros [? H]; discriminate|].
    intros [(j & Hin & Hid) _].
    destruct (Hlisted j Hin Hid) as (cfg' & Hcfg & _).
    exfalso. apply Hget. change id with (fst (id, cfg')). by apply in_map.
Qed.

End JobViews.

(** A job whose configuration has a number as [description] is listed,
    and its details are not found. *)
Example job_with_numeric_description :
  let cfg := {| job_id := Some "job"; backup_type := Some "borg";
                max_age := Some "24h";
                api_keys := Some ["0123456789abcdef0123456789abcdef"];
                display_name := Some "Job"; tags := Some [];
                description := Some (JInt 5) |} in
  let dir := Some [("job.toml", Parsed cfg)] in
  map jobId (snd (get_all_jobs read_2024 noon_2026_11_04 no_relative_time
                    no_int_coercion constant_key dir 0 ∅)) = ["job"]
  /\ snd (get_job_details read_2024 noon_2026_11_04 no_relative_time
            no_int_coercion constant_key dir 0 "job" ∅) = None.
Proof. vm_compute. split; reflexivity. Qed.

(** ** The newest archive *)

Section Newest.

Variable fromisoformat : string -> option datetime.

Lemma latest_loop_newest (l : list json) (cur : option datetime) (d : datetime) :
  latest_loop fromisoformat l cur = Some (Some d) ->
  (cur = Some d \/ exists a, In a l /\ archive_date fromisoformat a = Some d)
  /\ (forall c, cur = Some c ->
        dt_aware c = dt_aware d /\ dt_us c <= dt_us d)
  /\ (forall a d', In a l -> archive_date fromisoformat a = Some d' ->
        dt_aware d' = dt_aware d -> dt_us d' <= dt_us d).
Proof.
  revert cur. induction l as [|a l IH]; intros cur H.
  - simpl in H. inversion H; subst. split; [by left|]. split.
    + intros c Hc. inversion Hc; subst. split; [reflexivity|lia].
    + intros a d' [].
  - cbn [latest_loop] in H.
    destruct a as [| | | | |?|archive]; try discriminate.
    unfold archive_date at 1 2. cbn [In].
    destruct (py_or (assoc_get "start" archive) (assoc_get "time" archive))
      as [v|] eqn:Hv.
    2:{ destruct (IH _ H) as (Hfrom & Hcur & Hall). split; [|split].
        - destruct Hfrom as [?|(a & Ha & Hd)]; [by left|right; eauto].
        - exact Hcur.
        - intros a d' [<-|Ha] Hd; [rewrite Hv in Hd; discriminate|].
          by apply (Hall a). }
    destruct (truthy v) eqn:Ht; cbn [negb] in H.
    2:{ destruct (IH _ H) as (Hfrom & Hcur & Hall). split; [|split].
        - destruct Hfrom as [?|(a & Ha & Hd)]; [by left|right; eauto].
        - exact Hcur.
        - intros a d' [<-|Ha] Hd; [|by apply (Hall a)].
          rewrite Hv in Hd. destruct v; try discriminate.
          rewrite Ht in Hd. discriminate. }
    destruct v as [| | | |s| |]; try discriminate.
    destruct (fromisoformat (replace_Z s)) as [x|] eqn:Hx.
    2:{ destruct (IH _ H) as (Hfrom & Hcur & Hall). split; [|split].
        - destruct Hfrom as [?|(a & Ha & Hd)]; [by left|right; eauto].
        - exact Hcur.
        - intros a d' [<-|Ha] Hd; [|by apply (Hall a)].
          rewrite Hv, Ht, Hx in Hd. discriminate. }
    assert (Hself : archive_date fromisoformat (JObj archive) = Some x).
    { unfold archive_date. by rewrite Hv, Ht, Hx. }
    destruct cur as [c|].
    + destruct (Bool.eqb (dt_aware x) (dt_aware c)) eqn:Haw.
      * apply Bool.eqb_prop in Haw.
        destruct (dt_us c <? dt_us x) eqn:Hlt;
          [apply Z.ltb_lt in Hlt|apply Z.ltb_ge in Hlt];
          destruct (IH _ H) as (Hfrom & Hcur & Hall);
          destruct (Hcur _ eq_refl) as [Haw' Hle].
        -- split; [|split].
           ++ right. destruct Hfrom as [Heq|(a & Ha & Hd)]; [|eauto].
              inversion Heq; subst. eauto.
           ++ intros c' Hc. inversion Hc; subst. split; [congruence|lia].
           ++ intros a d' [<-|Ha] Hd; [|by apply (Hall a)].
              rewrite Hv, Ht, Hx in Hd. inversion Hd; subst. intros _. lia.
        -- split; [|split].
           ++ destruct Hfrom as [?|(a & Ha & Hd)]; [by left|right; eauto].
           ++ exact Hcur.
           ++ intros a d' [<-|Ha] Hd; [|by apply (Hall a)].
              rewrite Hv, Ht, Hx in Hd. inversion Hd; subst. intros _. lia.
      * apply Bool.eqb_false_iff in Haw.
        destruct (IH _ H) as (Hfrom & Hcur & Hall).
        destruct (Hcur _ eq_refl) as [Haw' Hle].
        split; [|split].
        -- destruct Hfrom as [?|(a & Ha & Hd)]; [by left|right; eauto].
        -- exact Hcur.
        -- intros a d' [<-|Ha] Hd; [|by apply (Hall a)].
           rewrite Hv, Ht, Hx in Hd. inversion Hd; subst. congruence.
    + destruct (IH _ H) as (Hfrom & Hcur & Hall).
      destruct (Hcur _ eq_refl) as [Haw' Hle].
      split; [|split].
      * right. destruct Hfrom as [Heq|(a & Ha & Hd)]; [|eauto].
        inversion Heq; subst. eauto.
      * intros c' Hc. discriminate.
      * intros a d' [<-|Ha] Hd; [|by apply (Hall a)].
        rewrite Hv, Ht, Hx in Hd. inversion Hd; subst. intros _. lia.
Qed.

(** X20. The latest archive date is the newest one: a date that
    [_get_latest_archive_date] returns is the [isoformat] of the date of
    one of the archives, and no archive of the list has a later date
    (among the dates that can be compared with it: naive ones with a
    naive, offset-carrying ones with an offset-carrying date). *)
Theorem latest_archive_date_is_newest (l : list json) (r : string) :
  _get_latest_archive_date fromisoformat (Some (JList l)) = Some r ->
  exists d,
    r = isoformat d
    /\ (exists a, In a l /\ archive_date fromisoformat a = Some d)
    /\ forall a d', In a l -> archive_date fromisoformat a = Some d' ->
         dt_aware d' = dt_aware d -> dt_us d' <= dt_us d.
Proof.
  unfold _get_latest_archive_date. intros H.
  destruct (latest_loop fromisoformat l None) as [[d|]|] eqn:E;
    try discriminate.
  inversion H; subst. exists d.
  destruct (latest_loop_newest _ _ _ E) as (Hfrom & _ & Hall).
  split; [reflexivity|]. split; [|exact Hall].
  destruct Hfrom as [?|?]; [discriminate|assumption].
Qed.

End Newest.

Lemma latest_archive_date_is_newest_witness :
  exists d,
    "2024-01-01T00:00:00" = isoformat d
    /\ (exists a, In a [JObj [("time", JStr "2024-01-01T00:00:00")];
                        JObj [("name", JStr "a0")]]
                  /\ archive_date read_2024 a = Some d)
    /\ forall a d', In a [JObj [("time", JStr "2024-01-01T00:00:00")];
                          JObj [("name", JStr "a0")]] ->
         archive_date read_2024 a = Some d' ->
         dt_aware d' = dt_aware d -> dt_us d' <= dt_us d.
Proof.
  exact (latest_archive_date_is_newest read_2024
           [JObj [("time", JStr "2024-01-01T00:00:00")];
            JObj [("name", JStr "a0")]]
           "2024-01-01T00:00:00" eq_refl).
Defined.

(** ** The schedule status *)

Section Schedule.

Variable fromisoformat : string -> option datetime.
Variable now : datetime.

(** X21. When a job is overdue: [_calculate_schedule_status] answers
    ["overdue"] exactly when the last backup is a non-empty string that
    [fromisoformat] reads as a datetime without UTC offset, [max_age] is
    accepted by the parser, the cutoff [now - max_age] exists and the
    backup lies strictly before it.  A backup time that carries an offset
    is never overdue. *)
Theorem schedule_status_overdue (v : option json) (max_age : string) :
  _calculate_schedule_status fromisoformat now v max_age = Some "overdue"
  <-> exists s d seconds,
        v = Some (JStr s) /\ s <> ""
        /\ fromisoformat (replace_Z s) = Some d
        /\ dt_aware d = false
        /\ parse_max_age_to_seconds max_age = Some seconds
        /\ seconds * 1000000 <= dt_us now
        /\ dt_us d < dt_us now - seconds * 1000000.
Proof.
  unfold _calculate_schedule_status, is_backup_overdue. split.
  - destruct v as [v|]; [|discriminate].
    destruct (truthy v) eqn:Ht; cbn [negb]; [|discriminate].
    destruct v as [| | | |s| |]; try discriminate.
    destruct (fromisoformat (replace_Z s)) as [d|] eqn:Hd; [|discriminate].
    destruct (parse_max_age_to_seconds max_age) as [secs|] eqn:Hp;
      [|discriminate].
    destruct (secs * 1000000 <=? dt_us now) eqn:Hc; [|discriminate].
    destruct (dt_aware d) eqn:Ha; [discriminate|].
    destruct (dt_us d <? dt_us now - secs * 1000000) eqn:Hlt; [|discriminate].
    intros _. exists s, d, secs.
    apply Z.leb_le in Hc. apply Z.ltb_lt in Hlt.
    repeat split; try assumption.
    intros ->. discriminate.
  - intros (s & d & secs & -> & Hs & Hd & Ha & Hp & Hc & Hlt).
    assert (Ht : truthy (JStr s) = true).
    { simpl. by apply negb_true_iff, String.eqb_neq. }
    rewrite Ht. cbn [negb]. rewrite Hd, Hp.
    apply Z.leb_le in Hc. apply Z.ltb_lt in Hlt.
    by rewrite Hc, Ha, Hlt.
Qed.

End Schedule.

(** ** Borgmatic payloads in the unified files *)

Section Unified.

Variable float_of_str : string -> option spec_float.

Lemma store_unified_without_archives (id now : string)
    (with_fallback final_count : bool)
    (repository_info : list (string * json)) (archives_ path : json)
    (d : job_dir) :
  truthy archives_ = false ->
  fst (store_unified float_of_str id now with_fallback final_count
         repository_info archives_ path d)
  = d
  \/ fst (store_unified float_of_str id now with_fallback final_count
            repository_info archives_ path d)
     = set_repository_info (JObj repository_info) d.
Proof.
  intros Ht. unfold store_unified. cbv zeta. rewrite Ht. cbn [fst].
  destruct (truthy (JObj repository_info)); auto.
Qed.

(** X22. A borgmatic payload without archives (no [archives] key, or an
    empty one) touches at most [repository_info.json]: after
    [store_borgmatic_info] and [store_borgmatic_rinfo] the job directory is
    what it was, or differs from it in the repository info taken from the
    payload; the archive list and the summary stay. *)
Theorem borgmatic_without_archives (id now : string)
    (data : list (string * json)) (rest : list (list (string * json)))
    (st : gmap string job_dir) :
  truthy (default (JList []) (assoc_get "archives" data)) = false ->
  let d := the_dir id st in
  let at_most_info (r : gmap string job_dir * outcome) :=
    exists d', fst r = <[id := d']> st
               /\ (d' = d
                   \/ d' = set_repository_info
                             (JObj (_extract_repository_info data)) d) in
  at_most_info (store_borgmatic_info float_of_str id now (BDict data) st)
  /\ at_most_info (store_borgmatic_info float_of_str id now
                     (BList (data :: rest)) st)
  /\ at_most_info (store_borgmatic_rinfo float_of_str id now (BDict data) st).
Proof.
  intros Ht d at_most_info.
  assert (Hinfo : forall chosen,
             chosen = BDict data \/ chosen = BList (data :: rest) ->
             at_most_info (store_borgmatic_info float_of_str id now chosen st)).
  { intros chosen Hc. unfold at_most_info, store_borgmatic_info.
    assert (Hsame : match chosen with
                    | BDict data0 => Some data0
                    | BList [] => None
                    | BList (first_repo :: _) => Some first_repo
                    end = Some data) by (destruct Hc; subst; reflexivity).
    cbv zeta. rewrite Hsame.
    destruct (repository_get "location" data) as [loc|];
      unfold finish_store; cbn [fst].
    - eexists. split; [reflexivity|].
      by apply store_unified_without_archives.
    - eexists. split; [reflexivity|]. by left. }
  split; [apply Hinfo; auto|]. split; [apply Hinfo; auto|].
  unfold at_most_info, store_borgmatic_rinfo. cbv zeta.
  destruct (repository_get "location" data) as [loc|];
    unfold finish_store; cbn [fst].
  - eexists. split; [reflexivity|].
    by apply store_unified_without_archives.
  - eexists. split; [reflexivity|]. by left.
Qed.

(** An [archives] entry without a length: [null] leaves
    [store_borgmatic_rinfo] with the [TypeError] of its last log line, a
    number leaves both stores with that of the log line after
    [archives.json]; the push routes answer 500. *)
Example borgmatic_archives_without_len :
  let payload (v : json) :=
    BDict [("repository", JObj [("location", JStr "/backup")]);
           ("archives", v)] in
  snd (store_borgmatic_rinfo float_of_str "job" "2024-01-01T00:05:00"
         (payload JNull) ∅) = Raised
  /\ snd (store_borgmatic_info float_of_str "job" "2024-01-01T00:05:00"
            (payload JNull) ∅) = Returned
  /\ snd (store_borgmatic_info float_of_str "job" "2024-01-01T00:05:00"
            (payload (JInt 5)) ∅) = Raised
  /\ snd (push_borgmatic_rinfo float_of_str "job" "2024-01-01T00:05:00"
            (payload JNull) None ∅)
     = HttpError 500 "Failed to store Borgmatic rinfo".
Proof. repeat split; reflexivity. Qed.

(** X23. The unified format: for a payload whose [repository] entry is an
    object and whose [archives] are a non-empty list, [store_borgmatic_info]
    (on the payload, or on a list that starts with it) and
    [store_borgmatic_rinfo] do what [store_borg_info] does with the
    extracted repository info and those archives: the same files, the same
    summary.  Of a list, [store_borgmatic_info] stores the first entry
    only. *)
Theorem borgmatic_stores_as_borg_info (id now : string)
    (data r : list (string * json)) (a : json) (archive_list : list json)
    (rest : list (list (string * json))) (st : gmap string job_dir) :
  assoc_get "repository" data = Some (JObj r) ->
  assoc_get "archives" data = Some (JList (a :: archive_list)) ->
  let stored := store_borg_info float_of_str id now
                  (_extract_repository_info data) (a :: archive_list) st in
  store_borgmatic_info float_of_str id now (BDict data) st = stored
  /\ store_borgmatic_info float_of_str id now (BList (data :: rest)) st = stored
  /\ store_borgmatic_rinfo float_of_str id now (BDict data) st = stored.
Proof.
  intros Hr Ha stored.
  assert (Hloc : repository_get "location" data = Some (assoc_get "location" r)).
  { unfold repository_get. by rewrite Hr. }
  assert (Hinfo : truthy (JObj (_extract_repository_info data)) = true).
  { unfold _extract_repository_info. by rewrite Hr. }
  assert (Hu : forall b c p,
             store_unified float_of_str id now b c
               (_extract_repository_info data)
               (JList (a :: archive_list)) p (the_dir id st)
             = (_update_summary_from_borg_info float_of_str id now
                  (_extract_repository_info data) (JList (a :: archive_list))
                  (set_archives (JList (a :: archive_list))
                     (set_repository_info (JObj (_extract_repository_info data))
                        (the_dir id st))),
                Returned)).
  { intros b c p. unfold store_unified. rewrite Hinfo. reflexivity. }
  unfold stored, store_borg_info, store_borgmatic_info, store_borgmatic_rinfo.
  cbv zeta. rewrite Hloc, Ha. cbn [default]. rewrite !Hu.
  unfold finish_store. cbn [fst snd]. auto.
Qed.

End Unified.

Lemma borgmatic_without_archives_witness :
  exists d',
    fst (store_borgmatic_rinfo no_float_of_str "job" "2024-01-01T00:05:00"
           (BDict [("repository", JObj [("location", JStr "/backup")])])
           archives_only)
    = <["job" := d']> archives_only
    /\ archives d' = archives (the_dir "job" archives_only).
Proof.
  destruct (borgmatic_without_archives no_float_of_str "job"
              "2024-01-01T00:05:00"
              [("repository", JObj [("location", JStr "/backup")])] []
              archives_only eq_refl)
    as (_ & _ & d' & Hst & Hd).
  exists d'. split; [exact Hst|]. destruct Hd as [->| ->]; reflexivity.
Defined.

Lemma borgmatic_stores_as_borg_info_witness :
  store_borgmatic_info no_float_of_str "job" "2024-01-01T00:05:00"
    (BDict [("repository", JObj [("location", JStr "/backup")]);
            ("archives", JList [JObj [("name", JStr "a1")]])]) ∅
  = store_borg_info no_float_of_str "job" "2024-01-01T00:05:00"
      [("repository", JObj [("location", JStr "/backup")])]
      [JObj [("name", JStr "a1")]] ∅.
Proof.
  exact (proj1 (borgmatic_stores_as_borg_info no_float_of_str "job"
                  "2024-01-01T00:05:00"
                  [("repository", JObj [("location", JStr "/backup")]);
                   ("archives", JList [JObj [("name", JStr "a1")]])]
                  [("location", JStr "/backup")] (JObj [("name", JStr "a1")])
                  [] [] ∅ eq_refl eq_refl)).
Defined.

(** ** Choosing a repository by its label *)

Lemma find_label_decided (repository_label : string)
    (pre post : list (list (string * json))) (x : list (string * json)) :
  Forall (fun y => label_matches repository_label y = Some false) pre ->
  label_matches repository_label x <> Some false ->
  find_label repository_label (pre ++ x :: post)
  = match label_matches repository_label x with
    | Some _ => Some (Some x)
    | None => None
    end.
Proof.
  intros Hpre Hx. induction Hpre as [|y pre Hy Hpre IH]; simpl.
  - destruct (label_matches repository_label x) as [[|]|]; congruence.
  - by rewrite Hy.
Qed.

(** X24. The entry that decides: in a list of repositories, let the
    entries before [x] each have an object (or nothing) as [repository]
    and another label than the requested one.  If [x] carries the
    requested label, [filter_borgmatic_data] returns [x] and the borgmatic
    push routes hand exactly it to the store, whatever follows it in the
    list.  If the [repository] of [x] is not an object, the
    [AttributeError] makes the filter return [{}], and the routes raise
    their error 400 for a label that was not found. *)
Theorem filter_returns_first_labelled (repository_label : string)
    (pre post : list (list (string * json))) (x : list (string * json)) :
  repository_label <> "" ->
  Forall (fun y => label_matches repository_label y = Some false) pre ->
  match label_matches repository_label x with
  | Some true =>
      filter_borgmatic_data (BList (pre ++ x :: post)) repository_label = x
      /\ select_repository (BList (pre ++ x :: post)) (Some repository_label)
         = inl (BDict x)
  | Some false => True
  | None =>
      filter_borgmatic_data (BList (pre ++ x :: post)) repository_label = []
      /\ select_repository (BList (pre ++ x :: post)) (Some repository_label)
         = inr (HttpError 400
                  ("Repository with label '" ++ repository_label
                     ++ "' not found in borgmatic data")%string)
  end.
Proof.
  intros Hne Hpre. apply String.eqb_neq in Hne.
  destruct (label_matches repository_label x) as [[|]|] eqn:Hl; [|exact I|].
  all: assert (Hx : label_matches repository_label x <> Some false)
         by (rewrite Hl; discriminate).
  all: assert (Hf := find_label_decided _ _ post _ Hpre Hx); rewrite Hl in Hf.
  all: assert (Hfilter : filter_borgmatic_data (BList (pre ++ x :: post))
                           repository_label
                         = match label_matches repository_label x with
                           | Some _ => x
                           | None => []
                           end)
         by (unfold filter_borgmatic_data; rewrite Hne, Hf, Hl; reflexivity).
  all: rewrite Hl in Hfilter.
  all: split; [exact Hfilter|].
  all: unfold select_repository;
    change (default "" (Some repository_label)) with repository_label;
    cbv zeta; rewrite Hne; cbn [negb andb]; rewrite andb_false_r, Hfilter.
  - assert (Ht : truthy (JObj x) = true).
    { destruct x; [discriminate Hl|reflexivity]. }
    by rewrite Ht.
  - reflexivity.
Qed.

Lemma filter_returns_first_labelled_witness :
  select_repository
    (BList [[("repository", JObj [("label", JStr "a")])];
            [("repository", JObj [("label", JStr "b")]); ("archives", JList [])];
            [("repository", JObj [("label", JStr "b")])]])
    (Some "b")
  = inl (BDict [("repository", JObj [("label", JStr "b")]);
                ("archives", JList [])]).
Proof.
  refine (proj2 (filter_returns_first_labelled "b"
                   [[("repository", JObj [("label", JStr "a")])]]
                   [[("repository", JObj [("label", JStr "b")])]]
                   [("repository", JObj [("label", JStr "b")]);
                    ("archives", JList [])] _ _)).
  - discriminate.
  - repeat constructor.
Defined.

(** A list whose first entry has a string as [repository]: the entry with
    the label behind it is not reached. *)
Example filter_stops_at_malformed_entry :
  let data := BList [[("repository", JStr "x")];
                     [("repository", JObj [("label", JStr "b")])]] in
  filter_borgmatic_data data "b" = []
  /\ select_repository data (Some "b")
     = inr (HttpError 400 "Repository with label 'b' not found in borgmatic data").
Proof. vm_compute. split; reflexivity. Qed.

(** ** The list of events *)

Lemma StronglySorted_sublist {A : Type} (R : A -> A -> Prop) (l1 l2 : list A) :
  sublist l1 l2 -> StronglySorted R l2 -> StronglySorted R l1.
Proof.
  induction 1 as [|x l1 l2 Hsub IH|x l1 l2 Hsub IH]; intros Hs.
  - constructor.
  - inversion Hs as [|? ? Hs' Hall]; subst. constructor; [by apply IH|].
    apply Forall_forall. intros y Hy. rewrite Forall_forall in Hall.
    apply Hall. by eapply elem_of_sublist.
  - inversion Hs; subst. by apply IH.
Qed.

Lemma py_slice_sublist {A : Type} (l : list A) (offset limit : Z) :
  sublist (py_slice l offset limit) l.
Proof.
  unfold py_slice. etransitivity; [apply sublist_take|apply sublist_drop].
Qed.

Lemma insert_newest_Permutation (x : datetime * event_data)
    (l : list (datetime * event_data)) :
  Permutation (insert_newest x l) (x :: l).
Proof.
  induction l as [|y l IH]; simpl; [reflexivity|].
  destruct (dt_us (fst x) <? dt_us (fst y)); [|reflexivity].
  rewrite IH. apply perm_swap.
Qed.

Lemma sort_newest_Permutation (l : list (datetime * event_data)) :
  Permutation (sort_newest l) l.
Proof.
  induction l as [|x l IH]; simpl; [reflexivity|].
  rewrite insert_newest_Permutation. by constructor.
Qed.

Lemma insert_newest_sorted (x : datetime * event_data)
    (l : list (datetime * event_data)) :
  StronglySorted (fun a b => dt_us (fst b) <= dt_us (fst a)) l ->
  StronglySorted (fun a b => dt_us (fst b) <= dt_us (fst a)) (insert_newest x l).
Proof.
  induction l as [|y l IH]; intros Hs; simpl.
  - repeat constructor.
  - inversion Hs as [|? ? Hs' Hall]; subst.
    destruct (Z.ltb_spec (dt_us (fst x)) (dt_us (fst y))) as [Hlt|Hge].
    + constructor; [by apply IH|].
      rewrite insert_newest_Permutation. constructor; [lia|exact Hall].
    + constructor; [exact Hs|]. constructor; [exact Hge|].
      eapply Forall_impl; [exact Hall|]. intros z Hz. simpl in Hz. lia.
Qed.

Lemma sort_newest_sorted (l : list (datetime * event_data)) :
  StronglySorted (fun a b => dt_us (fst b) <= dt_us (fst a)) (sort_newest l).
Proof.
  induction l as [|x l IH]; simpl; [constructor|by apply insert_newest_sorted].
Qed.

Section EventList.

Variable fromisoformat : string -> option datetime.
Variable relative_time : datetime -> string.
Variable glob : gmap string event_data -> list (string * event_data).
Hypothesis glob_lists : forall m, Permutation (glob m) (map_to_list m).

Lemma load_events_Permutation (l l' : list (string * event_data)) :
  Permutation l l' ->
  Permutation (load_events fromisoformat l) (load_events fromisoformat l').
Proof.
  induction 1 as [|[k ev] l l' Hp IH|[k1 e1] [k2 e2] l|l1 l2 l3 H1 IH1 H2 IH2];
    simpl.
  - reflexivity.
  - destruct (fromisoformat (ev_timestamp ev)); [by constructor|exact IH].
  - destruct (fromisoformat (ev_timestamp e1));
      destruct (fromisoformat (ev_timestamp e2)); try reflexivity.
    apply perm_swap.
  - by etransitivity.
Qed.

Lemma load_events_In (l : list (string * event_data))
    (x : datetime * event_data) :
  In x (load_events fromisoformat l) ->
  exists k, In (k, snd x) l /\ fromisoformat (ev_timestamp (snd x)) = Some (fst x).
Proof.
  induction l as [|[k ev] l IH]; simpl; [tauto|].
  destruct (fromisoformat (ev_timestamp ev)) as [t|] eqn:E.
  - intros [<-|Hin].
    + exists k. simpl. auto.
    + destruct (IH Hin) as (k' & Hk & Ht). eauto.
  - intros Hin. destruct (IH Hin) as (k' & Hk & Ht). eauto.
Qed.

(** X25. A page of events: for a non-negative offset and limit, a page
    that [get_job_events] returns counts in [total] the event files whose
    timestamp can be read, whatever the order in which the directory lists
    them; it holds [min(limit, max(0, total - offset))] events, newest
    first, each built from an event file of the job; [hasMore] is true
    exactly when [offset + limit < total], and [nextOffset] is
    [offset + limit] exactly then. *)
Theorem job_events_page (id : string) (offset limit : Z)
    (st : gmap string job_dir) (p : event_page) :
  0 <= offset -> 0 <= limit ->
  get_job_events fromisoformat relative_time glob id offset limit st = Some p ->
  event_page_law offset limit p
  /\ page_total p
     = Z.of_nat (List.length (load_events fromisoformat
                                (map_to_list (events_of id st))))
  /\ forall item, In item (page_items p) ->
       exists k ev t,
         events_of id st !! k = Some ev
         /\ fromisoformat (ev_timestamp ev) = Some t
         /\ item = make_backup_event relative_time (t, ev).
Proof.
  intros Ho Hl. unfold get_job_events, events_of.
  destruct (st !! id) as [d|].
  2:{ intros H. inversion H; subst. unfold event_page_law. simpl.
      rewrite map_to_list_empty. simpl.
      repeat split; try lia; try discriminate; try constructor. }
  cbv zeta. destruct (comparable _); [|discriminate].
  intros H. inversion H; subst; clear H.
  set (loaded := load_events fromisoformat (glob (events d))).
  assert (Hlen : List.length (sort_newest loaded)
                 = List.length (load_events fromisoformat
                                  (map_to_list (events d)))).
  { rewrite sort_newest_Permutation. unfold loaded.
    by rewrite (load_events_Permutation _ _ (glob_lists (events d))). }
  split; [|split].
  - unfold event_page_law. cbn [page_items page_total page_hasMore page_nextOffset].
    split; [|split; [|split]].
    + rewrite length_map. by apply py_slice_length.
    + apply Z.ltb_lt.
    + reflexivity.
    + apply (StronglySorted_fmap (make_backup_event relative_time)
               (fun a b => dt_us (fst b) <= dt_us (fst a))).
      * intros x y Hxy. exact Hxy.
      * eapply StronglySorted_sublist;
          [apply py_slice_sublist|apply sort_newest_sorted].
  - cbn [page_total]. by rewrite Hlen.
  - cbn [page_items]. intros item Hin.
    apply in_map_iff in Hin as ([t ev] & <- & Hin).
    apply list_elem_of_In in Hin.
    apply (fun H => elem_of_sublist _ _ _ H (py_slice_sublist _ _ _)) in Hin.
    rewrite sort_newest_Permutation in Hin. apply list_elem_of_In in Hin.
    apply load_events_In in Hin as (k & Hk & Ht). simpl in Hk, Ht.
    exists k, ev, t. split; [|split; [exact Ht|reflexivity]].
    apply elem_of_map_to_list. rewrite <- (glob_lists (events d)).
    by apply list_elem_of_In.
Qed.

Lemma comparable_same (l : list (datetime * event_data)) (a : bool) :
  (forall x, In x l -> dt_aware (fst x) = a) -> comparable l = true.
Proof.
  intros H. unfold comparable. apply orb_true_iff.
  destruct a; [left|right]; apply forallb_forall; intros x Hx;
    by rewrite (H x Hx).
Qed.

Lemma sorted_newest_head (s l0 : list (datetime * event_data))
    (x : datetime * event_data) :
  StronglySorted (fun a b => dt_us (fst b) <= dt_us (fst a)) s ->
  Permutation s (x :: l0) ->
  Forall (fun y => dt_us (fst y) < dt_us (fst x)) l0 ->
  exists tl, s = x :: tl.
Proof.
  intros Hs Hp Hall. destruct s as [|h tl].
  { apply Permutation_nil in Hp. discriminate. }
  assert (Hh : In h (x :: l0)).
  { eapply Permutation_in; [exact Hp|]. by left. }
  destruct Hh as [<-|Hh]; [by exists tl|].
  rewrite Forall_forall in Hall.
  pose proof (Hall h ltac:(by apply list_elem_of_In)) as Hlt.
  assert (Hx : In x (h :: tl)).
  { eapply Permutation_in; [symmetry; exact Hp|]. by left. }
  destruct Hx as [->|Hx]; [by exists tl|].
  inversion Hs as [|? ? _ Hhd]; subst. rewrite Forall_forall in Hhd.
  pose proof (Hhd x ltac:(by apply list_elem_of_In)). lia.
Qed.

(** X26. The newest event heads the list: after [store_event] with a
    fresh event id and a timestamp that [fromisoformat] reads, later than
    the timestamps of the events stored before (and, like them, with or
    without UTC offset), [get_job_events] from offset 0 counts one event
    more and has the new event, with the pushed type and message, as its
    first item. *)
Theorem new_event_heads_the_list (id event_type message : string)
    (info : option string) (extra : option (list (string * json)))
    (timestamp suffix now' : string) (limit : Z) (st : gmap string job_dir)
    (t : datetime) :
  0 < limit ->
  fromisoformat timestamp = Some t ->
  events_of id st !! (timestamp ++ "_" ++ suffix)%string = None ->
  (forall k ev t', events_of id st !! k = Some ev ->
     fromisoformat (ev_timestamp ev) = Some t' ->
     dt_aware t' = dt_aware t /\ dt_us t' < dt_us t) ->
  let r := store_event id event_type message info extra timestamp suffix now' st in
  exists p item rest,
    get_job_events fromisoformat relative_time glob id 0 limit (fst r) = Some p
    /\ page_total p
       = 1 + Z.of_nat (List.length (load_events fromisoformat
                                     (map_to_list (events_of id st))))
    /\ page_items p = item :: rest
    /\ be_id item = snd r /\ be_type item = event_type
    /\ be_message item = message /\ be_timestamp item = t.
Proof.
  intros Hlimit Ht Hfresh Hold r.
  set (eid := (timestamp ++ "_" ++ suffix)%string) in *.
  set (m := events_of id st) in *.
  assert (Hr : exists d' ev,
             fst r !! id = Some d' /\ events d' = <[eid := ev]> m
             /\ snd r = eid /\ ev_id ev = eid /\ ev_type ev = event_type
             /\ ev_message ev = message /\ ev_timestamp ev = timestamp).
  { unfold r, store_event. cbv zeta. cbn [fst snd]. rewrite lookup_insert_eq.
    assert (Hm : m = events (the_dir id st)).
    { unfold m, events_of, the_dir. by destruct (st !! id). }
    rewrite Hm. fold eid.
    eexists _, {| ev_id := eid; ev_type := event_type;
                  ev_timestamp := timestamp; ev_message := message;
                  ev_has_info := match info with Some _ => true | None => false end;
                  ev_extra := match extra with
                              | Some kvs => if truthy (JObj kvs) then kvs else []
                              | None => []
                              end |}.
    split; [reflexivity|]. split; [|repeat split; reflexivity].
    destruct info as [i|]; [destruct (String.eqb i "")|]; reflexivity. }
  destruct Hr as (d' & ev & Hd' & Hev & Hid & Hevid & Htype & Hmsg & Hts).
  set (old := load_events fromisoformat (map_to_list m)).
  assert (Hperm : Permutation (load_events fromisoformat (glob (events d')))
                              ((t, ev) :: old)).
  { rewrite (load_events_Permutation _ _ (glob_lists (events d'))), Hev.
    rewrite (load_events_Permutation _ _ (map_to_list_insert m eid ev Hfresh)).
    simpl. by rewrite Hts, Ht. }
  assert (Holder : Forall (fun y => dt_aware (fst y) = dt_aware t
                                    /\ dt_us (fst y) < dt_us t) old).
  { apply Forall_forall. intros y Hy. apply list_elem_of_In in Hy.
    apply load_events_In in Hy as (k & Hk & Hty).
    apply list_elem_of_In, elem_of_map_to_list in Hk. by eapply Hold. }
  assert (Hcmp : comparable (load_events fromisoformat (glob (events d')))
                 = true).
  { apply (comparable_same _ (dt_aware t)). intros x Hx.
    eapply Permutation_in in Hx; [|exact Hperm].
    destruct Hx as [<-|Hx]; [reflexivity|].
    rewrite Forall_forall in Holder.
    by destruct (Holder x ltac:(by apply list_elem_of_In)). }
  destruct (sorted_newest_head
              (sort_newest (load_events fromisoformat (glob (events d'))))
              old (t, ev)) as [tl Hsorted].
  { apply sort_newest_sorted. }
  { by rewrite sort_newest_Permutation. }
  { eapply Forall_impl; [exact Holder|]. intros y [_ Hy]. exact Hy. }
  assert (Hslice : exists sl,
             py_slice (sort_newest (load_events fromisoformat
                                      (glob (events d')))) 0 limit
             = (t, ev) :: sl).
  { rewrite Hsorted, py_slice_nonneg by lia.
    destruct (Z.to_nat limit) as [|n] eqn:Hn; [lia|].
    simpl. eauto. }
  destruct Hslice as [sl Hslice].
  unfold get_job_events. rewrite Hd'. cbv zeta. rewrite Hcmp, Hslice.
  eexists _, _, _. split; [reflexivity|].
  cbn [page_total page_items]. split; [|split].
  - rewrite sort_newest_Permutation, Hperm. simpl length. fold old. lia.
  - simpl. reflexivity.
  - rewrite Hid. simpl. auto.
Qed.

End EventList.

Lemma job_events_page_witness :
  exists p,
    get_job_events read_2024 no_relative_time map_to_list "job" 0 15
      (fst (store_event "job" "success" "done" None None "2024-01-01T00:00:00"
              "0a1b2c3d" "2024-01-01T00:00:01" ∅))
    = Some p
    /\ page_total p = 1 /\ event_page_law 0 15 p.
Proof.
  eexists. split; [vm_compute; reflexivity|]. split; [reflexivity|].
  apply (job_events_page read_2024 no_relative_time map_to_list
           (fun m => Permutation_refl _) "job" 0 15
           (fst (store_event "job" "success" "done" None None
                   "2024-01-01T00:00:00" "0a1b2c3d" "2024-01-01T00:00:01" ∅)));
    [lia|lia|vm_compute; reflexivity].
Defined.

Lemma new_event_heads_the_list_witness :
  exists p item rest,
    get_job_events read_two_events no_relative_time map_to_list "job" 0 15
      (fst (store_event "job" "success" "done" None None "2024-01-01T00:00:05"
              "4e5f6a7b" "2024-01-01T00:00:06" one_event))
    = Some p
    /\ page_total p = 2
    /\ page_items p = item :: rest
    /\ be_type item = "success".
Proof.
  destruct (new_event_heads_the_list read_two_events no_relative_time
              map_to_list (fun m => Permutation_refl _) "job" "success" "done"
              None None "2024-01-01T00:00:05" "4e5f6a7b" "2024-01-01T00:00:06"
              15 one_event
              {| dt_us := 63839664005000000; dt_aware := false;
                 isoformat := "2024-01-01T00:00:05" |})
    as (p & item & rest & Hp & Htotal & Hitems & _ & Htype & _).
  - lia.
  - reflexivity.
  - vm_compute. reflexivity.
  - intros k ev t' Hk Ht'.
    change (events_of "job" one_event)
      with (<["2024-01-01T00:00:00_0a1b2c3d" :=
               {| ev_id := "2024-01-01T00:00:00_0a1b2c3d"; ev_type := "start";
                  ev_timestamp := "2024-01-01T00:00:00";
                  ev_message := "backup started"; ev_has_info := false;
                  ev_extra := [] |}]> (∅ : gmap string event_data)) in Hk.
    apply lookup_insert_Some in Hk as [[_ <-]|[_ Hk]].
    + vm_compute in Ht'. inversion Ht'; subst. simpl. split; [reflexivity|lia].
    + rewrite lookup_empty in Hk. discriminate.
  - exists p, item, rest. split; [exact Hp|].
    split; [rewrite Htotal; vm_compute; reflexivity|]. auto.
Defined.

(** ** What a status push leaves alone *)

(** X27. A status push keeps the logs it does not bring: after
    [store_backup_run], the log of every other run is what it was, and so
    is the log of the pushed run when the request has no log lines (a
    later status update does not erase the log stored before); the events,
    the archive list and the repository info of the job are untouched. *)
Theorem status_push_keeps_logs (id : string) (rd : run_data)
    (now1 now2 rid : string) (st : gmap string job_dir) :
  rid <> run_id rd \/ log_lines rd = [] ->
  let st' := fst (store_backup_run id rd now1 now2 st) in
  run_log_of id rid st' = run_log_of id rid st
  /\ events_of id st' = events_of id st
  /\ archives (the_dir id st') = archives (the_dir id st)
  /\ repository_info (the_dir id st') = repository_info (the_dir id st).
Proof.
  intros Hrid st'. unfold st', store_backup_run, run_log_of, events_of, the_dir.
  cbv zeta.
  destruct (run_duration rd) as [duration|] eqn:Hd; cbn [fst];
    rewrite !lookup_insert_eq.
  - unfold _update_job_summary, _update_runs_from_run. rewrite Hd.
    destruct (log_lines rd) as [|l ls] eqn:Hl.
    + destruct (st !! id) as [d|]; repeat split; reflexivity.
    + destruct Hrid as [Hne|?]; [|discriminate].
      destruct (st !! id) as [d|]; simpl;
        rewrite lookup_insert_ne by congruence; repeat split; reflexivity.
  - destruct (st !! id) as [d|]; repeat split; reflexivity.
Qed.

Lemma status_push_keeps_logs_witness :
  run_log_of "job" "run-a"
    (fst (store_backup_run "job"
            {| run_id := "run-a"; status := Failed;
               start_time := start_time run_a; end_time := end_time run_a;
               exit_code := Some 2; log_lines := []; error_message := None |}
            "2024-01-01T00:10:00" "2024-01-01T00:10:01"
            (fst (store_backup_run "job" run_a "2024-01-01T00:05:00"
                    "2024-01-01T00:05:01" ∅))))
  = Some ["done"].
Proof.
  rewrite (proj1 (status_push_keeps_logs "job"
                    {| run_id := "run-a"; status := Failed;
                       start_time := start_time run_a;
                       end_time := end_time run_a;
                       exit_code := Some 2; log_lines := [];
                       error_message := None |}
                    "2024-01-01T00:10:00" "2024-01-01T00:10:01" "run-a"
                    (fst (store_backup_run "job" run_a "2024-01-01T00:05:00"
                            "2024-01-01T00:05:01" ∅))
                    (or_intror eq_refl))).
  vm_compute. reflexivity.
Defined.

(** ** From a snapshot push to the list of jobs *)

Section CountShown.

Variable float_of_str : string -> option spec_float.
Variable fromisoformat : string -> option datetime.
Variable now : datetime.
Variable relative_time : datetime -> string.
Variable coerce_int : json -> option Z.

Lemma summary_from_borg_info_count (id tnow : string)
    (repository_info : list (string * json)) (archive_list : list json)
    (c s : gmap string json) :
  summary_from_borg_info float_of_str id tnow repository_info
    (JList archive_list) c = Some s ->
  s !! "archive_count" = Some (JInt (Z.of_nat (List.length archive_list))).
Proof.
  intros H.
  apply summary_from_borg_info_inv in H
    as (n & repo_stats & c2 & loc & Hn & _ & Hsize & _ & ->).
  simpl in Hn. inversion Hn; subst.
  repeat (rewrite lookup_setdefault_ne; [|discriminate]).
  repeat (rewrite lookup_insert_ne; [|discriminate]).
  assert (Hc2 : c2 !! "archive_count"
                = Some (JInt (Z.of_nat (List.length archive_list)))).
  { rewrite (size_statistics_other float_of_str _ _ _ "archive_count" Hsize)
      by discriminate.
    apply lookup_insert_eq. }
  destruct loc as [l|]; [rewrite lookup_insert_ne by discriminate|]; exact Hc2.
Qed.

(** X28. The archive count that is pushed is the one that is shown: after
    a [store_borg_info] whose summary update went through, the job that
    [get_all_jobs] and [get_job_details] build for this job id has
    [archiveCount] equal to the number of archives of the push. *)
Theorem pushed_archive_count_is_shown (id tnow : string)
    (repository_info : list (string * json)) (archive_list : list json)
    (cfg : job_config) (st : gmap string job_dir) (s : gmap string json)
    (j : job_summary_model) :
  summary_from_borg_info float_of_str id tnow repository_info
    (JList archive_list) (default ∅ (summary_of id st)) = Some s ->
  load_job fromisoformat now relative_time coerce_int id cfg
    (fst (store_borg_info float_of_str id tnow repository_info archive_list st)
       !! id) = Some j ->
  archiveCount (stats j) = Z.of_nat (List.length archive_list).
Proof.
  intros Hs Hj.
  pose proof (summary_of_store_borg_info float_of_str id tnow repository_info
                archive_list st) as Hsum.
  rewrite Hs in Hsum. unfold summary_of in Hsum.
  destruct (fst (store_borg_info float_of_str id tnow repository_info
                   archive_list st) !! id) as [d|]; [|discriminate].
  unfold load_job in Hj. rewrite Hsum in Hj.
  change (default ∅ (Some s)) with s in Hj.
  rewrite (summary_from_borg_info_count _ _ _ _ _ _ Hs) in Hj.
  simpl (as_int _ _) in Hj.
  repeat match type of Hj with
         | mbind _ ?x = Some _ =>
             destruct x; cbn [mbind option_bind] in Hj; [|discriminate]
         end.
  inversion Hj; subst. reflexivity.
Qed.

End CountShown.

Lemma pushed_archive_count_is_shown_witness :
  exists j,
    load_job read_2024 noon_2026_11_04 no_relative_time no_int_coercion "job"
      (config_job "24h")
      (fst (store_borg_info no_float_of_str "job" "2024-01-01T00:05:00" []
              [JObj [("name", JStr "a1")]; JObj [("name", JStr "a2")]] ∅)
         !! "job") = Some j
    /\ archiveCount (stats j) = 2.
Proof.
  eexists. split; [reflexivity|].
  exact (pushed_archive_count_is_shown no_float_of_str read_2024
           noon_2026_11_04 no_relative_time no_int_coercion "job"
           "2024-01-01T00:05:00" []
           [JObj [("name", JStr "a1")]; JObj [("name", JStr "a2")]]
           (config_job "24h") ∅ _ _ eq_refl eq_refl).
Defined.

(** ** The archives of several repositories *)

Section Collected.

Variable float_of_str : string -> option spec_float.

Lemma py_extend_archives_of (archives_ : list json) (repo : list (string * json)) :
  archives_listed repo ->
  match assoc_get "archives" repo with
  | Some a => py_extend archives_ a
  | None => Some archives_
  end = Some (archives_ ++ archives_of repo)%list.
Proof.
  unfold archives_of. intros [H|[l H]]; rewrite H; simpl.
  - by rewrite app_nil_r.
  - reflexivity.
Qed.

Lemma rinfo_loop_collects (l : list (list (string * json)))
    (repository_info : list (string * json)) (archives_ : list json)
    (path : json) :
  truthy (JObj repository_info) = true ->
  Forall archives_listed l ->
  rinfo_loop l repository_info archives_ path
  = Some (repository_info,
          (archives_ ++ concat (map archives_of l))%list, path).
Proof.
  intros Hinfo Hall. revert archives_.
  induction Hall as [|repo l Hrepo Hall IH]; intros archives_;
    cbn [rinfo_loop map concat].
  - by rewrite app_nil_r.
  - rewrite (py_extend_archives_of archives_ repo Hrepo).
    cbn [mbind option_bind]. rewrite Hinfo. cbn [negb andb].
    rewrite IH. by rewrite <- app_assoc.
Qed.

(** X29. The archives of all repositories: for a list of repositories
    whose [archives] entries are lists and whose first entry has an object
    as [repository], [store_borgmatic_rinfo] does what [store_borg_info]
    does with the repository info of the first entry and the archives of
    all entries, in the order of the list (provided there is an archive at
    all). *)
Theorem rinfo_collects_all_archives (id now : string)
    (first r : list (string * json)) (rest : list (list (string * json)))
    (st : gmap string job_dir) :
  assoc_get "repository" first = Some (JObj r) ->
  Forall archives_listed (first :: rest) ->
  concat (map archives_of (first :: rest)) <> [] ->
  store_borgmatic_rinfo float_of_str id now (BList (first :: rest)) st
  = store_borg_info float_of_str id now (_extract_repository_info first)
      (concat (map archives_of (first :: rest))) st.
Proof.
  intros Hr Hall Hne.
  assert (Hinfo : truthy (JObj (_extract_repository_info first)) = true).
  { unfold _extract_repository_info. by rewrite Hr. }
  assert (Hfirst : truthy (JObj first) = true).
  { destruct first; [discriminate Hr|reflexivity]. }
  assert (Hloc : repository_get "location" first = Some (assoc_get "location" r)).
  { unfold repository_get. by rewrite Hr. }
  inversion Hall as [|? ? Hf Hrest]; subst.
  unfold store_borgmatic_rinfo. cbv zeta. cbn [rinfo_loop].
  rewrite (py_extend_archives_of [] first Hf).
  cbn [mbind option_bind]. rewrite Hfirst.
  change (truthy (JObj [])) with false. cbn [negb andb].
  rewrite Hloc. cbn [mbind option_bind].
  rewrite (rinfo_loop_collects rest _ _ _ Hinfo Hrest).
  change ([] ++ archives_of first)%list with (archives_of first).
  change (map archives_of (first :: rest))
    with (archives_of first :: map archives_of rest) in *.
  cbn [concat] in *.
  destruct (archives_of first ++ concat (map archives_of rest))%list
    as [|a archive_list] eqn:Ha; [contradiction|].
  unfold finish_store, store_unified, store_borg_info. rewrite Hinfo.
  reflexivity.
Qed.

End Collected.

Lemma rinfo_collects_all_archives_witness :
  store_borgmatic_rinfo no_float_of_str "job" "2024-01-01T00:05:00"
    (BList [[("repository", JObj [("location", JStr "/backup")]);
             ("archives", JList [JObj [("name", JStr "a1")]])];
            [("archives", JList [JObj [("name", JStr "b1")]])]]) ∅
  = store_borg_info no_float_of_str "job" "2024-01-01T00:05:00"
      [("repository", JObj [("location", JStr "/backup")])]
      [JObj [("name", JStr "a1")]; JObj [("name", JStr "b1")]] ∅.
Proof.
  refine (rinfo_collects_all_archives no_float_of_str "job"
            "2024-01-01T00:05:00"
            [("repository", JObj [("location", JStr "/backup")]);
             ("archives", JList [JObj [("name", JStr "a1")]])]
            [("location", JStr "/backup")]
            [[("archives", JList [JObj [("name", JStr "b1")]])]] ∅
            eq_refl _ _).
  - constructor; [right; eexists; reflexivity|].
    constructor; [right; eexists; reflexivity|constructor].
  - discriminate.
Defined.
